(** * gcal: the date/time, duration and reminder parsers and the ICS import mapper

    A shallow embedding of the parsing and mapping core of gcal
    ([glib/gutils.js]: [normalizeUser], [formatDateTime], [parseDuration],
    [parseDateTime]; [gcal.js]: [createEvent], [importIcsFile],
    [parseReminder], [parseTimeLimit], [parseArgs], and the table of the
    [list] command) together with the part of the JavaScript platform
    these functions rest on: regular expression matching, [parseInt], and
    the [Date] object.

    Conventions of the embedding.
    - A JavaScript string is a [string]: a sequence of code units, here
      restricted to the range 0..255.
    - A JavaScript number is a [number]: [NaN] or an integer [Num z] with
      [z : Z].  Integers are exact, as the doubles of the program are up to
      2^53; statements on the value of a parsed amount are made within that
      range.
    - [undefined] is [None].
    - A [Date] object is its time value, a [number] of milliseconds since
      the epoch in UTC, clipped to the range of [TimeClip].  Local time is
      UTC shifted by the offset of a [zone], which depends on the time as
      [LocalTZA(t, isUTC)] of the language specification does, so that
      zones with daylight-saving transitions are covered.
    - [process.exit] and [throw] end a parser with an [Exit] or [Throw]
      outcome; a call inside a [try] comes to [Done] or [Thrown]. *)

From Stdlib Require Import ZArith Lia Bool List Ascii String.
Import ListNotations.

Local Open Scope string_scope.
Local Open Scope Z_scope.

(* ===================================================================== *)
(** ** Code units and strings *)

Module Chars.

Definition code (c : ascii) : Z := Z.of_N (N_of_ascii c).

(** [\d] *)
Definition isDigit (c : ascii) : bool := (48 <=? code c) && (code c <=? 57).

(** [\s]: WhiteSpace and LineTerminator, as far as they lie in 0..255. *)
Definition isSpace (c : ascii) : bool :=
  ((9 <=? code c) && (code c <=? 13)) || (code c =? 32) || (code c =? 160).

Definition isUpper (c : ascii) : bool := (65 <=? code c) && (code c <=? 90).
Definition isLower (c : ascii) : bool := (97 <=? code c) && (code c <=? 122).

(** Upper-case letters of Latin-1 with a lower-case partner in Latin-1. *)
Definition isUpperLatin1 (c : ascii) : bool :=
  (192 <=? code c) && (code c <=? 222) && negb (code c =? 215).

Definition ofCode (z : Z) : ascii := ascii_of_N (Z.to_N z).

(** One code unit of [String.prototype.toLowerCase]. *)
Definition toLowerChar (c : ascii) : ascii :=
  if isUpper c || isUpperLatin1 c then ofCode (code c + 32) else c.

(** [Canonicalize] of a case-insensitive regular expression without the
    [u] flag: a code unit at or above 128 never folds onto one below. *)
Definition canonicalize (c : ascii) : ascii :=
  if isLower c then ofCode (code c - 32) else c.

(** A pattern character, under the [i] flag or not. *)
Definition chr (ignoreCase : bool) (p : ascii) : ascii -> bool :=
  fun c => if ignoreCase then Ascii.eqb (canonicalize c) (canonicalize p)
           else Ascii.eqb c p.

(** The class [[...]] given by its members. *)
Definition oneOf (ignoreCase : bool) (members : string) : ascii -> bool :=
  fun c => existsb (fun p => chr ignoreCase p c) (list_ascii_of_string members).

(** The class [[a-z]]: under the [i] flag, the code units that
    canonicalize to one of [A]..[Z]. *)
Definition range_a_z (ignoreCase : bool) : ascii -> bool :=
  fun c => if ignoreCase then isUpper (canonicalize c) else isLower c.

End Chars.

Module Str.

Fixpoint map (f : ascii -> ascii) (s : string) : string :=
  match s with
  | EmptyString => EmptyString
  | String c s' => String (f c) (map f s')
  end.

Definition toLowerCase (s : string) : string := map Chars.toLowerChar s.

Fixpoint trimStart (s : string) : string :=
  match s with
  | String c s' => if Chars.isSpace c then trimStart s' else s
  | EmptyString => EmptyString
  end.

(** [trimEnd] returns the empty string exactly when nothing but white space
    follows. *)
Fixpoint trimEnd (s : string) : string :=
  match s with
  | EmptyString => EmptyString
  | String c s' =>
      match trimEnd s' with
      | EmptyString => if Chars.isSpace c then EmptyString else String c EmptyString
      | t => String c t
      end
  end.

Definition trim (s : string) : string := trimEnd (trimStart s).

Fixpoint take (n : nat) (s : string) : string :=
  match n, s with
  | S n', String c s' => String c (take n' s')
  | _, _ => EmptyString
  end.

Fixpoint startsWith (p s : string) : bool :=
  match p, s with
  | EmptyString, _ => true
  | String a p', String b s' => Ascii.eqb a b && startsWith p' s'
  | String _ _, EmptyString => false
  end.

Fixpoint drop (n : nat) (s : string) : string :=
  match n, s with
  | S n', String _ s' => drop n' s'
  | _, _ => s
  end.

(** [s.split(sep)] for a one-unit separator: the pieces between its
    occurrences, never an empty list. *)
Fixpoint split (sep : ascii) (s : string) : list string :=
  match s with
  | EmptyString => [EmptyString]
  | String c s' =>
      if Ascii.eqb c sep then EmptyString :: split sep s'
      else match split sep s' with
           | p :: ps => String c p :: ps
           | [] => [String c EmptyString]
           end
  end.

(** [s.replace(pat, by)] for a string pattern: the first occurrence only,
    wherever it stands. *)
Fixpoint replace (pat by_ s : string) : string :=
  if startsWith pat s then (by_ ++ drop (length pat) s)%string
  else match s with
       | EmptyString => EmptyString
       | String c s' => String c (replace pat by_ s')
       end.

End Str.

(* ===================================================================== *)
(** ** Numbers *)

Inductive number : Type :=
| NaN
| Num (z : Z).

Definition nadd (a b : number) : number :=
  match a, b with Num x, Num y => Num (x + y) | _, _ => NaN end.

Definition nsub (a b : number) : number :=
  match a, b with Num x, Num y => Num (x - y) | _, _ => NaN end.

Definition nmul (a b : number) : number :=
  match a, b with Num x, Num y => Num (x * y) | _, _ => NaN end.

(** [a || b] on numbers: [NaN] and [0] are falsy. *)
Definition norElse (a b : number) : number :=
  match a with
  | NaN => b
  | Num z => if z =? 0 then b else a
  end.

Definition nlt (a b : number) : bool :=
  match a, b with Num x, Num y => x <? y | _, _ => false end.

Definition nle (a b : number) : bool :=
  match a, b with Num x, Num y => x <=? y | _, _ => false end.

(** [a === b] on numbers: [NaN] equals nothing. *)
Definition nseq (a b : number) : bool :=
  match a, b with Num x, Num y => x =? y | _, _ => false end.

Definition isNaN (a : number) : bool :=
  match a with NaN => true | Num _ => false end.

(** [s || dflt] on an optional string: [undefined] and [""] are falsy. *)
Definition sorElse (s : option string) (dflt : string) : string :=
  match s with
  | None => dflt
  | Some EmptyString => dflt
  | Some t => t
  end.

(** [s || undefined]. *)
Definition sorUndefined (s : option string) : option string :=
  match s with
  | Some EmptyString => None
  | _ => s
  end.

(* ===================================================================== *)
(** ** parseInt *)

Module ParseInt.

Definition digitValue (radix : Z) (c : ascii) : option Z :=
  let n := Chars.code c in
  let v := if (48 <=? n) && (n <=? 57) then n - 48
           else if (97 <=? n) && (n <=? 122) then n - 87
           else if (65 <=? n) && (n <=? 90) then n - 55
           else 99 in
  if v <? radix then Some v else None.

(** The longest prefix of digits of the radix, read left to right;
    [None] when there is no digit at all. *)
Fixpoint digits (radix : Z) (acc : option Z) (s : string) : option Z :=
  match s with
  | EmptyString => acc
  | String c s' =>
      match digitValue radix c with
      | None => acc
      | Some v =>
          digits radix (Some (match acc with Some a => a * radix + v | None => v end)) s'
      end
  end.

Definition signed (sign : Z) (radix : Z) (s : string) : number :=
  match digits radix None s with
  | None => NaN
  | Some v => Num (sign * v)
  end.

(** A leading [0x] or [0X] selects radix 16. *)
Definition unsignedPart (sign : Z) (s : string) : number :=
  if Str.startsWith "0x" s || Str.startsWith "0X" s
  then signed sign 16 (Str.drop 2 s)
  else signed sign 10 s.

(** [parseInt(s)] with the radix left out. *)
Definition parseInt (s : string) : number :=
  let s := Str.trimStart s in
  if Str.startsWith "-" s then unsignedPart (-1) (Str.drop 1 s)
  else if Str.startsWith "+" s then unsignedPart 1 (Str.drop 1 s)
  else unsignedPart 1 s.

End ParseInt.

Definition parseInt := ParseInt.parseInt.

(* ===================================================================== *)
(** ** Regular expressions *)

Module Regex.

(** The fragment of the pattern language the program uses.  Repetition
    is over single code units ([\d+], [\s*], [[a-z]*]); [x{1,2}] and
    [x{4}] are written out with [Cat] and [Opt]. *)
Inductive regex : Type :=
| Eps
| Bos                              (* ^ *)
| Eos                              (* $ *)
| Cls (p : ascii -> bool)          (* one code unit of a class *)
| Cat (r1 r2 : regex)
| Alt (r1 r2 : regex)              (* r1|r2, left first *)
| Opt (r : regex)                  (* r?, greedy *)
| Star (p : ascii -> bool)         (* c*, greedy *)
| Grp (i : nat) (r : regex).       (* the i-th capturing group *)

(** The match array: index 0 is the whole match, [None] is [undefined]. *)
Definition captures := list (option string).

Fixpoint setCap (i : nat) (v : string) (c : captures) : captures :=
  match i, c with
  | O, _ :: c' => Some v :: c'
  | S i', x :: c' => x :: setCap i' v c'
  | _, [] => []
  end.

Definition getCap (i : nat) (c : captures) : option string :=
  nth i c None.

Definition K := string -> captures -> option captures.

Fixpoint star (p : ascii -> bool) (s : string) (k : string -> option captures)
  : option captures :=
  match s with
  | String a s' =>
      if p a then
        match star p s' k with
        | Some r => Some r
        | None => k s
        end
      else k s
  | EmptyString => k s
  end.

(** Backtracking matcher in continuation-passing style: [run n r s c k]
    matches [r] at the front of [s], the rest of an input of length [n],
    and hands what is left to [k]; a [None] from [k] makes it try the next
    alternative. *)
Fixpoint run (n : nat) (r : regex) (s : string) (c : captures) (k : K)
  : option captures :=
  match r with
  | Eps => k s c
  | Bos => if Nat.eqb (length s) n then k s c else None
  | Eos => match s with EmptyString => k s c | String _ _ => None end
  | Cls p =>
      match s with
      | String a s' => if p a then k s' c else None
      | EmptyString => None
      end
  | Cat r1 r2 => run n r1 s c (fun s' c' => run n r2 s' c' k)
  | Alt r1 r2 =>
      match run n r1 s c k with
      | Some res => Some res
      | None => run n r2 s c k
      end
  | Opt r1 =>
      match run n r1 s c k with
      | Some res => Some res
      | None => k s c
      end
  | Star p => star p s (fun s' => k s' c)
  | Grp i r1 =>
      run n r1 s c
        (fun s' c' => k s' (setCap i (Str.take (length s - length s') s) c'))
  end.

(** A match attempt at the front of [s]. *)
Definition matchAt (n groups : nat) (r : regex) (s : string) : option captures :=
  run n r s (repeat None (S groups))
    (fun s' c' => Some (setCap 0 (Str.take (length s - length s') s) c')).

(** The leftmost match: every start position in turn. *)
Fixpoint searchFrom (n groups : nat) (r : regex) (s : string) : option captures :=
  match matchAt n groups r s with
  | Some c => Some c
  | None =>
      match s with
      | EmptyString => None
      | String _ s' => searchFrom n groups r s'
      end
  end.

(** [s.match(r)] for a pattern without the [g] flag. *)
Definition exec (groups : nat) (r : regex) (s : string) : option captures :=
  searchFrom (length s) groups r s.

(** Pattern text. *)
Fixpoint lit (ignoreCase : bool) (t : string) : regex :=
  match t with
  | EmptyString => Eps
  | String a EmptyString => Cls (Chars.chr ignoreCase a)
  | String a t' => Cat (Cls (Chars.chr ignoreCase a)) (lit ignoreCase t')
  end.

Fixpoint alts (rs : list regex) : regex :=
  match rs with
  | [] => Eps
  | [r] => r
  | r :: rs' => Alt r (alts rs')
  end.

Fixpoint seq (rs : list regex) : regex :=
  match rs with
  | [] => Eps
  | [r] => r
  | r :: rs' => Cat r (seq rs')
  end.

Definition digit : regex := Cls Chars.isDigit.
Definition digits1 : regex := Cat digit (Star Chars.isDigit).       (* \d+ *)
Definition digits_1_2 : regex := Cat digit (Opt digit).             (* \d{1,2} *)
Definition digits_2 : regex := Cat digit digit.                     (* \d{2} *)
Definition digits_4 : regex := seq [digit; digit; digit; digit].    (* \d{4} *)
Definition spaces0 : regex := Star Chars.isSpace.                   (* \s* *)
Definition spaces1 : regex := Cat (Cls Chars.isSpace) (Star Chars.isSpace). (* \s+ *)

End Regex.

Import Regex.

(* ===================================================================== *)
(** ** parseDuration (glib/gutils.js) *)

(** [/(\d+)h/i] *)
Definition re_hour : regex := Cat (Grp 1 digits1) (lit true "h").
(** [/(\d+)m/i] *)
Definition re_min : regex := Cat (Grp 1 digits1) (lit true "m").

(** [m[i]], read where the group takes part in every match of its
    pattern. *)
Definition group (i : nat) (m : captures) : string :=
  match getCap i m with Some t => t | None => EmptyString end.

Definition parseDuration (duration : string) : number :=
  let minutes := Num 0 in
  let hourMatch := exec 1 re_hour duration in
  let minMatch := exec 1 re_min duration in
  let minutes :=
    match hourMatch with
    | Some m => nadd minutes (nmul (parseInt (group 1 m)) (Num 60))
    | None => minutes
    end in
  let minutes :=
    match minMatch with
    | Some m => nadd minutes (parseInt (group 1 m))
    | None => minutes
    end in
  match hourMatch, minMatch with
  | None, None => norElse (parseInt duration) (Num 60)
  | _, _ => minutes
  end.

(* ===================================================================== *)
(** ** The Date object (ECMAScript, Date Objects) *)

Module JSDate.

Definition msPerSecond : Z := 1000.
Definition msPerMinute : Z := 60000.
Definition msPerHour : Z := 3600000.
Definition msPerDay : Z := 86400000.

Definition Day (t : Z) : Z := t / msPerDay.
Definition TimeWithinDay (t : Z) : Z := t mod msPerDay.

Definition DayFromYear (y : Z) : Z :=
  365 * (y - 1970) + (y - 1969) / 4 - (y - 1901) / 100 + (y - 1601) / 400.

Definition TimeFromYear (y : Z) : Z := msPerDay * DayFromYear y.

Definition isLeapYear (y : Z) : bool :=
  ((y mod 4 =? 0) && negb (y mod 100 =? 0)) || (y mod 400 =? 0).

Definition InLeapYearOf (y : Z) : Z := if isLeapYear y then 1 else 0.

(** The year of day number [d]: the largest [y] with [DayFromYear y <= d],
    computed over the 400-, 100-, 4- and 1-year cycles counted from
    1 January of year 1. *)
Definition YearFromDay (d : Z) : Z :=
  let n := d + 719162 in
  let q400 := n / 146097 in
  let r400 := n mod 146097 in
  let q100 := Z.min (r400 / 36524) 3 in
  let r100 := r400 - q100 * 36524 in
  let q4 := r100 / 1461 in
  let r4 := r100 mod 1461 in
  let q1 := Z.min (r4 / 365) 3 in
  400 * q400 + 100 * q100 + 4 * q4 + q1 + 1.

Definition YearFromTime (t : Z) : Z := YearFromDay (Day t).
Definition InLeapYear (t : Z) : Z := InLeapYearOf (YearFromTime t).
Definition DayWithinYear (t : Z) : Z := Day t - DayFromYear (YearFromTime t).

(** The day within the year on which month [m] (0..11) begins. *)
Definition monthStart (leap : Z) (m : Z) : Z :=
  if m <=? 0 then 0
  else if m =? 1 then 31
  else if m =? 2 then 59 + leap
  else if m =? 3 then 90 + leap
  else if m =? 4 then 120 + leap
  else if m =? 5 then 151 + leap
  else if m =? 6 then 181 + leap
  else if m =? 7 then 212 + leap
  else if m =? 8 then 243 + leap
  else if m =? 9 then 273 + leap
  else if m =? 10 then 304 + leap
  else 334 + leap.

Definition monthOfDay (leap : Z) (dw : Z) : Z :=
  if dw <? 31 then 0
  else if dw <? 59 + leap then 1
  else if dw <? 90 + leap then 2
  else if dw <? 120 + leap then 3
  else if dw <? 151 + leap then 4
  else if dw <? 181 + leap then 5
  else if dw <? 212 + leap then 6
  else if dw <? 243 + leap then 7
  else if dw <? 273 + leap then 8
  else if dw <? 304 + leap then 9
  else if dw <? 334 + leap then 10
  else 11.

Definition MonthFromTime (t : Z) : Z := monthOfDay (InLeapYear t) (DayWithinYear t).

Definition DateFromTime (t : Z) : Z :=
  DayWithinYear t - monthStart (InLeapYear t) (MonthFromTime t) + 1.

Definition WeekDay (t : Z) : Z := (Day t + 4) mod 7.

Definition HourFromTime (t : Z) : Z := (t / msPerHour) mod 24.
Definition MinFromTime (t : Z) : Z := (t / msPerMinute) mod 60.
Definition SecFromTime (t : Z) : Z := (t / msPerSecond) mod 60.
Definition msFromTime (t : Z) : Z := t mod msPerSecond.

Definition MakeTime (hour min sec ms : Z) : Z :=
  hour * msPerHour + min * msPerMinute + sec * msPerSecond + ms.

(** [MakeDay]: the day number of the first of month [month mod 12] of year
    [year + floor(month / 12)], moved on by [date - 1] days. *)
Definition MakeDay (year month date : Z) : Z :=
  let ym := year + month / 12 in
  let mn := month mod 12 in
  DayFromYear ym + monthStart (InLeapYearOf ym) mn + date - 1.

Definition MakeDate (day time : Z) : Z := day * msPerDay + time.

Definition maxTime : Z := 8640000000000000.

Definition TimeClip (t : Z) : number :=
  if Z.abs t <=? maxTime then Num t else NaN.

(** A Date object: its time value. *)
Record Date : Type := mkDate { timeValue : number }.

Definition invalidDate : Date := mkDate NaN.

(** A time zone, as [LocalTZA(t, isUTC)]: the offset of local time from
    UTC in milliseconds.  With [isUTC = true], [t] is a time value in UTC
    and the offset is the one in effect at that instant.  With
    [isUTC = false], [t] is a local time value and the offset is the one
    under which the zone shows that reading; a reading that the zone shows
    twice (clocks set back) or never (clocks set forward) is taken with the
    offset in effect before the transition. *)
Definition zone : Type := Z -> bool -> Z.

Section Zone.

Variable tza : zone.

Definition LocalTime (t : Z) : Z := t + tza t true.
Definition UTC (t : Z) : Z := t - tza t false.

Definition getter (f : Z -> Z) (d : Date) : number :=
  match timeValue d with
  | NaN => NaN
  | Num t => Num (f (LocalTime t))
  end.

Definition getFullYear : Date -> number := getter YearFromTime.
Definition getMonth : Date -> number := getter MonthFromTime.
Definition getDate : Date -> number := getter DateFromTime.
Definition getDay : Date -> number := getter WeekDay.
Definition getHours : Date -> number := getter HourFromTime.
Definition getMinutes : Date -> number := getter MinFromTime.
Definition getSeconds : Date -> number := getter SecFromTime.
Definition getMilliseconds : Date -> number := getter msFromTime.
Definition getTime (d : Date) : number := timeValue d.

(** [new Date(d)] for a Date [d]. *)
Definition copy (d : Date) : Date :=
  match timeValue d with
  | NaN => invalidDate
  | Num t => mkDate (TimeClip t)
  end.


(** [d.setDate(date)] *)
Definition setDate (d : Date) (date : number) : Date :=
  match timeValue d, date with
  | Num t0, Num dt =>
      let t := LocalTime t0 in
      let newDate := MakeDate (MakeDay (YearFromTime t) (MonthFromTime t) dt)
                              (TimeWithinDay t) in
      mkDate (TimeClip (UTC newDate))
  | _, _ => invalidDate
  end.

(** [d.setMonth(month)] *)
Definition setMonth (d : Date) (month : number) : Date :=
  match timeValue d, month with
  | Num t0, Num m =>
      let t := LocalTime t0 in
      let newDate := MakeDate (MakeDay (YearFromTime t) m (DateFromTime t))
                              (TimeWithinDay t) in
      mkDate (TimeClip (UTC newDate))
  | _, _ => invalidDate
  end.

(** [d.setFullYear(year)]: an invalid date is taken as time 0. *)
Definition setFullYear (d : Date) (year : number) : Date :=
  let t := match timeValue d with NaN => 0 | Num t0 => LocalTime t0 end in
  match year with
  | Num y =>
      let newDate := MakeDate (MakeDay y (MonthFromTime t) (DateFromTime t))
                              (TimeWithinDay t) in
      mkDate (TimeClip (UTC newDate))
  | NaN => invalidDate
  end.

(** [d.setHours(hour, min, sec, ms)] *)
Definition setHours (d : Date) (hour min sec ms : number) : Date :=
  match timeValue d, hour, min, sec, ms with
  | Num t0, Num h, Num m, Num s, Num milli =>
      let t := LocalTime t0 in
      let date := MakeDate (Day t) (MakeTime h m s milli) in
      mkDate (TimeClip (UTC date))
  | _, _, _, _, _ => invalidDate
  end.

(** [new Date(year, month, date, hours, minutes)]: a year from 0 to 99
    stands for 1900 + year. *)
Definition ofFields (year month date hours minutes : number) : Date :=
  match year, month, date, hours, minutes with
  | Num y, Num m, Num dt, Num h, Num mi =>
      let yr := if (0 <=? y) && (y <=? 99) then 1900 + y else y in
      let finalDate := MakeDate (MakeDay yr m dt) (MakeTime h mi 0 0) in
      mkDate (TimeClip (UTC finalDate))
  | _, _, _, _, _ => invalidDate
  end.

(** [isNaN(d.getTime())] *)
Definition isInvalid (d : Date) : bool := isNaN (getTime d).

End Zone.

End JSDate.

Import JSDate.

(* ===================================================================== *)
(** ** Outcomes and messages *)

Inductive outcome (A : Type) : Type :=
| Return (a : A)
| Exit (status : Z) (stderr : string)  (* console.error(stderr); process.exit(status) *)
| Throw (message : string).            (* throw new Error(message) *)

Arguments Return {A} a.
Arguments Exit {A} status stderr.
Arguments Throw {A} message.

Definition ofCodes (l : list Z) : string :=
  string_of_list_ascii (List.map Chars.ofCode l).

(** The quotation mark. *)
Definition dquote : string := ofCodes [34].
(** The dash of the usage messages (U+2014), as the error stream carries
    it in UTF-8. *)
Definition emDash : string := ofCodes [226; 128; 148].

(** Decimal digits of a non-negative integer, least significant first to
    the front of [acc]. *)
Fixpoint decimal (fuel : nat) (n : Z) (acc : string) : string :=
  match fuel with
  | O => acc
  | S fuel' =>
      let acc' := String (Chars.ofCode (48 + n mod 10)) acc in
      if n <? 10 then acc' else decimal fuel' (n / 10) acc'
  end.

(** [Number.prototype.toString] on an integer or [NaN]. *)
Definition numberToString (x : number) : string :=
  match x with
  | NaN => "NaN"
  | Num z =>
      if z <? 0 then String "-" (decimal (S (Z.to_nat (Z.log2 (- z)))) (- z) EmptyString)
      else decimal (S (Z.to_nat (Z.log2 z))) z EmptyString
  end.

(** [list.indexOf(x)] and [list.findIndex(p)] *)
Fixpoint findIndexFrom {A : Type} (p : A -> bool) (l : list A) (i : Z) : number :=
  match l with
  | [] => Num (-1)
  | x :: l' => if p x then Num i else findIndexFrom p l' (i + 1)
  end.

Definition findIndex {A : Type} (p : A -> bool) (l : list A) : number :=
  findIndexFrom p l 0.

Definition indexOf (l : list string) (x : string) : number :=
  findIndex (String.eqb x) l.

(* ===================================================================== *)
(** ** parseReminder and parseTimeLimit (gcal.js) *)

Record Reminder : Type := mkReminder { method : string; minutes : number }.

(** [/^(\d+)\s*([mhd]?)$/i] *)
Definition re_reminder : regex :=
  seq [Bos; Grp 1 digits1; spaces0; Grp 2 (Opt (Cls (Chars.oneOf true "mhd"))); Eos].

Definition invalidReminder (spec : string) : string :=
  "Invalid reminder: " ++ dquote ++ spec ++ dquote ++ " " ++ emDash
    ++ " use #m, #h, or #d (e.g. 30m, 1h, 2d)".

Definition parseReminder (spec : string) : outcome Reminder :=
  let parts := Str.split ":" spec in
  let timePart := nth 0 parts EmptyString in
  let methodPart := nth_error parts 1 in
  let method :=
    match methodPart with
    | Some m => if String.eqb m "email" then "email" else "popup"
    | None => "popup"
    end in
  match exec 2 re_reminder timePart with
  | None => Exit 1 (invalidReminder spec)
  | Some m =>
      let num := parseInt (group 1 m) in
      let unit := Str.toLowerCase (sorElse (getCap 2 m) "m") in
      let minutes :=
        if String.eqb unit "h" then nmul num (Num 60)
        else if String.eqb unit "d" then nmul (nmul num (Num 60)) (Num 24)
        else num in
      Return (mkReminder method minutes)
  end.

(** [/^(\d+)\s*([dwmy]?)$/i] *)
Definition re_timeLimit : regex :=
  seq [Bos; Grp 1 digits1; spaces0; Grp 2 (Opt (Cls (Chars.oneOf true "dwmy"))); Eos].

Definition invalidTimeLimit (spec : string) : string :=
  "Invalid time limit: " ++ dquote ++ spec ++ dquote ++ " " ++ emDash
    ++ " use #d, #w, #m, or #y (e.g. 3m, 90d, 1y)".

Section Clock.

(** The zone of the system and the time value that [new Date()] reads. *)
Variable tza : zone.
Variable clock : Z.

Definition newDate : Date := mkDate (Num clock).

Definition parseTimeLimit (spec : string) : outcome Date :=
  match exec 2 re_timeLimit spec with
  | None => Exit 1 (invalidTimeLimit spec)
  | Some m =>
      let num := parseInt (group 1 m) in
      let unit := Str.toLowerCase (sorElse (getCap 2 m) "m") in
      let now := newDate in
      let now :=
        if String.eqb unit "d" then setDate tza now (nadd (getDate tza now) num)
        else if String.eqb unit "w" then
          setDate tza now (nadd (getDate tza now) (nmul num (Num 7)))
        else if String.eqb unit "y" then
          setFullYear tza now (nadd (getFullYear tza now) num)
        else setMonth tza now (nadd (getMonth tza now) num) in
      Return now
  end.

(* ===================================================================== *)
(** ** parseDateTime (glib/gutils.js) *)

(** [/^(today|tomorrow)\s+(?:at\s+)?(\d{1,2})(?::(\d{2}))?\s*(am|pm)?$/i] *)
Definition re_rel : regex :=
  seq [Bos; Grp 1 (alts [lit true "today"; lit true "tomorrow"]); spaces1;
       Opt (Cat (lit true "at") spaces1);
       Grp 2 digits_1_2; Opt (Cat (lit true ":") (Grp 3 digits_2)); spaces0;
       Opt (Grp 4 (alts [lit true "am"; lit true "pm"])); Eos].

Definition weekdays : list string :=
  ["sunday"; "monday"; "tuesday"; "wednesday"; "thursday"; "friday"; "saturday"].

(** [/^(next\s+)?(sunday|...|saturday)\s+(?:at\s+)?(\d{1,2})(?::(\d{2}))?\s*(am|pm)?$/i] *)
Definition re_day : regex :=
  seq [Bos; Opt (Grp 1 (Cat (lit true "next") spaces1));
       Grp 2 (alts (List.map (lit true) weekdays)); spaces1;
       Opt (Cat (lit true "at") spaces1);
       Grp 3 digits_1_2; Opt (Cat (lit true ":") (Grp 4 digits_2)); spaces0;
       Opt (Grp 5 (alts [lit true "am"; lit true "pm"])); Eos].

Definition months : list string :=
  ["jan"; "feb"; "mar"; "apr"; "may"; "jun"; "jul"; "aug"; "sep"; "oct"; "nov"; "dec"].

(** [/^(jan|...|dec)[a-z]*\s+(\d{1,2})(?:\s+(\d{4}))?(?:\s+(?:at\s+)?(\d{1,2})(?::(\d{2}))?\s*(am|pm)?)?$/i] *)
Definition re_month : regex :=
  seq [Bos; Grp 1 (alts (List.map (lit true) months)); Star (Chars.range_a_z true);
       spaces1; Grp 2 digits_1_2;
       Opt (Cat spaces1 (Grp 3 digits_4));
       Opt (seq [spaces1; Opt (Cat (lit true "at") spaces1);
                 Grp 4 digits_1_2; Opt (Cat (lit true ":") (Grp 5 digits_2)); spaces0;
                 Opt (Grp 6 (alts [lit true "am"; lit true "pm"]))]);
       Eos].

(** [/^(\d{1,2})\/(\d{1,2})\/(\d{4})\s+(\d{1,2}):(\d{2})$/] *)
Definition re_dateTime : regex :=
  seq [Bos; Grp 1 digits_1_2; lit false "/"; Grp 2 digits_1_2; lit false "/";
       Grp 3 digits_4; spaces1; Grp 4 digits_1_2; lit false ":"; Grp 5 digits_2; Eos].

(** [/^(\d{4})-(\d{1,2})-(\d{1,2})\s+(\d{1,2}):(\d{2})$/] *)
Definition re_isoDateTime : regex :=
  seq [Bos; Grp 1 digits_4; lit false "-"; Grp 2 digits_1_2; lit false "-";
       Grp 3 digits_1_2; spaces1; Grp 4 digits_1_2; lit false ":"; Grp 5 digits_2; Eos].

(** [/^(\d{1,2}):(\d{2})$/] *)
Definition re_timeOnly : regex :=
  seq [Bos; Grp 1 digits_1_2; lit false ":"; Grp 2 digits_2; Eos].

(** [/^(\d{1,2})(?::(\d{2}))?\s*(am|pm)$/] *)
Definition re_ampm : regex :=
  seq [Bos; Grp 1 digits_1_2; Opt (Cat (lit false ":") (Grp 2 digits_2)); spaces0;
       Grp 3 (alts [lit false "am"; lit false "pm"]); Eos].

(** [a === b] for an optional capture. *)
Definition optEq (a : option string) (b : string) : bool :=
  match a with Some x => String.eqb x b | None => false end.

(** The two statements that turn a 12-hour reading into a 24-hour one:
    [if (ampm === 'pm' && h < 12) h += 12; if (ampm === 'am' && h === 12) h = 0]. *)
Definition meridiem (ampm : option string) (h : number) : number :=
  let h := if optEq ampm "pm" && nlt h (Num 12) then nadd h (Num 12) else h in
  let h := if optEq ampm "am" && nseq h (Num 12) then Num 0 else h in
  h.

(** [a?.toLowerCase()]. *)
Definition optLower (a : option string) : option string :=
  option_map Str.toLowerCase a.

(** The native parser behind [new Date(string)]: a time value or [NaN]. *)
Variable DateParse : string -> number.

(** The message of the final [throw]. *)
Definition cannotParse (input : string) : string :=
  "Cannot parse date/time: " ++ input.

(** The block of [relMatch]: [today] or [tomorrow] with a time. *)
Definition relRule (now : Date) (lower : string) : option Date :=
  match exec 4 re_rel lower with
  | None => None
  | Some m =>
      let rel := group 1 m in
      let hour := group 2 m in
      let min := getCap 3 m in
      let ampm := getCap 4 m in
      let d := copy now in
      let d := if String.eqb rel "tomorrow"
               then setDate tza d (nadd (getDate tza d) (Num 1)) else d in
      let h := meridiem (optLower ampm) (parseInt hour) in
      Some (setHours tza d h (parseInt (sorElse min "0")) (Num 0) (Num 0))
  end.

(** The block of [dayMatch]: a weekday name with a time. *)
Definition dayRule (now : Date) (lower : string) : option Date :=
  match exec 5 re_day lower with
  | None => None
  | Some m =>
      let next := getCap 1 m in
      let day := group 2 m in
      let hour := group 3 m in
      let min := getCap 4 m in
      let ampm := getCap 5 m in
      let targetDay := indexOf weekdays (Str.toLowerCase day) in
      let d := copy now in
      let daysUntil := nsub targetDay (getDay tza d) in
      let daysUntil :=
        if nle daysUntil (Num 0) || negb (String.eqb (sorElse next "") "")
        then nadd daysUntil (Num 7) else daysUntil in
      let d := setDate tza d (nadd (getDate tza d) daysUntil) in
      let h := meridiem (optLower ampm) (parseInt hour) in
      Some (setHours tza d h (parseInt (sorElse min "0")) (Num 0) (Num 0))
  end.

(** The block of [monthMatch]: a month name, a day, and optionally a year
    and a time; it hands on to the later rules when its date is invalid. *)
Definition monthRule (now : Date) (lower : string) : option Date :=
  match exec 6 re_month lower with
  | None => None
  | Some m =>
      let month := group 1 m in
      let day := group 2 m in
      let year := getCap 3 m in
      let hour := getCap 4 m in
      let min := getCap 5 m in
      let ampm := getCap 6 m in
      let monthIndex :=
        findIndex (fun m' => Str.startsWith m' (Str.toLowerCase month)) months in
      let d := ofFields tza
                 (parseInt (sorElse year (numberToString (getFullYear tza now))))
                 monthIndex (parseInt day) (Num 0) (Num 0) in
      let d :=
        match sorUndefined hour with
        | Some hour' =>
            let h := meridiem (optLower ampm) (parseInt hour') in
            setHours tza d h (parseInt (sorElse min "0")) (Num 0) (Num 0)
        | None => setHours tza d (Num 0) (Num 0) (Num 0) (Num 0)
        end in
      if negb (isInvalid d) then Some d else None
  end.

(** The block of [dateTimeMatch]: [MM/DD/YYYY HH:mm]. *)
Definition dateTimeRule (input : string) : option Date :=
  match exec 5 re_dateTime input with
  | None => None
  | Some m =>
      let d := ofFields tza (parseInt (group 3 m))
                 (nsub (parseInt (group 1 m)) (Num 1)) (parseInt (group 2 m))
                 (parseInt (group 4 m)) (parseInt (group 5 m)) in
      if negb (isInvalid d) then Some d else None
  end.

(** The block of [isoDateTimeMatch]: [YYYY-MM-DD HH:mm]. *)
Definition isoDateTimeRule (input : string) : option Date :=
  match exec 5 re_isoDateTime input with
  | None => None
  | Some m =>
      let d := ofFields tza (parseInt (group 1 m))
                 (nsub (parseInt (group 2 m)) (Num 1)) (parseInt (group 3 m))
                 (parseInt (group 4 m)) (parseInt (group 5 m)) in
      if negb (isInvalid d) then Some d else None
  end.

(** The block of [timeMatch]: [HH:mm] today. *)
Definition timeRule (now : Date) (input : string) : option Date :=
  match exec 2 re_timeOnly input with
  | None => None
  | Some m =>
      let d := copy now in
      Some (setHours tza d (parseInt (group 1 m)) (parseInt (group 2 m)) (Num 0) (Num 0))
  end.

(** The block of [ampmMatch]: a 12-hour time today. *)
Definition ampmRule (now : Date) (lower : string) : option Date :=
  match exec 3 re_ampm lower with
  | None => None
  | Some m =>
      let hour := group 1 m in
      let min := getCap 2 m in
      let ampm := getCap 3 m in
      let h := meridiem ampm (parseInt hour) in
      let d := copy now in
      Some (setHours tza d h (parseInt (sorElse min "0")) (Num 0) (Num 0))
  end.

(** The rules in the order of the source; the first that yields a date
    returns it. *)
Fixpoint firstOf (rules : list (option Date)) : option Date :=
  match rules with
  | [] => None
  | Some d :: _ => Some d
  | None :: rest => firstOf rest
  end.

Definition parseDateTime (input : string) : outcome Date :=
  let now := newDate in
  let lower := Str.trim (Str.toLowerCase input) in
  if String.eqb lower "today" then Return now
  else if String.eqb lower "tomorrow" then
    let d := copy now in
    Return (setDate tza d (nadd (getDate tza d) (Num 1)))
  else
    match firstOf [relRule now lower; dayRule now lower; monthRule now lower;
                   dateTimeRule input; isoDateTimeRule input;
                   timeRule now input; ampmRule now lower] with
    | Some d => Return d
    | None =>
        let parsed := mkDate (DateParse input) in
        if negb (isInvalid parsed) then Return parsed
        else Throw (cannotParse input)
    end.

End Clock.

(* ===================================================================== *)
(** ** Date.prototype.toISOString *)

Definition decimalString (z : Z) : string := numberToString (Num z).

Fixpoint zeros (n : nat) : string :=
  match n with
  | O => EmptyString
  | S n' => String "0" (zeros n')
  end.

(** [String(z).padStart(width, '0')] *)
Definition padStart0 (width : nat) (z : Z) : string :=
  let t := decimalString z in
  zeros (width - length t) ++ t.

Definition isoYear (y : Z) : string :=
  if (0 <=? y) && (y <=? 9999) then padStart0 4 y
  else if y <? 0 then "-" ++ padStart0 6 (- y)
  else "+" ++ padStart0 6 y.

(** What a call inside a [try] comes to: its value, or the message of the
    error it throws. *)
Inductive attempt (A : Type) : Type :=
| Done (a : A)
| Thrown (message : string).

Arguments Done {A} a.
Arguments Thrown {A} message.

(** [d.toISOString()]: a RangeError on an invalid date. *)
Definition toISOString (d : Date) : attempt string :=
  match timeValue d with
  | NaN => Thrown "Invalid time value"
  | Num t =>
      Done (isoYear (YearFromTime t) ++ "-" ++ padStart0 2 (MonthFromTime t + 1)
              ++ "-" ++ padStart0 2 (DateFromTime t)
              ++ "T" ++ padStart0 2 (HourFromTime t)
              ++ ":" ++ padStart0 2 (MinFromTime t)
              ++ ":" ++ padStart0 2 (SecFromTime t)
              ++ "." ++ padStart0 3 (msFromTime t) ++ "Z")
  end.

(* ===================================================================== *)
(** ** importIcsFile (gcal.js) *)

Definition bind {A B : Type} (x : attempt A) (f : A -> attempt B) : attempt B :=
  match x with
  | Done a => f a
  | Thrown msg => Thrown msg
  end.

Notation "'do' x <- e ; f" := (bind e (fun x => f))
  (at level 10, x name, e at level 100, f at level 200).

(** What the interchange parser (ical.js) hands to the mapper. *)
Module ICAL.

(** [ICAL.Time]: [isDate], [toJSDate()] and [zone?.tzid]. *)
Record Time : Type := mkTime {
  isDate : bool;
  toJSDate : Date;
  tzid : option string
}.

(** A property value: a string, some other object (by its [toString()]),
    or nothing. *)
Inductive value : Type :=
| VString (s : string)
| VObject (toString : string)
| VUndefined.

(** The result of [getParameter]: absent, single, or multi-valued. *)
Inductive parameter : Type :=
| PAbsent
| PString (s : string)
| PArray (l : list string).

(** An attendee property: [getFirstValue()] and [getParameter('cn')]. *)
Record Property : Type := mkProperty {
  getFirstValue : value;
  cn : parameter
}.

(** A vevent component together with the [ICAL.Event] built on it.
    [construction] is the message of the error [new Event(vevent)] throws,
    if it throws; [rrule] is the recurrence rule by its [toString()]. *)
Record Component : Type := mkComponent {
  construction : option string;
  summary : option string;
  description : option string;
  location : option string;
  startDate : option Time;
  endDate : option Time;
  attendee : list Property;
  rrule : option string
}.

End ICAL.

(** The event as sent to the calendar service. *)
Record EventDateTime : Type := mkEventDateTime {
  date : option string;
  dateTime : option string;
  timeZone : option string
}.

Record EventAttendee : Type := mkEventAttendee {
  email : string;
  displayName : option string
}.

Record GoogleEvent : Type := mkGoogleEvent {
  ev_summary : string;
  ev_description : option string;
  ev_location : option string;
  ev_start : EventDateTime;
  ev_end : EventDateTime;
  ev_attendees : option (list EventAttendee);
  ev_recurrence : option (list string)
}.

Definition emptyDateTime : EventDateTime := mkEventDateTime None None None.

Record ImportResult : Type := mkImportResult {
  imported : Z;
  errors : list string
}.

(** A line on the console. *)
Inductive line : Type :=
| Out (text : string)    (* console.log *)
| Err (text : string).   (* console.error *)

(** The answer of the calendar service to a request. *)
Record Response : Type := mkResponse {
  ok : bool;
  status : Z;
  text : string;
  json : option string   (* the message of the error res.json() throws, if it throws *)
}.

(** What [fetch] comes to: a response, or the message of the error it
    throws. *)
Inductive fetched : Type :=
| Responded (res : Response)
| Failed (message : string).

Section Importer.

(** [Intl.DateTimeFormat().resolvedOptions().timeZone] *)
Variable localZone : string.

(** The calendar service: a POST of an event moves it to a new state and
    is answered, or the request itself fails. *)
Variable World : Type.
Variable post : World -> GoogleEvent -> World * fetched.

Definition createEvent (w : World) (event : GoogleEvent) : World * attempt unit :=
  match post w event with
  | (w', Responded res) =>
      if negb (ok res) then
        (w', Thrown ("Failed to create event: " ++ decimalString (status res)
                     ++ " " ++ text res))
      else
        match json res with
        | Some msg => (w', Thrown msg)
        | None => (w', Done tt)
        end
  | (w', Failed msg) => (w', Thrown msg)
  end.

(** The start or end of the event: all-day by [date], timed by [dateTime]
    and [timeZone]; untouched when the interchange side has none. *)
Definition mapTime (t : option ICAL.Time) : attempt EventDateTime :=
  match t with
  | None => Done emptyDateTime
  | Some t =>
      if ICAL.isDate t then
        do iso <- toISOString (ICAL.toJSDate t);
        Done (mkEventDateTime (Some (nth 0 (Str.split "T" iso) EmptyString)) None None)
      else
        do iso <- toISOString (ICAL.toJSDate t);
        Done (mkEventDateTime None (Some iso)
                (Some (sorElse (ICAL.tzid t) localZone)))
  end.

Definition mapAttendee (att : ICAL.Property) : EventAttendee :=
  let emailValue := ICAL.getFirstValue att in
  let email :=
    match emailValue with
    | ICAL.VString s => Str.replace "mailto:" "" s
    | ICAL.VObject t => sorElse (Some t) ""
    | ICAL.VUndefined => ""
    end in
  let cn := ICAL.cn att in
  let displayName :=
    match cn with
    | ICAL.PArray l => nth_error l 0
    | ICAL.PString s => Some s
    | ICAL.PAbsent => None
    end in
  mkEventAttendee email (sorUndefined displayName).

(** The body of the per-record [try] up to the call of the service. *)
Definition mapRecord (vevent : ICAL.Component) : attempt GoogleEvent :=
  do _ <- match ICAL.construction vevent with
          | Some msg => Thrown msg
          | None => Done tt
          end;
  do start <- mapTime (ICAL.startDate vevent);
  do end_ <- mapTime (ICAL.endDate vevent);
  let attendees := ICAL.attendee vevent in
  Done (mkGoogleEvent
            (sorElse (ICAL.summary vevent) "Untitled Event")
            (sorUndefined (ICAL.description vevent))
            (sorUndefined (ICAL.location vevent))
            start end_
            (if (0 <? Z.of_nat (List.length attendees))
             then Some (List.map mapAttendee attendees) else None)
            (match ICAL.rrule vevent with
             | Some r => Some ["RRULE:" ++ r]
             | None => None
             end)).

Record ImportState : Type := mkImportState {
  world : World;
  console : list line;
  result : ImportResult
}.

(** The [catch] of the per-record [try]. *)
Definition recordFailure (vevent : ICAL.Component) (message : string)
    (st : ImportState) : ImportState :=
  let summary := sorElse (ICAL.summary vevent) "unknown" in
  mkImportState (world st)
    (console st ++ [Err ("  ! Failed: " ++ summary)])
    (mkImportResult (imported (result st))
       (errors (result st) ++ [summary ++ ": " ++ message])).

(** One turn of the loop over the vevents. *)
Definition importOne (st : ImportState) (vevent : ICAL.Component) : ImportState :=
  match mapRecord vevent with
  | Done googleEvent =>
      match createEvent (world st) googleEvent with
      | (w', Done _) =>
          mkImportState w'
            (console st ++ [Out ("  + " ++ ev_summary googleEvent)])
            (mkImportResult (imported (result st) + 1) (errors (result st)))
      | (w', Thrown msg) =>
          recordFailure vevent msg (mkImportState w' (console st) (result st))
      end
  | Thrown msg => recordFailure vevent msg st
  end.

Definition importLoop (st : ImportState) (vevents : list ICAL.Component) : ImportState :=
  fold_left importOne vevents st.

(** [importIcsFile], given what parsing the file content yields. *)
Definition importIcsFile (w : World) (parsed : attempt (list ICAL.Component))
  : ImportState :=
  let st := mkImportState w [] (mkImportResult 0 []) in
  match parsed with
  | Done vevents =>
      importLoop
        (mkImportState w
           [Out ("Found " ++ decimalString (Z.of_nat (List.length vevents))
                 ++ " event(s)" ++ ofCodes [10])]
           (result st))
        vevents
  | Thrown msg =>
      mkImportState w [] (mkImportResult 0 ["Parse error: " ++ msg])
  end.

End Importer.

(* ===================================================================== *)
(** ** What a match is: the declarative reading of the patterns *)

Fixpoint allChars (p : ascii -> bool) (s : string) : bool :=
  match s with
  | EmptyString => true
  | String a s' => p a && allChars p s'
  end.

(** [Matches n r pre rest c c']: on an input of length [n], the pattern
    [r] can consume [pre] in front of [rest], turning the captures [c]
    into [c']. *)
Inductive Matches (n : nat) : regex -> string -> string -> captures -> captures -> Prop :=
| M_Eps rest c : Matches n Eps "" rest c c
| M_Bos rest c : length rest = n -> Matches n Bos "" rest c c
| M_Eos c : Matches n Eos "" "" c c
| M_Cls p a rest c : p a = true -> Matches n (Cls p) (String a "") rest c c
| M_Cat r1 r2 p1 p2 rest c c1 c2 :
    Matches n r1 p1 (p2 ++ rest) c c1 ->
    Matches n r2 p2 rest c1 c2 ->
    Matches n (Cat r1 r2) (p1 ++ p2) rest c c2
| M_AltL r1 r2 pre rest c c' :
    Matches n r1 pre rest c c' -> Matches n (Alt r1 r2) pre rest c c'
| M_AltR r1 r2 pre rest c c' :
    Matches n r2 pre rest c c' -> Matches n (Alt r1 r2) pre rest c c'
| M_OptSome r pre rest c c' :
    Matches n r pre rest c c' -> Matches n (Opt r) pre rest c c'
| M_OptNone r rest c : Matches n (Opt r) "" rest c c
| M_Star p pre rest c :
    allChars p pre = true -> Matches n (Star p) pre rest c c
| M_Grp i r pre rest c c' :
    Matches n r pre rest c c' ->
    Matches n (Grp i r) pre rest c (setCap i pre c').

(** The text [txt] belongs to the language of [r]. *)
Definition InLang (n : nat) (r : regex) (txt : string) : Prop :=
  exists rest c c', Matches n r txt rest c c'.

(** The capturing groups of a pattern, with their bodies. *)
Fixpoint groupsOf (r : regex) : list (nat * regex) :=
  match r with
  | Grp i r1 => (i, r1) :: groupsOf r1
  | Cat r1 r2 | Alt r1 r2 => groupsOf r1 ++ groupsOf r2
  | Opt r1 => groupsOf r1
  | _ => []
  end.

(** Group [i] takes part in every match of [r]. *)
Fixpoint mustSet (i : nat) (r : regex) : bool :=
  match r with
  | Grp j r1 => Nat.eqb i j || mustSet i r1
  | Cat r1 r2 => mustSet i r1 || mustSet i r2
  | Alt r1 r2 => mustSet i r1 && mustSet i r2
  | _ => false
  end.

(** The value of a string of decimal digits. *)
Fixpoint decValueFrom (acc : Z) (s : string) : Z :=
  match s with
  | EmptyString => acc
  | String a s' => decValueFrom (acc * 10 + (Chars.code a - 48)) s'
  end.

Definition decValue (s : string) : Z := decValueFrom 0 s.

(** [s] does not start with a code unit of the class [p]. *)
Definition headNot (p : ascii -> bool) (s : string) : Prop :=
  match s with
  | EmptyString => True
  | String a _ => p a = false
  end.

(** The shape of [re_reminder] and [re_timeLimit]: [^(\d+)\s*([...]?)$]. *)
Definition re_amount (p : ascii -> bool) : regex :=
  seq [Bos; Grp 1 digits1; spaces0; Grp 2 (Opt (Cls p)); Eos].

(** An optional unit letter of the class [p]. *)
Definition unitText (p : ascii -> bool) (u : string) : Prop :=
  u = "" \/ exists a, u = String a "" /\ p a = true.

(** The texts of the grammar [<digits> <spaces> <unit>?]. *)
Definition amountText (p : ascii -> bool) (ds ws u : string) : Prop :=
  allChars Chars.isDigit ds = true /\ ds <> "" /\
  allChars Chars.isSpace ws = true /\ unitText p u.

(** A unit class is a class of letters: no digit and no white space. *)
Definition letterClass (p : ascii -> bool) : Prop :=
  forall a, p a = true -> Chars.isDigit a = false /\ Chars.isSpace a = false.

(** ** The statements' vocabulary for amounts and units *)

(** The unit classes of the two grammars, [[dwmy]] and [[mhd]] under the
    [i] flag. *)
Definition limitUnit : ascii -> bool := Chars.oneOf true "dwmy".
Definition reminderUnit : ascii -> bool := Chars.oneOf true "mhd".

Inductive timeUnit : Type := Days | Weeks | Months | Years.

(** The unit a time limit names; a missing letter means months. *)
Definition limitUnitOf (u : string) : option timeUnit :=
  if String.eqb u "d" || String.eqb u "D" then Some Days
  else if String.eqb u "w" || String.eqb u "W" then Some Weeks
  else if String.eqb u "y" || String.eqb u "Y" then Some Years
  else if String.eqb u "m" || String.eqb u "M" || String.eqb u "" then Some Months
  else None.

(** The number of days of month [m] (0..11) in a year that is leap or not. *)
Definition DaysInMonth (leap m : Z) : Z :=
  if m =? 1 then 28 + leap
  else if (m =? 3) || (m =? 5) || (m =? 8) || (m =? 10) then 30
  else 31.

(** The local reading [x'] shows day [dt] of month [m] (0..11) of year [y]
    at the time of day [tod], where a day that the month does not have is
    carried into the following month by the days the month falls short. *)
Definition calendarCarry (y m dt tod x' : Z) : Prop :=
  let len := DaysInMonth (InLeapYearOf y) m in
  TimeWithinDay x' = tod /\
  YearFromTime x' = y /\
  (dt <= len -> MonthFromTime x' = m /\ DateFromTime x' = dt) /\
  (len < dt -> MonthFromTime x' = m + 1 /\ DateFromTime x' = dt - len).

(** The local reading [x'] lies [n] units after the local reading [x] on
    the calendar: the same time of day [n] or [7 n] days later; or the
    same day of the month and time of day [n] months or [n] years later,
    the months counted on into later years and the day carried over where
    the month is shorter. *)
Definition advanced (k : timeUnit) (n x x' : Z) : Prop :=
  match k with
  | Days => x' = x + n * msPerDay
  | Weeks => x' = x + 7 * n * msPerDay
  | Months =>
      calendarCarry (YearFromTime x + (MonthFromTime x + n) / 12)
        ((MonthFromTime x + n) mod 12) (DateFromTime x) (TimeWithinDay x) x'
  | Years =>
      calendarCarry (YearFromTime x + n) (MonthFromTime x) (DateFromTime x)
        (TimeWithinDay x) x'
  end.

(** The number of minutes a reminder unit stands for; a missing letter
    means minutes. *)
Definition reminderFactor (u : string) : option Z :=
  if String.eqb u "h" || String.eqb u "H" then Some 60
  else if String.eqb u "d" || String.eqb u "D" then Some 1440
  else if String.eqb u "m" || String.eqb u "M" || String.eqb u "" then Some 1
  else None.

(** The texts the grammars of [parseTimeLimit] and [parseReminder] accept. *)
Definition TimeLimitText (s : string) : Prop :=
  exists ds ws u, s = ds ++ ws ++ u /\ amountText limitUnit ds ws u.

Definition noColon (s : string) : bool :=
  allChars (fun c => negb (Ascii.eqb c ":")) s.

(** ** The statements' vocabulary for the import mapper *)

(** The two forms of a start or end: all-day and timed. *)
Definition allDay (t : EventDateTime) : Prop :=
  date t <> None /\ dateTime t = None /\ timeZone t = None.

Definition timed (t : EventDateTime) : Prop :=
  date t = None /\ dateTime t <> None /\ timeZone t <> None.

Definition sameForm (e : GoogleEvent) : Prop :=
  (allDay (ev_start e) /\ allDay (ev_end e)) \/
  (timed (ev_start e) /\ timed (ev_end e)).

(** [s] without a leading [pre]. *)
Definition stripPrefix (pre s : string) : string :=
  if Str.startsWith pre s then Str.drop (length pre) s else s.

Fixpoint contains (pat s : string) : bool :=
  Str.startsWith pat s ||
  match s with
  | EmptyString => false
  | String _ s' => contains pat s'
  end.

(** The common-name parameter: its value, the first one when there are
    several. *)
Definition cnOf (p : ICAL.parameter) : option string :=
  match p with
  | ICAL.PAbsent => None
  | ICAL.PString s => Some s
  | ICAL.PArray l => nth_error l 0
  end.

(** The label under which a failing record is reported. *)
Definition failureLabel (v : ICAL.Component) : string :=
  match ICAL.summary v with
  | None => "unknown"
  | Some s => if String.eqb s "" then "unknown" else s
  end.

Section Batches.

Variable localZone : string.
Variable World : Type.
Variable post : World -> GoogleEvent -> World * fetched.

(** [Created w vs w' es]: from the state [w] of the service, every record
    of [vs] maps and is created in turn, the events being [es] and the
    service ending in [w']. *)
Inductive Created : World -> list ICAL.Component -> World -> list GoogleEvent -> Prop :=
| Created_nil w : Created w [] w []
| Created_cons w v vs w1 w2 e es :
    mapRecord localZone v = Done e ->
    createEvent World post w e = (w1, Done tt) ->
    Created w1 vs w2 es ->
    Created w (v :: vs) w2 (e :: es).

(** [FailsWith w v w' msg]: in the state [w], the record [v] fails to map,
    or maps and fails the create call, with the message [msg]. *)
Definition FailsWith (w : World) (v : ICAL.Component) (w' : World) (msg : string) : Prop :=
  (mapRecord localZone v = Thrown msg /\ w' = w) \/
  (exists e, mapRecord localZone v = Done e /\
             createEvent World post w e = (w', Thrown msg)).

End Batches.

(** ** The statements' vocabulary for parseDateTime *)

(** Every offset of the zone is within a day of UTC, and any two of its
    offsets differ by whole minutes; the clock reads a time from 1970 to
    the end of year 9999. *)
Definition zoneOK (tza : zone) : Prop :=
  (forall t b, - msPerDay <= tza t b <= msPerDay) /\
  (forall t b t' b', (tza t b - tza t' b') mod msPerMinute = 0).
Definition clockOK (clock : Z) : Prop := 0 <= clock < 253402300800000.

(** A zone without transitions: one offset at all times. *)
Definition fixedZone (offset : Z) : zone := fun _ _ => offset.

(** US Eastern time with the daylight-saving period of 2026: UTC-4 from
    8 March 07:00 UTC, when the local clocks go from 02:00 to 03:00, to
    1 November 06:00 UTC, when they go from 02:00 back to 01:00, and UTC-5
    outside it. *)
Definition eastern : zone := fun t isUTC =>
  let est := -5 * msPerHour in
  let edt := -4 * msPerHour in
  let start := 1772953200000 in
  let stop := 1793512800000 in
  if isUTC then (if (start <=? t) && (t <? stop) then edt else est)
  else (if (start + edt <=? t) && (t <? stop + edt) then edt else est).

(** The date of the local reading [x]: the instant at which the zone shows
    it, or the invalid date past the range of [Date]. *)
Definition atLocal (tza : zone) (x : Z) : Date := mkDate (TimeClip (UTC tza x)).

(** The local reading [x] occurs in the zone: the instant the zone gives
    for it shows [x] again.  A reading that a forward transition skips
    does not occur. *)
Definition occurs (tza : zone) (x : Z) : Prop := LocalTime tza (UTC tza x) = x.

(** The instant the zone gives for the local reading [x] lies on the
    local day of [x]; so it does for every reading that occurs, and for a
    skipped one unless the skipped time reaches past midnight. *)
Definition keepsDay (tza : zone) (x : Z) : Prop :=
  Day (LocalTime tza (UTC tza x)) = Day x.

(** The date at [h] hours and [m] minutes after local midnight of day [D]. *)
Definition stamp (tza : zone) (D h m : Z) : Date :=
  mkDate (Num (UTC tza (MakeDate D (MakeTime h m 0 0)))).

(** The local reading of that date. *)
Definition reading (D h m : Z) : Z := MakeDate D (MakeTime h m 0 0).

(** The 12-hour conversion rule in the words of the specification. *)
Definition hour12 (H : Z) (mer : option string) : Z :=
  if optEq mer "pm" && (H <? 12) then H + 12
  else if optEq mer "am" && (H =? 12) then 0
  else H.

(** The minutes of a match; 0 when the minutes are left out. *)
Definition minuteOf (mm : option string) : Z :=
  match mm with
  | Some t => decValue t
  | None => 0
  end.



(** Some explicit rule of the grammar matches the input. *)
Definition ruleMatches (input : string) : Prop :=
  let lower := Str.trim (Str.toLowerCase input) in
  exec 4 re_rel lower <> None \/ exec 5 re_day lower <> None \/
  exec 6 re_month lower <> None \/ exec 5 re_dateTime input <> None \/
  exec 5 re_isoDateTime input <> None \/ exec 2 re_timeOnly input <> None \/
  exec 3 re_ampm lower <> None.

(** The input is one of the two bare literals. *)
Definition bareLiteral (input : string) : Prop :=
  let lower := Str.trim (Str.toLowerCase input) in
  lower = "today" \/ lower = "tomorrow".

(** What a rule comes to, given the outcome [e] of its pattern: nothing
    without a match, a date on the minute with one. *)
Definition fired (tza : zone) (e : option captures) (r : option Date) : Prop :=
  match e with
  | None => r = None
  | Some _ => exists D h mi, r = Some (stamp tza D h mi)
  end.

(** ** The calendar in the words of ECMAScript *)

(** The years a day lies into its 400-year cycle. *)
Definition yearInCycle (r : Z) : Z :=
  let q100 := Z.min (r / 36524) 3 in
  let r100 := r - q100 * 36524 in
  let q4 := r100 / 1461 in
  let r4 := r100 mod 1461 in
  let q1 := Z.min (r4 / 365) 3 in
  100 * q100 + 4 * q4 + q1.

(** Day [r] of the cycle lies in the year [YearFromDay] gives it. *)
Definition cycleOK (r : Z) : bool :=
  (DayFromYear (yearInCycle r + 1) + 719162 <=? r) &&
  (r <? DayFromYear (yearInCycle r + 2) + 719162).

Fixpoint checkFrom (fuel : nat) (r : Z) (P : Z -> bool) : bool :=
  match fuel with
  | O => true
  | S fuel' => if P r then checkFrom fuel' (r + 1) P else false
  end.

(** ** Records and ranges of the examples and proofs *)

(** A record whose start is a date and whose end is a timestamp. *)
Definition mixedRecord : ICAL.Component :=
  ICAL.mkComponent None (Some "Flight") None None
    (Some (ICAL.mkTime true (mkDate (Num 1793491200000)) None))
    (Some (ICAL.mkTime false (mkDate (Num 1793527200000)) (Some "Europe/Paris")))
    [] None.

(** An attendee whose value holds [mailto:] past its front and whose
    common name is the empty text. *)
Definition oddAttendee : ICAL.Property :=
  ICAL.mkProperty (ICAL.VString "cal:mailto:bob@example.com") (ICAL.PString "").

(** The console line of a created event. *)
Definition createdLine (e : GoogleEvent) : line := Out ("  + " ++ ev_summary e).

(** A calendar service for the examples: it keeps the events it accepts and
    refuses the ones titled [Blocked]. *)
Definition demoPost (w : list GoogleEvent) (e : GoogleEvent) : list GoogleEvent * fetched :=
  if String.eqb (ev_summary e) "Blocked"
  then (w, Responded (mkResponse false 403 "Forbidden" None))
  else ((w ++ [e])%list, Responded (mkResponse true 200 "{}" None)).

Definition plainRecord (title : string) : ICAL.Component :=
  ICAL.mkComponent None (Some title) None None None None [] None.

Definition plainEvent (title : string) : GoogleEvent :=
  mkGoogleEvent title None None emptyDateTime emptyDateTime None None.

(** A record whose start is an invalid date: mapping it throws. *)
Definition brokenRecord : ICAL.Component :=
  ICAL.mkComponent None (Some "Broken") None None
    (Some (ICAL.mkTime false invalidDate None)) None [] None.

(** Local times far inside the range of [TimeClip]. *)
Definition nearby (t : Z) : Prop :=
  -1000000 * msPerDay <= t <= 4000000 * msPerDay.

(** The local reading that the setter of a unit makes of the reading [x]:
    [setDate] of the day of the month plus [n] or [7 n], [setMonth] of the
    month plus [n], [setFullYear] of the year plus [n]. *)
Definition moved (k : timeUnit) (n x : Z) : Z :=
  match k with
  | Days => x + n * msPerDay
  | Weeks => x + n * 7 * msPerDay
  | Months =>
      MakeDate (MakeDay (YearFromTime x) (MonthFromTime x + n) (DateFromTime x))
        (TimeWithinDay x)
  | Years =>
      MakeDate (MakeDay (YearFromTime x + n) (MonthFromTime x) (DateFromTime x))
        (TimeWithinDay x)
  end.

(* ===================================================================== *)
(** ** More of the string library *)

(** [s.split(/[...]/)] for a class of single code units: the pieces
    between its members, never an empty list. *)
Fixpoint splitClass (p : ascii -> bool) (s : string) : list string :=
  match s with
  | EmptyString => [EmptyString]
  | String c s' =>
      if p c then EmptyString :: splitClass p s'
      else match splitClass p s' with
           | t :: ts => String c t :: ts
           | [] => [String c EmptyString]
           end
  end.

(** [s.replace(/[...]/g, '')] for a class of single code units. *)
Fixpoint removeClass (p : ascii -> bool) (s : string) : string :=
  match s with
  | EmptyString => EmptyString
  | String c s' => if p c then removeClass p s' else String c (removeClass p s')
  end.

(** [s.endsWith(suffix)] *)
Definition endsWith (suffix s : string) : bool :=
  (length suffix <=? length s)%nat &&
  String.eqb (Str.drop (length s - length suffix) s) suffix.

(** [l.join(sep)] *)
Fixpoint join (sep : string) (l : list string) : string :=
  match l with
  | [] => EmptyString
  | [x] => x
  | x :: rest => x ++ sep ++ join sep rest
  end.

(** [s.padStart(width, '0')] *)
Definition padStart (width : nat) (s : string) : string :=
  zeros (width - length s) ++ s.

(* ===================================================================== *)
(** ** normalizeUser (glib/gutils.js) *)

Definition normalizeUser (user : string) : string :=
  removeClass (Chars.chr false ".")
    (nth 0 (splitClass (Chars.oneOf false "+@") (Str.toLowerCase user)) EmptyString).

(* ===================================================================== *)
(** ** formatDateTime (glib/gutils.js) *)

Section Formatting.

Variable tza : zone.
Variable DateParse : string -> number.

(** [String(n).padStart(2, '0')] *)
Definition pad2 (n : number) : string := padStart 2 (numberToString n).

Definition formatDateTime (dt : EventDateTime) : string :=
  match sorUndefined (date dt) with
  | Some text => text
  | None =>
      match sorUndefined (dateTime dt) with
      | Some text =>
          let d := mkDate (DateParse text) in
          let yyyy := getFullYear tza d in
          let mm := pad2 (nadd (getMonth tza d) (Num 1)) in
          let dd := pad2 (getDate tza d) in
          let hh := pad2 (getHours tza d) in
          let min := pad2 (getMinutes tza d) in
          numberToString yyyy ++ "-" ++ mm ++ "-" ++ dd ++ " " ++ hh ++ ":" ++ min
      | None => "(no time)"
      end
  end.

End Formatting.

(* ===================================================================== *)
(** ** parseArgs (gcal.js) *)

Module Cli.

Record ParsedArgs : Type := mkParsedArgs {
  command : string;
  args : list string;
  user : string;
  defaultUser : string;
  calendar : string;
  count : number;
  help : bool;
  verbose : bool;
  icsFile : string;
  birthdays : bool;
  reminders : list Reminder;
  noReminders : bool;
  timeLimit : string;
  title : string;
  location : string;
  startTime : string;
  duration : string
}.

Definition initial : ParsedArgs :=
  mkParsedArgs "" [] "" "" "primary" (Num 10) false false "" false [] false
    "3m" "" "" "" "".

Definition setCommand v r :=
  mkParsedArgs v (args r) (user r) (defaultUser r) (calendar r) (count r)
    (help r) (verbose r) (icsFile r) (birthdays r) (reminders r) (noReminders r)
    (timeLimit r) (title r) (location r) (startTime r) (duration r).
Definition setArgs v r :=
  mkParsedArgs (command r) v (user r) (defaultUser r) (calendar r) (count r)
    (help r) (verbose r) (icsFile r) (birthdays r) (reminders r) (noReminders r)
    (timeLimit r) (title r) (location r) (startTime r) (duration r).
Definition setUser v r :=
  mkParsedArgs (command r) (args r) v (defaultUser r) (calendar r) (count r)
    (help r) (verbose r) (icsFile r) (birthdays r) (reminders r) (noReminders r)
    (timeLimit r) (title r) (location r) (startTime r) (duration r).
Definition setDefaultUser v r :=
  mkParsedArgs (command r) (args r) (user r) v (calendar r) (count r)
    (help r) (verbose r) (icsFile r) (birthdays r) (reminders r) (noReminders r)
    (timeLimit r) (title r) (location r) (startTime r) (duration r).
Definition setCalendar v r :=
  mkParsedArgs (command r) (args r) (user r) (defaultUser r) v (count r)
    (help r) (verbose r) (icsFile r) (birthdays r) (reminders r) (noReminders r)
    (timeLimit r) (title r) (location r) (startTime r) (duration r).
Definition setCount v r :=
  mkParsedArgs (command r) (args r) (user r) (defaultUser r) (calendar r) v
    (help r) (verbose r) (icsFile r) (birthdays r) (reminders r) (noReminders r)
    (timeLimit r) (title r) (location r) (startTime r) (duration r).
Definition setHelp v r :=
  mkParsedArgs (command r) (args r) (user r) (defaultUser r) (calendar r) (count r)
    v (verbose r) (icsFile r) (birthdays r) (reminders r) (noReminders r)
    (timeLimit r) (title r) (location r) (startTime r) (duration r).
Definition setVerbose v r :=
  mkParsedArgs (command r) (args r) (user r) (defaultUser r) (calendar r) (count r)
    (help r) v (icsFile r) (birthdays r) (reminders r) (noReminders r)
    (timeLimit r) (title r) (location r) (startTime r) (duration r).
Definition setIcsFile v r :=
  mkParsedArgs (command r) (args r) (user r) (defaultUser r) (calendar r) (count r)
    (help r) (verbose r) v (birthdays r) (reminders r) (noReminders r)
    (timeLimit r) (title r) (location r) (startTime r) (duration r).
Definition setBirthdays v r :=
  mkParsedArgs (command r) (args r) (user r) (defaultUser r) (calendar r) (count r)
    (help r) (verbose r) (icsFile r) v (reminders r) (noReminders r)
    (timeLimit r) (title r) (location r) (startTime r) (duration r).
Definition setReminders v r :=
  mkParsedArgs (command r) (args r) (user r) (defaultUser r) (calendar r) (count r)
    (help r) (verbose r) (icsFile r) (birthdays r) v (noReminders r)
    (timeLimit r) (title r) (location r) (startTime r) (duration r).
Definition setNoReminders v r :=
  mkParsedArgs (command r) (args r) (user r) (defaultUser r) (calendar r) (count r)
    (help r) (verbose r) (icsFile r) (birthdays r) (reminders r) v
    (timeLimit r) (title r) (location r) (startTime r) (duration r).
Definition setTimeLimit v r :=
  mkParsedArgs (command r) (args r) (user r) (defaultUser r) (calendar r) (count r)
    (help r) (verbose r) (icsFile r) (birthdays r) (reminders r) (noReminders r)
    v (title r) (location r) (startTime r) (duration r).
Definition setTitle v r :=
  mkParsedArgs (command r) (args r) (user r) (defaultUser r) (calendar r) (count r)
    (help r) (verbose r) (icsFile r) (birthdays r) (reminders r) (noReminders r)
    (timeLimit r) v (location r) (startTime r) (duration r).
Definition setLocation v r :=
  mkParsedArgs (command r) (args r) (user r) (defaultUser r) (calendar r) (count r)
    (help r) (verbose r) (icsFile r) (birthdays r) (reminders r) (noReminders r)
    (timeLimit r) (title r) v (startTime r) (duration r).
Definition setStartTime v r :=
  mkParsedArgs (command r) (args r) (user r) (defaultUser r) (calendar r) (count r)
    (help r) (verbose r) (icsFile r) (birthdays r) (reminders r) (noReminders r)
    (timeLimit r) (title r) (location r) v (duration r).
Definition setDuration v r :=
  mkParsedArgs (command r) (args r) (user r) (defaultUser r) (calendar r) (count r)
    (help r) (verbose r) (icsFile r) (birthdays r) (reminders r) (noReminders r)
    (timeLimit r) (title r) (location r) (startTime r) v.

End Cli.

(** [arg] is one of the labels of a [case] group. *)
Definition isCase (arg : string) (labels : list string) : bool :=
  existsb (String.eqb arg) labels.

(** The loop over the parts of a [-r] value: each part is parsed and
    pushed; an invalid part ends the process inside [parseReminder]. *)
Fixpoint pushReminders (parts : list string) (reminders : list Reminder)
  : outcome (list Reminder) :=
  match parts with
  | [] => Return reminders
  | part :: rest =>
      match parseReminder (Str.trim part) with
      | Return reminder => pushReminders rest (reminders ++ [reminder])%list
      | Exit st msg => Exit st msg
      | Throw msg => Throw msg
      end
  end.

(** One turn of the [while] loop of [parseArgs]: the [switch] on [arg],
    with [next] for [argv[i + 1]].  The boolean tells whether the turn
    took [argv[++i]]. *)
Definition parseArg (arg : string) (next : option string)
    (result : Cli.ParsedArgs) (unknown : list string)
  : outcome (Cli.ParsedArgs * list string * bool) :=
  if isCase arg ["-u"; "-user"; "--user"] then
    Return (Cli.setUser (sorElse next "") result, unknown, true)
  else if isCase arg ["-defaultUser"; "--defaultUser"] then
    Return (Cli.setDefaultUser (sorElse next "") result, unknown, true)
  else if isCase arg ["-c"; "-calendar"; "--calendar"] then
    Return (Cli.setCalendar (sorElse next "primary") result, unknown, true)
  else if isCase arg ["-n"] then
    let n := match next with Some v => parseInt v | None => NaN end in
    Return (Cli.setCount (norElse n (Num 10)) result, unknown, true)
  else if isCase arg ["-v"; "-verbose"; "--verbose"] then
    Return (Cli.setVerbose true result, unknown, false)
  else if isCase arg ["-b"; "-birthdays"; "--birthdays"] then
    Return (Cli.setBirthdays true result, unknown, false)
  else if isCase arg ["-limit"; "--limit"] then
    Return (Cli.setTimeLimit (sorElse next "3m") result, unknown, true)
  else if isCase arg ["-title"; "--title"] then
    Return (Cli.setTitle (sorElse next "") result, unknown, true)
  else if isCase arg ["-loc"; "-location"; "--location"] then
    Return (Cli.setLocation (sorElse next "") result, unknown, true)
  else if isCase arg ["-start"; "--start"] then
    Return (Cli.setStartTime (sorElse next "") result, unknown, true)
  else if isCase arg ["-dur"; "-duration"; "--duration"] then
    Return (Cli.setDuration (sorElse next "") result, unknown, true)
  else if isCase arg ["-r"; "-reminder"; "--reminder"] then
    let rval := sorElse next "" in
    if String.eqb rval "0" || String.eqb rval "none" then
      Return (Cli.setNoReminders true result, unknown, true)
    else
      match pushReminders (Str.split "," rval) (Cli.reminders result) with
      | Return reminders => Return (Cli.setReminders reminders result, unknown, true)
      | Exit st msg => Exit st msg
      | Throw msg => Throw msg
      end
  else if isCase arg ["-h"; "-help"; "--help"; "help"] then
    Return (Cli.setHelp true result, unknown, false)
  else if Str.startsWith "-" arg then
    Return (result, (unknown ++ [arg])%list, false)
  else if String.eqb (Cli.command result) "" then
    if endsWith ".ics" (Str.toLowerCase arg) then
      Return (Cli.setCommand "import" (Cli.setIcsFile arg result), unknown, false)
    else
      Return (Cli.setCommand arg result, unknown, false)
  else
    Return (Cli.setArgs (Cli.args result ++ [arg])%list result, unknown, false).

(** The [while] loop of [parseArgs] over what is left of [argv]. *)
Fixpoint parseLoop (argv : list string) (result : Cli.ParsedArgs)
    (unknown : list string) : outcome (Cli.ParsedArgs * list string) :=
  match argv with
  | [] => Return (result, unknown)
  | arg :: rest =>
      match rest with
      | [] =>
          match parseArg arg None result unknown with
          | Return (result', unknown', _) => Return (result', unknown')
          | Exit st msg => Exit st msg
          | Throw msg => Throw msg
          end
      | next :: rest' =>
          match parseArg arg (Some next) result unknown with
          | Return (result', unknown', took) =>
              if took then parseLoop rest' result' unknown'
              else parseLoop rest result' unknown'
          | Exit st msg => Exit st msg
          | Throw msg => Throw msg
          end
      end
  end.

(** The message of the usage error; the usage text itself goes to the
    standard output. *)
Definition unknownOptions (unknown : list string) : string :=
  "Unknown options: " ++ join ", " unknown ++ ofCodes [10].

Definition parseArgs (argv : list string) : outcome Cli.ParsedArgs :=
  match parseLoop argv Cli.initial [] with
  | Return (result, unknown) =>
      if (0 <? Z.of_nat (List.length unknown))
      then Exit 1 (unknownOptions unknown)
      else Return result
  | Exit st msg => Exit st msg
  | Throw msg => Throw msg
  end.

(* ===================================================================== *)
(** ** The table of the [list] command (gcal.js, main) *)

(** [c.repeat(n)] for a one-unit string. *)
Fixpoint repeatChar (c : ascii) (n : nat) : string :=
  match n with
  | O => EmptyString
  | S n' => String c (repeatChar c n')
  end.

(** [s.padEnd(width)] *)
Definition padEnd (width : nat) (s : string) : string :=
  s ++ repeatChar " " (width - length s).

(** [l.map((x, i) => f(x, i))], the indices counted from [i]. *)
Fixpoint mapFrom {A B : Type} (i : nat) (f : A -> nat -> B) (l : list A) : list B :=
  match l with
  | [] => []
  | x :: l' => f x i :: mapFrom (S i) f l'
  end.

Section Table.

Variable headers : list string.
Variable rows : list (list string).

(** [Math.max(h.length, ...rows.map(r => (r[i] || '').length))] for each
    header. *)
Definition colWidths : list nat :=
  mapFrom 0
    (fun h i =>
       fold_left Nat.max
         (List.map (fun r => length (sorElse (nth_error r i) "")) rows)
         (length h))
    headers.

(** [colWidths[i]] as [padEnd] takes it: no width where there is no
    column. *)
Definition widthAt (i : nat) : nat := nth i colWidths O.

Definition headerLine : string :=
  join " " (mapFrom 0 (fun h i => padEnd (widthAt i) h) headers).

Definition ruleLine : string :=
  join " " (List.map (fun w => repeatChar "-" w) colWidths).

(** The line of a row: the last cell is not padded. *)
Definition rowLine (row : list string) : string :=
  let lastIdx := Z.of_nat (List.length row) - 1 in
  join " "
    (mapFrom 0
       (fun cell i =>
          if Z.of_nat i <? lastIdx
          then padEnd (widthAt i) (sorElse (Some cell) "")
          else sorElse (Some cell) "")
       row).

End Table.

(** The offset at which column [k] begins: the widths of the columns
    before it, and a space after each. *)
Definition columnStart (widths : list nat) (k : nat) : nat :=
  fold_right (fun w acc => (w + 1 + acc)%nat) O (firstn k widths).

(** ** The statements' vocabulary for the further properties *)

(** The texts the grammar of a reminder's time part accepts. *)
Definition ReminderText (s : string) : Prop :=
  exists ds ws u, s = ds ++ ws ++ u /\ amountText reminderUnit ds ws u.

(** A code unit of a normalized user name: none of [.], [+], [@], and
    unchanged by [toLowerCase]. *)
Definition userChar (c : ascii) : bool :=
  negb (Chars.oneOf false ".+@" c) && Ascii.eqb (Chars.toLowerChar c) c.

(** The labels of the [case] groups of [parseArgs]. *)
Definition knownOptions : list string :=
  ["-u"; "-user"; "--user"; "-defaultUser"; "--defaultUser";
   "-c"; "-calendar"; "--calendar"; "-n"; "-v"; "-verbose"; "--verbose";
   "-b"; "-birthdays"; "--birthdays"; "-limit"; "--limit"; "-title"; "--title";
   "-loc"; "-location"; "--location"; "-start"; "--start";
   "-dur"; "-duration"; "--duration"; "-r"; "-reminder"; "--reminder";
   "-h"; "-help"; "--help"; "help"].

(** An argument that is none of the labels. *)
Definition notLabel (arg : string) : Prop := isCase arg knownOptions = false.

(** What the arguments parsed so far always satisfy. *)
Definition wellFormed (r : Cli.ParsedArgs) : Prop :=
  Cli.calendar r <> "" /\ Cli.timeLimit r <> "" /\
  (exists n, Cli.count r = Num n /\ n <> 0) /\
  (Cli.icsFile r <> "" -> Cli.command r = "import") /\
  Forall (fun rm => (method rm = "popup" \/ method rm = "email") /\
                    exists n, minutes rm = Num n /\ 0 <= n)
         (Cli.reminders r).

(** A number below 100 in two decimal digits, and one below 10000 in
    four. *)
Definition twoDigits (z : Z) : string :=
  String (Chars.ofCode (48 + z / 10)) (String (Chars.ofCode (48 + z mod 10)) "").

Definition fourDigits (z : Z) : string :=
  String (Chars.ofCode (48 + z / 1000))
    (String (Chars.ofCode (48 + (z / 100) mod 10)) (twoDigits (z mod 100))).

(** The text [yyyy-mm-dd HH:mm] of a year, a month 1..12, a day, an hour
    and a minute. *)
Definition minuteText (y mo d h mi : Z) : string :=
  fourDigits y ++ "-" ++ twoDigits mo ++ "-" ++ twoDigits d ++ " "
  ++ twoDigits h ++ ":" ++ twoDigits mi.

(** The decimal texts agree with their digits on a range. *)
Definition padOK (z : Z) : bool := String.eqb (pad2 (Num z)) (twoDigits z).
Definition yearOK (z : Z) : bool := String.eqb (numberToString (Num z)) (fourDigits z).

(** The year the [Date] constructor takes a year for: 0 to 99 count from
    1900. *)
Definition fullYear (y : Z) : Z :=
  if (0 <=? y) && (y <=? 99) then 1900 + y else y.

(* ===================================================================== *)
(** * Part II: properties *)

(** ** Strings *)

Lemma append_nil_r (s : string) : s ++ "" = s.
Proof. induction s; simpl; congruence. Qed.

Lemma append_assoc (a b c : string) : (a ++ b) ++ c = a ++ (b ++ c).
Proof. induction a; simpl; congruence. Qed.

Lemma length_append (a b : string) : length (a ++ b) = (length a + length b)%nat.
Proof. induction a; simpl; congruence. Qed.

Lemma take_app_length (pre rest : string) :
  Str.take (length (pre ++ rest) - length rest) (pre ++ rest) = pre.
Proof.
  rewrite length_append.
  replace (length pre + length rest - length rest)%nat with (length pre) by lia.
  induction pre; simpl.
  - destruct rest; reflexivity.
  - congruence.
Qed.

Lemma app_same_length (a b : string) : length (a ++ b) = length b -> a = "".
Proof.
  rewrite length_append. destruct a; simpl; [reflexivity | lia].
Qed.

Lemma allChars_app (p : ascii -> bool) (a b : string) :
  allChars p (a ++ b) = allChars p a && allChars p b.
Proof.
  induction a; simpl; [reflexivity |].
  rewrite IHa. apply andb_assoc.
Qed.

(** ** The matcher against the declarative reading *)

Lemma star_sound (p : ascii -> bool) (s : string) k res :
  star p s k = Some res ->
  exists pre rest, s = pre ++ rest /\ allChars p pre = true /\ k rest = Some res.
Proof.
  induction s as [|a s IH]; simpl; intros H.
  - exists "", "". auto.
  - destruct (p a) eqn:Hp.
    + destruct (star p s k) eqn:Hs.
      * inversion H; subst.
        destruct (IH eq_refl) as (pre & rest & -> & Hall & Hk).
        exists (String a pre), rest. simpl. rewrite Hp. auto.
      * exists "", (String a s). auto.
    + exists "", (String a s). auto.
Qed.

Lemma run_sound (n : nat) (r : regex) :
  forall s c k res,
    run n r s c k = Some res ->
    exists pre rest c',
      s = pre ++ rest /\ Matches n r pre rest c c' /\ k rest c' = Some res.
Proof.
  induction r as [| | |p|r1 IH1 r2 IH2|r1 IH1 r2 IH2|r1 IH1|p|i r1 IH1];
    simpl; intros s c k res H.
  - exists "", s, c. repeat split; auto. constructor.
  - destruct (Nat.eqb (length s) n) eqn:E; [|discriminate].
    apply Nat.eqb_eq in E.
    exists "", s, c. repeat split; auto. constructor; auto.
  - destruct s; [|discriminate].
    exists "", "", c. repeat split; auto. constructor.
  - destruct s as [|a s]; [discriminate|].
    destruct (p a) eqn:Hp; [|discriminate].
    exists (String a ""), s, c. repeat split; auto. constructor; auto.
  - apply IH1 in H. destruct H as (p1 & rest1 & c1 & -> & M1 & H).
    apply IH2 in H. destruct H as (p2 & rest & c2 & -> & M2 & H).
    exists (p1 ++ p2), rest, c2. rewrite append_assoc. repeat split; auto.
    econstructor; eauto.
  - destruct (run n r1 s c k) eqn:E.
    + inversion H; subst. apply IH1 in E.
      destruct E as (pre & rest & c' & -> & M & Hk).
      exists pre, rest, c'. repeat split; auto. apply M_AltL; auto.
    + apply IH2 in H. destruct H as (pre & rest & c' & -> & M & Hk).
      exists pre, rest, c'. repeat split; auto. apply M_AltR; auto.
  - destruct (run n r1 s c k) eqn:E.
    + inversion H; subst. apply IH1 in E.
      destruct E as (pre & rest & c' & -> & M & Hk).
      exists pre, rest, c'. repeat split; auto. apply M_OptSome; auto.
    + exists "", s, c. repeat split; auto. apply M_OptNone.
  - apply star_sound in H. destruct H as (pre & rest & -> & Hall & Hk).
    exists pre, rest, c. repeat split; auto. constructor; auto.
  - apply IH1 in H. destruct H as (pre & rest & c' & -> & M & Hk).
    rewrite take_app_length in Hk.
    exists pre, rest, (setCap i pre c'). repeat split; auto. constructor; auto.
Qed.

Lemma star_complete (p : ascii -> bool) (pre rest : string) k :
  allChars p pre = true -> k rest <> None -> star p (pre ++ rest) k <> None.
Proof.
  induction pre as [|a pre IH]; simpl; intros Hall Hk.
  - destruct rest as [|b rest]; simpl; auto.
    destruct (p b); auto.
    destruct (star p rest k); [discriminate | auto].
  - apply andb_true_iff in Hall. destruct Hall as [Ha Hall].
    rewrite Ha. specialize (IH Hall Hk).
    destruct (star p (pre ++ rest) k); [discriminate | contradiction].
Qed.

Lemma run_complete (n : nat) (r : regex) pre rest c c' :
  Matches n r pre rest c c' ->
  forall k, k rest c' <> None -> run n r (pre ++ rest) c k <> None.
Proof.
  induction 1; simpl; intros k Hk; auto.
  - subst. rewrite Nat.eqb_refl. auto.
  - rewrite H. auto.
  - rewrite append_assoc. apply IHMatches1. apply IHMatches2. auto.
  - specialize (IHMatches k Hk).
    destruct (run n r1 (pre ++ rest) c k); [discriminate | contradiction].
  - specialize (IHMatches k Hk).
    destruct (run n r1 (pre ++ rest) c k); [discriminate | auto].
  - specialize (IHMatches k Hk).
    destruct (run n r (pre ++ rest) c k); [discriminate | contradiction].
  - destruct (run n r rest c k); [discriminate | auto].
  - apply star_complete; auto.
  - apply IHMatches. rewrite take_app_length. auto.
Qed.

(** ** Captures *)

Lemma setCap_length i v (c : captures) : List.length (setCap i v c) = List.length c.
Proof.
  revert c. induction i as [|i IH]; intros [|x c]; simpl; auto.
Qed.

Lemma getCap_setCap_same i v (c : captures) :
  (i < List.length c)%nat -> getCap i (setCap i v c) = Some v.
Proof.
  unfold getCap. revert c.
  induction i as [|i IH]; intros [|x c]; simpl; intros H; try lia; auto.
  apply IH. lia.
Qed.

Lemma getCap_setCap_other i j v (c : captures) :
  i <> j -> getCap j (setCap i v c) = getCap j c.
Proof.
  unfold getCap. revert j c.
  induction i as [|i IH]; intros [|j] [|x c]; simpl; intros H; auto; try congruence.
Qed.

Lemma getCap_setCap_inv i j v (c : captures) txt :
  getCap j (setCap i v c) = Some txt ->
  (j = i /\ txt = v) \/ getCap j c = Some txt.
Proof.
  intros H. destruct (Nat.eq_dec i j) as [->|Hne].
  - destruct (Nat.lt_ge_cases j (List.length c)) as [Hlt|Hge].
    + rewrite getCap_setCap_same in H by auto. left. split; congruence.
    + exfalso. unfold getCap in H. rewrite nth_overflow in H; [discriminate|].
      rewrite setCap_length. auto.
  - rewrite getCap_setCap_other in H by auto. auto.
Qed.

Lemma getCap_repeat_None i n : getCap i (repeat None n) = None.
Proof.
  unfold getCap. revert i. induction n; intros [|i]; simpl; auto.
Qed.

Lemma Matches_length n r pre rest c c' :
  Matches n r pre rest c c' -> List.length c' = List.length c.
Proof.
  induction 1; auto; try congruence.
  rewrite setCap_length. auto.
Qed.

(** A capture that a match sets holds a text of the group's pattern. *)
Lemma Matches_caps_lang n r pre rest c c' :
  Matches n r pre rest c c' ->
  forall j txt, getCap j c' = Some txt ->
    getCap j c = Some txt \/
    exists body, In (j, body) (groupsOf r) /\ InLang n body txt.
Proof.
  induction 1; simpl; intros j txt Hj; auto.
  - apply IHMatches2 in Hj. destruct Hj as [Hj|(body & Hin & HL)].
    + apply IHMatches1 in Hj. destruct Hj as [Hj|(body & Hin & HL)]; auto.
      right. exists body. split; auto. apply in_or_app. auto.
    + right. exists body. split; auto. apply in_or_app. auto.
  - apply IHMatches in Hj. destruct Hj as [Hj|(body & Hin & HL)]; auto.
    right. exists body. split; auto. apply in_or_app. auto.
  - apply IHMatches in Hj. destruct Hj as [Hj|(body & Hin & HL)]; auto.
    right. exists body. split; auto. apply in_or_app. auto.
  - apply getCap_setCap_inv in Hj. destruct Hj as [[-> ->]|Hj].
    + right. exists r. split; auto. exists rest, c, c'. auto.
    + apply IHMatches in Hj. destruct Hj as [Hj|(body & Hin & HL)]; auto.
      right. exists body. split; auto.
Qed.

(** A group that takes part in every match is defined after a match. *)
Lemma Matches_caps_defined n r pre rest c c' :
  Matches n r pre rest c c' ->
  forall j, (j < List.length c)%nat ->
    getCap j c <> None \/ mustSet j r = true ->
    getCap j c' <> None.
Proof.
  induction 1; simpl; intros j Hlen Hj;
    try (destruct Hj as [Hj|Hj]; [assumption | discriminate]).
  - apply IHMatches2.
    + rewrite (Matches_length _ _ _ _ _ _ H). auto.
    + destruct Hj as [Hj|Hj].
      * left. apply IHMatches1; auto.
      * apply orb_true_iff in Hj. destruct Hj as [Hj|Hj]; auto.
  - apply IHMatches; auto. destruct Hj as [Hj|Hj]; auto.
    apply andb_true_iff in Hj. tauto.
  - apply IHMatches; auto. destruct Hj as [Hj|Hj]; auto.
    apply andb_true_iff in Hj. tauto.
  - apply IHMatches; auto. destruct Hj as [Hj|Hj]; auto. discriminate.
  - destruct (Nat.eq_dec i j) as [->|Hne].
    + rewrite getCap_setCap_same; [discriminate|].
      rewrite (Matches_length _ _ _ _ _ _ H). auto.
    + rewrite getCap_setCap_other by auto.
      apply IHMatches; auto. destruct Hj as [Hj|Hj]; auto.
      apply orb_true_iff in Hj. destruct Hj as [Hj|Hj]; auto.
      apply Nat.eqb_eq in Hj. congruence.
Qed.

(** ** Anchored patterns *)

Lemma matchAt_anchored_short n g r s :
  length s <> n -> matchAt n g (Cat Bos r) s = None.
Proof.
  intros Hne. unfold matchAt. cbn [run].
  destruct (Nat.eqb_spec (length s) n) as [E|E]; [contradiction | reflexivity].
Qed.

Lemma searchFrom_anchored_short n g r s :
  (length s < n)%nat -> searchFrom n g (Cat Bos r) s = None.
Proof.
  induction s as [|a s IH]; cbn [searchFrom]; intros Hlt.
  - rewrite matchAt_anchored_short by lia. reflexivity.
  - rewrite matchAt_anchored_short by lia.
    apply IH. simpl in Hlt. lia.
Qed.

Lemma exec_anchored g r s :
  exec g (Cat Bos r) s =
  run (length s) r s (repeat None (S g))
    (fun s' c' => Some (setCap 0 (Str.take (length s - length s') s) c')).
Proof.
  unfold exec.
  assert (Hm : matchAt (length s) g (Cat Bos r) s =
               run (length s) r s (repeat None (S g))
                 (fun s' c' => Some (setCap 0 (Str.take (length s - length s') s) c'))).
  { unfold matchAt. cbn [run]. rewrite Nat.eqb_refl. reflexivity. }
  destruct s as [|a s]; cbn [searchFrom]; rewrite Hm.
  - destruct (run _ r _ _ _); reflexivity.
  - destruct (run _ r _ _ _); [reflexivity|].
    apply searchFrom_anchored_short. simpl. lia.
Qed.

Lemma exec_anchored_sound g r s m :
  exec g (Cat Bos r) s = Some m ->
  exists pre rest c',
    s = pre ++ rest /\
    Matches (length s) r pre rest (repeat None (S g)) c' /\
    m = setCap 0 pre c'.
Proof.
  rewrite exec_anchored. intros H.
  apply run_sound in H. destruct H as (pre & rest & c' & E & M & Hk).
  subst s. rewrite take_app_length in Hk.
  exists pre, rest, c'. repeat split; auto. congruence.
Qed.

Lemma exec_anchored_complete g r s pre rest c' :
  s = pre ++ rest ->
  Matches (length s) r pre rest (repeat None (S g)) c' ->
  exec g (Cat Bos r) s <> None.
Proof.
  intros E M. rewrite exec_anchored. subst s.
  apply (run_complete _ _ _ _ _ _ M). discriminate.
Qed.

(** The captures of an anchored match, by group number. *)
Lemma exec_cap_lang g r s m j txt :
  exec g (Cat Bos r) s = Some m ->
  (1 <= j)%nat ->
  getCap j m = Some txt ->
  exists body, In (j, body) (groupsOf r) /\ InLang (length s) body txt.
Proof.
  intros H Hj Hc.
  apply exec_anchored_sound in H. destruct H as (pre & rest & c' & E & M & ->).
  rewrite getCap_setCap_other in Hc by lia.
  destruct (Matches_caps_lang _ _ _ _ _ _ M _ _ Hc) as [Hn|Hex]; auto.
  rewrite getCap_repeat_None in Hn. discriminate.
Qed.

Lemma exec_cap_defined g r s m j :
  exec g (Cat Bos r) s = Some m ->
  (1 <= j <= g)%nat ->
  mustSet j r = true ->
  exists txt, getCap j m = Some txt.
Proof.
  intros H Hj Hm.
  apply exec_anchored_sound in H. destruct H as (pre & rest & c' & E & M & ->).
  rewrite getCap_setCap_other by lia.
  assert (Hd : getCap j c' <> None).
  { apply (Matches_caps_defined _ _ _ _ _ _ M).
    - rewrite repeat_length. lia.
    - auto. }
  destruct (getCap j c') as [txt|]; [eauto | contradiction].
Qed.

(** ** Code units *)

Ltac bool_cases :=
  repeat match goal with
    | |- context [Z.leb ?x ?y] => destruct (Z.leb_spec x y)
    | |- context [Z.ltb ?x ?y] => destruct (Z.ltb_spec x y)
    | |- context [Z.eqb ?x ?y] => destruct (Z.eqb_spec x y)
    end;
  simpl; try reflexivity; try discriminate; try lia.

Lemma isDigit_code a : Chars.isDigit a = true <-> 48 <= Chars.code a <= 57.
Proof.
  unfold Chars.isDigit. rewrite andb_true_iff, !Z.leb_le. tauto.
Qed.

Lemma digit_not_space a : Chars.isDigit a = true -> Chars.isSpace a = false.
Proof.
  rewrite isDigit_code. intros H. unfold Chars.isSpace. bool_cases.
Qed.

Lemma digit_neq a b :
  Chars.isDigit a = true -> Chars.isDigit b = false -> Ascii.eqb a b = false.
Proof.
  intros Ha Hb. destruct (Ascii.eqb_spec a b); [congruence | reflexivity].
Qed.

Lemma code_ofCode z : 0 <= z < 256 -> Chars.code (Chars.ofCode z) = z.
Proof.
  intros H. unfold Chars.code, Chars.ofCode.
  rewrite N_ascii_embedding by lia. lia.
Qed.

Lemma digitValue_digit a :
  Chars.isDigit a = true -> ParseInt.digitValue 10 a = Some (Chars.code a - 48).
Proof.
  rewrite isDigit_code. intros H. unfold ParseInt.digitValue.
  destruct (Z.leb_spec 48 (Chars.code a)); [|lia].
  destruct (Z.leb_spec (Chars.code a) 57); [|lia].
  simpl. destruct (Z.ltb_spec (Chars.code a - 48) 10); [reflexivity | lia].
Qed.

(** ** parseInt on strings of digits *)

Lemma digits_decValueFrom s :
  forall acc, allChars Chars.isDigit s = true ->
    ParseInt.digits 10 (Some acc) s = Some (decValueFrom acc s).
Proof.
  induction s as [|a s IH]; simpl; intros acc H; [reflexivity|].
  apply andb_true_iff in H. destruct H as [Ha Hs].
  rewrite digitValue_digit by auto. apply IH. auto.
Qed.

Lemma digits_decValue s :
  allChars Chars.isDigit s = true -> s <> "" ->
  ParseInt.digits 10 None s = Some (decValue s).
Proof.
  destruct s as [|a s]; [congruence|]. simpl. intros H _.
  apply andb_true_iff in H. destruct H as [Ha Hs].
  rewrite digitValue_digit by auto.
  rewrite digits_decValueFrom by auto. unfold decValue. simpl. reflexivity.
Qed.

Lemma unsignedPart_digits sign s :
  allChars Chars.isDigit s = true -> s <> "" ->
  ParseInt.unsignedPart sign s = Num (sign * decValue s).
Proof.
  intros H Hne. unfold ParseInt.unsignedPart.
  assert (Hx : Str.startsWith "0x" s || Str.startsWith "0X" s = false).
  { destruct s as [|a [|b s]]; cbn [Str.startsWith];
      [reflexivity | rewrite !andb_false_r; reflexivity |].
    simpl in H. apply andb_true_iff in H. destruct H as [_ H].
    apply andb_true_iff in H. destruct H as [Hb _].
    rewrite (Ascii.eqb_sym _ b), (digit_neq b "x") by auto.
    rewrite (Ascii.eqb_sym _ b), (digit_neq b "X") by auto.
    rewrite !andb_false_r. reflexivity. }
  rewrite Hx. unfold ParseInt.signed. rewrite digits_decValue by auto. reflexivity.
Qed.

Lemma trimStart_digits s :
  allChars Chars.isDigit s = true -> Str.trimStart s = s.
Proof.
  destruct s as [|a s]; simpl; [reflexivity|]. intros H.
  apply andb_true_iff in H. destruct H as [Ha _].
  rewrite digit_not_space by auto. reflexivity.
Qed.

Lemma parseInt_digits s :
  allChars Chars.isDigit s = true -> s <> "" -> parseInt s = Num (decValue s).
Proof.
  intros H Hne. unfold parseInt, ParseInt.parseInt.
  rewrite trimStart_digits by auto.
  destruct s as [|a s]; [congruence|].
  assert (Ha : Chars.isDigit a = true).
  { simpl in H. apply andb_true_iff in H. tauto. }
  cbn [Str.startsWith].
  rewrite (Ascii.eqb_sym _ a), (digit_neq a "-") by auto.
  rewrite (Ascii.eqb_sym _ a), (digit_neq a "+") by auto.
  cbn [andb]. rewrite unsignedPart_digits by auto.
  f_equal. lia.
Qed.

Lemma decValueFrom_bounds s :
  forall acc, allChars Chars.isDigit s = true -> 0 <= acc ->
    acc * 10 ^ Z.of_nat (length s) <= decValueFrom acc s
    < (acc + 1) * 10 ^ Z.of_nat (length s).
Proof.
  induction s as [|a s IH]; intros acc H Hacc.
  - simpl. lia.
  - cbn [decValueFrom length]. simpl in H.
    apply andb_true_iff in H. destruct H as [Ha Hs].
    apply isDigit_code in Ha.
    specialize (IH (acc * 10 + (Chars.code a - 48)) Hs ltac:(lia)).
    rewrite Nat2Z.inj_succ, Z.pow_succ_r by lia.
    assert (0 < 10 ^ Z.of_nat (length s)) by (apply Z.pow_pos_nonneg; lia).
    nia.
Qed.

Lemma parseInt_digits_bound s k :
  allChars Chars.isDigit s = true -> (1 <= length s <= k)%nat ->
  exists v, parseInt s = Num v /\ 0 <= v < 10 ^ Z.of_nat k.
Proof.
  intros H Hlen. exists (decValue s). split.
  - apply parseInt_digits; auto. destruct s; simpl in Hlen; [lia | discriminate].
  - destruct (decValueFrom_bounds s 0 H ltac:(lia)) as [Hlo Hhi].
    unfold decValue. split; [lia|].
    assert (10 ^ Z.of_nat (length s) <= 10 ^ Z.of_nat k)
      by (apply Z.pow_le_mono_r; lia).
    lia.
Qed.

(** ** The languages of the digit groups *)

Ltac inv_matches :=
  repeat match goal with
    | H : Matches _ (Cat _ _) _ _ _ _ |- _ => inversion H; subst; clear H
    | H : Matches _ (Cls _) _ _ _ _ |- _ => inversion H; subst; clear H
    | H : Matches _ (Opt _) _ _ _ _ |- _ => inversion H; subst; clear H
    | H : Matches _ (Alt _ _) _ _ _ _ |- _ => inversion H; subst; clear H
    | H : Matches _ (Star _) _ _ _ _ |- _ => inversion H; subst; clear H
    | H : Matches _ (Grp _ _) _ _ _ _ |- _ => inversion H; subst; clear H
    | H : Matches _ Eps _ _ _ _ |- _ => inversion H; subst; clear H
    | H : Matches _ Eos _ _ _ _ |- _ => inversion H; subst; clear H
    | H : Matches _ Bos _ _ _ _ |- _ => inversion H; subst; clear H
    end.

Lemma lang_digits_1_2 n txt :
  InLang n digits_1_2 txt ->
  allChars Chars.isDigit txt = true /\ (1 <= length txt <= 2)%nat.
Proof.
  intros (rest & c & c' & M). unfold digits_1_2, digit in M.
  inv_matches; simpl;
    repeat match goal with H : _ = true |- _ => rewrite H end;
    split; auto; lia.
Qed.

Lemma lang_digits_2 n txt :
  InLang n digits_2 txt ->
  allChars Chars.isDigit txt = true /\ length txt = 2%nat.
Proof.
  intros (rest & c & c' & M). unfold digits_2, digit in M.
  inv_matches; simpl;
    repeat match goal with H : _ = true |- _ => rewrite H end;
    split; auto.
Qed.

Lemma lang_digits_4 n txt :
  InLang n digits_4 txt ->
  allChars Chars.isDigit txt = true /\ length txt = 4%nat.
Proof.
  intros (rest & c & c' & M). unfold digits_4, digit in M. cbn [seq] in M.
  inv_matches; simpl;
    repeat match goal with H : _ = true |- _ => rewrite H end;
    split; auto.
Qed.

Lemma lang_digits1 n txt :
  InLang n digits1 txt ->
  allChars Chars.isDigit txt = true /\ txt <> "".
Proof.
  intros (rest & c & c' & M). unfold digits1, digit in M.
  inv_matches; simpl.
  repeat match goal with H : _ = true |- _ => rewrite H end.
  split; [reflexivity | discriminate].
Qed.

(** ** Printing a number and reading it back *)

Lemma decValueFrom_app a b :
  forall acc, decValueFrom acc (a ++ b) = decValueFrom (decValueFrom acc a) b.
Proof.
  induction a as [|x a IH]; simpl; intros acc; auto.
Qed.

Lemma decimal_S fuel n acc :
  decimal (S fuel) n acc =
  if n <? 10 then String (Chars.ofCode (48 + n mod 10)) acc
  else decimal fuel (n / 10) (String (Chars.ofCode (48 + n mod 10)) acc).
Proof. reflexivity. Qed.

Lemma decimal_spec fuel :
  forall n acc,
    0 <= n < 2 ^ Z.of_nat (S fuel) ->
    exists pre,
      decimal (S fuel) n acc = pre ++ acc /\
      allChars Chars.isDigit pre = true /\ pre <> "" /\ decValue pre = n.
Proof.
  induction fuel as [|fuel IH]; intros n acc Hn.
  - assert (n < 10) by (change (2 ^ Z.of_nat 1) with 2 in Hn; lia).
    rewrite decimal_S. destruct (Z.ltb_spec n 10); [|lia].
    exists (String (Chars.ofCode (48 + n mod 10)) "").
    rewrite Z.mod_small by lia.
    repeat split; try discriminate.
    + cbn [allChars]. rewrite andb_true_r. apply isDigit_code. rewrite code_ofCode; lia.
    + unfold decValue. cbn [decValueFrom]. rewrite code_ofCode; lia.
  - rewrite decimal_S.
    assert (Hd : 0 <= n mod 10 < 10) by (apply Z.mod_pos_bound; lia).
    destruct (Z.ltb_spec n 10).
    + exists (String (Chars.ofCode (48 + n mod 10)) "").
      rewrite Z.mod_small by lia.
      repeat split; try discriminate.
      * cbn [allChars]. rewrite andb_true_r. apply isDigit_code. rewrite code_ofCode; lia.
      * unfold decValue. cbn [decValueFrom]. rewrite code_ofCode; lia.
    + destruct (IH (n / 10) (String (Chars.ofCode (48 + n mod 10)) acc))
        as (pre & E & Hall & Hne & Hv).
      { rewrite Nat2Z.inj_succ, Z.pow_succ_r in Hn by lia.
        split; [apply Z.div_pos; lia|].
        apply Z.div_lt_upper_bound; lia. }
      exists (pre ++ String (Chars.ofCode (48 + n mod 10)) "").
      repeat split.
      * rewrite E, append_assoc. reflexivity.
      * rewrite allChars_app, Hall. cbn [allChars andb]. rewrite andb_true_r.
        apply isDigit_code. rewrite code_ofCode; lia.
      * destruct pre; discriminate.
      * unfold decValue in *. rewrite decValueFrom_app, Hv. cbn [decValueFrom].
        rewrite code_ofCode by lia.
        pose proof (Z.div_mod n 10 ltac:(lia)). lia.
Qed.

Lemma log2_fuel z : 0 <= z -> 0 <= z < 2 ^ Z.of_nat (S (Z.to_nat (Z.log2 z))).
Proof.
  intros Hz. split; auto.
  rewrite Nat2Z.inj_succ, Z2Nat.id by apply Z.log2_nonneg.
  destruct (Z.eq_dec z 0) as [->|Hne].
  - simpl. lia.
  - apply Z.log2_spec. lia.
Qed.

Lemma parseInt_numberToString z : parseInt (numberToString (Num z)) = Num z.
Proof.
  unfold numberToString. destruct (Z.ltb_spec z 0).
  - destruct (decimal_spec (Z.to_nat (Z.log2 (- z))) (- z) "" (log2_fuel (- z) ltac:(lia)))
      as (pre & E & Hall & Hne & Hv).
    rewrite E, append_nil_r.
    unfold parseInt, ParseInt.parseInt.
    cbn [Str.trimStart]. change (Chars.isSpace "-") with false. cbv iota.
    cbn [Str.startsWith]. rewrite Ascii.eqb_refl. cbn [andb Str.drop].
    rewrite unsignedPart_digits by auto. f_equal. lia.
  - destruct (decimal_spec (Z.to_nat (Z.log2 z)) z "" (log2_fuel z ltac:(lia)))
      as (pre & E & Hall & Hne & Hv).
    rewrite E, append_nil_r, parseInt_digits by auto. congruence.
Qed.

(** ** The grammar of amounts: digits, white space, an optional unit *)

Lemma span_unique p a1 : forall a2 b1 b2,
  allChars p a1 = true -> allChars p a2 = true ->
  headNot p b1 -> headNot p b2 ->
  a1 ++ b1 = a2 ++ b2 -> a1 = a2 /\ b1 = b2.
Proof.
  induction a1 as [|x a1 IH]; intros [|y a2] b1 b2 H1 H2 Hb1 Hb2 E; simpl in *.
  - auto.
  - subst b1. simpl in Hb1. apply andb_true_iff in H2. destruct H2. congruence.
  - subst b2. simpl in Hb2. apply andb_true_iff in H1. destruct H1. congruence.
  - inversion E; subst.
    apply andb_true_iff in H1. apply andb_true_iff in H2.
    destruct H1, H2.
    destruct (IH a2 b1 b2) as [-> ->]; auto.
Qed.

Lemma headNot_digit_spaces p ws u :
  letterClass p -> allChars Chars.isSpace ws = true -> unitText p u ->
  headNot Chars.isDigit (ws ++ u).
Proof.
  intros Hp Hws Hu. destruct ws as [|a ws]; simpl.
  - destruct Hu as [->|(a & -> & Ha)]; simpl; auto. apply Hp; auto.
  - simpl in Hws. apply andb_true_iff in Hws. destruct Hws as [Ha _].
    destruct (Chars.isDigit a) eqn:E; auto.
    apply digit_not_space in E. congruence.
Qed.

Lemma headNot_space_unit p u :
  letterClass p -> unitText p u -> headNot Chars.isSpace u.
Proof.
  intros Hp [->|(a & -> & Ha)]; simpl; auto. apply Hp; auto.
Qed.

Lemma re_amount_sound p s m :
  exec 2 (re_amount p) s = Some m ->
  exists ds ws u,
    s = ds ++ ws ++ u /\ amountText p ds ws u /\
    getCap 1 m = Some ds /\ getCap 2 m = Some u.
Proof.
  intros H. unfold re_amount in H. cbn [seq] in H.
  apply exec_anchored_sound in H. destruct H as (pre & rest & c' & E & M & ->).
  unfold digits1, digit, spaces0 in M. cbn [repeat] in M.
  inv_matches; simpl;
    match goal with
    | Hs : allChars Chars.isSpace ?w = true |- _ =>
        eexists; exists w; eexists;
        refine (conj _ (conj _ (conj eq_refl eq_refl)))
    end.
  - rewrite !append_nil_r. reflexivity.
  - repeat split; auto; try discriminate.
    + simpl. apply andb_true_iff. split; assumption.
    + right. eauto.
  - rewrite !append_nil_r. reflexivity.
  - repeat split; auto; try discriminate.
    + simpl. apply andb_true_iff. split; assumption.
    + left. reflexivity.
Qed.

Lemma re_amount_complete p ds ws u :
  amountText p ds ws u -> exec 2 (re_amount p) (ds ++ ws ++ u) <> None.
Proof.
  intros (Hds & Hne & Hws & Hu).
  destruct ds as [|a ds]; [congruence|].
  simpl in Hds. apply andb_true_iff in Hds. destruct Hds as [Ha Hds].
  unfold re_amount. cbn [seq].
  eapply exec_anchored_complete with (pre := String a ds ++ ws ++ u ++ "") (rest := "").
  - rewrite !append_nil_r. reflexivity.
  - eapply M_Cat.
    + eapply M_Grp. unfold digits1, digit.
      eapply (M_Cat _ _ _ (String a "") ds).
      * apply M_Cls. exact Ha.
      * apply M_Star. exact Hds.
    + eapply M_Cat.
      * apply M_Star. exact Hws.
      * eapply M_Cat; [|apply M_Eos].
        eapply M_Grp.
        destruct Hu as [->|(b & -> & Hb)].
        -- apply M_OptNone.
        -- apply M_OptSome. apply M_Cls. exact Hb.
Qed.

Lemma amountText_unique p ds ws u ds' ws' u' :
  letterClass p ->
  amountText p ds ws u -> amountText p ds' ws' u' ->
  ds ++ ws ++ u = ds' ++ ws' ++ u' ->
  ds = ds' /\ ws = ws' /\ u = u'.
Proof.
  intros Hp (Hds & _ & Hws & Hu) (Hds' & _ & Hws' & Hu') E.
  destruct (span_unique Chars.isDigit ds ds' (ws ++ u) (ws' ++ u') Hds Hds'
              (headNot_digit_spaces p ws u Hp Hws Hu)
              (headNot_digit_spaces p ws' u' Hp Hws' Hu') E) as [-> E'].
  destruct (span_unique Chars.isSpace ws ws' u u' Hws Hws'
              (headNot_space_unit p u Hp Hu)
              (headNot_space_unit p u' Hp Hu') E') as [-> ->].
  auto.
Qed.

(** A text of the grammar matches, with the digits and the unit as its
    captures. *)
Lemma re_amount_exec p ds ws u :
  letterClass p -> amountText p ds ws u ->
  exists m, exec 2 (re_amount p) (ds ++ ws ++ u) = Some m /\
            getCap 1 m = Some ds /\ getCap 2 m = Some u.
Proof.
  intros Hp Hform.
  destruct (exec 2 (re_amount p) (ds ++ ws ++ u)) as [m|] eqn:E.
  - exists m. split; auto.
    destruct (re_amount_sound _ _ _ E) as (ds' & ws' & u' & Es & Hform' & H1 & H2).
    destruct (amountText_unique p ds ws u ds' ws' u' Hp Hform Hform' Es)
      as (-> & -> & ->).
    auto.
  - exfalso. exact (re_amount_complete p ds ws u Hform E).
Qed.

(** ** Calendar arithmetic *)

Lemma monthOfDay_range leap dw : 0 <= monthOfDay leap dw <= 11.
Proof.
  unfold monthOfDay.
  repeat match goal with
    | |- context [Z.ltb ?x ?y] => destruct (Z.ltb x y)
    end; lia.
Qed.

Lemma MonthFromTime_range t : 0 <= MonthFromTime t <= 11.
Proof. apply monthOfDay_range. Qed.

(** The fields of a time name its day: moving the day of the month by [k]
    moves the day number by [k]. *)
Lemma MakeDay_fields t k :
  MakeDay (YearFromTime t) (MonthFromTime t) (DateFromTime t + k) = Day t + k.
Proof.
  pose proof (MonthFromTime_range t) as Hm.
  unfold MakeDay.
  rewrite Z.div_small, Z.mod_small by lia.
  unfold DateFromTime, DayWithinYear, InLeapYear.
  rewrite Z.add_0_r. lia.
Qed.

Lemma day_split t : t = Day t * msPerDay + TimeWithinDay t.
Proof.
  unfold Day, TimeWithinDay.
  pose proof (Z.div_mod t msPerDay ltac:(unfold msPerDay; lia)). lia.
Qed.

(** [d.setDate(d.getDate() + k)]: the same time of day [k] days later on
    the local calendar. *)
Lemma setDate_getDate tza t k :
  setDate tza (mkDate (Num t)) (nadd (getDate tza (mkDate (Num t))) (Num k))
  = atLocal tza (LocalTime tza t + k * msPerDay).
Proof.
  unfold setDate, getDate, getter, atLocal. cbn [timeValue nadd].
  rewrite MakeDay_fields. do 3 f_equal.
  unfold MakeDate.
  pose proof (day_split (LocalTime tza t)). lia.
Qed.

(** ** The unit letters *)

Lemma limitUnit_letters a :
  limitUnit a = true ->
  In a ["d"; "w"; "m"; "y"; "D"; "W"; "M"; "Y"]%char.
Proof.
  destruct a as [[] [] [] [] [] [] [] []]; vm_compute; intros H;
    try discriminate; tauto.
Qed.

Lemma reminderUnit_letters a :
  reminderUnit a = true ->
  In a ["m"; "h"; "d"; "M"; "H"; "D"]%char.
Proof.
  destruct a as [[] [] [] [] [] [] [] []]; vm_compute; intros H;
    try discriminate; tauto.
Qed.

Lemma limitUnit_letterClass : letterClass limitUnit.
Proof.
  intros a H. apply limitUnit_letters in H. simpl in H.
  repeat (destruct H as [<-|H]; [split; reflexivity|]). contradiction.
Qed.

Lemma reminderUnit_letterClass : letterClass reminderUnit.
Proof.
  intros a H. apply reminderUnit_letters in H. simpl in H.
  repeat (destruct H as [<-|H]; [split; reflexivity|]). contradiction.
Qed.

(** ** parseTimeLimit *)

(** Evaluates the closed string comparisons of the goal. *)
Ltac eval_eqb :=
  repeat match goal with
    | |- context [String.eqb ?a ?b] =>
        let v := eval vm_compute in (String.eqb a b) in
        change (String.eqb a b) with v
    end;
  cbv iota.

Lemma parseTimeLimit_match tza clock spec m :
  exec 2 (re_amount limitUnit) spec = Some m ->
  exists d, parseTimeLimit tza clock spec = Return d.
Proof.
  intros E. unfold parseTimeLimit.
  change re_timeLimit with (re_amount limitUnit). rewrite E. eauto.
Qed.

Lemma parseTimeLimit_no_match tza clock spec :
  exec 2 (re_amount limitUnit) spec = None ->
  parseTimeLimit tza clock spec = Exit 1 (invalidTimeLimit spec).
Proof.
  intros E. unfold parseTimeLimit.
  change re_timeLimit with (re_amount limitUnit). rewrite E. reflexivity.
Qed.

Lemma TimeLimitText_exec spec :
  TimeLimitText spec <-> exec 2 (re_amount limitUnit) spec <> None.
Proof.
  split.
  - intros (ds & ws & u & -> & Hform). apply re_amount_complete. exact Hform.
  - intros H. destruct (exec 2 (re_amount limitUnit) spec) as [m|] eqn:E; [|congruence].
    destruct (re_amount_sound _ _ _ E) as (ds & ws & u & Es & Hform & _).
    exists ds, ws, u. auto.
Qed.

(** C4: [parseTimeLimit] ends the command with status 1 and the message
    [Invalid time limit: "<input>" - use #d, #w, #m, or #y (e.g. 3m, 90d, 1y)]
    exactly when the input is not of the grammar [^(\d+)\s*([dwmy]?)$]
    (digits, white space, an optional unit letter in either case); on an
    input of the grammar it returns a date, and it never ends in any other
    way. *)
Theorem parseTimeLimit_exit_iff (tza : zone) (clock : Z) (spec : string) :
  (parseTimeLimit tza clock spec = Exit 1 (invalidTimeLimit spec)
     <-> ~ TimeLimitText spec) /\
  (TimeLimitText spec <-> exists d, parseTimeLimit tza clock spec = Return d) /\
  (forall st msg, parseTimeLimit tza clock spec = Exit st msg ->
     st = 1 /\ msg = invalidTimeLimit spec) /\
  (forall msg, parseTimeLimit tza clock spec <> Throw msg).
Proof.
  rewrite TimeLimitText_exec.
  destruct (exec 2 (re_amount limitUnit) spec) as [m|] eqn:E.
  - destruct (parseTimeLimit_match tza clock spec m E) as (d & Hd).
    rewrite Hd. repeat split; try discriminate; eauto.
    intros H. exfalso. apply H. discriminate.
  - rewrite (parseTimeLimit_no_match tza clock spec E).
    repeat split; try congruence; try tauto.
    all: try (intros (d & Hd); discriminate).
    all: intros H; inversion H; subst; reflexivity.
Qed.

(** The message of the usage error, spelled out. *)
Example parseTimeLimit_xyz tza clock :
  parseTimeLimit tza clock "xyz" =
  Exit 1 ("Invalid time limit: " ++ dquote ++ "xyz" ++ dquote ++ " " ++ emDash
          ++ " use #d, #w, #m, or #y (e.g. 3m, 90d, 1y)").
Proof. reflexivity. Qed.

(** The date [parseTimeLimit] returns on an input of the grammar, by the
    unit its letter names: the date of the local reading the setter makes
    of the reading of the clock. *)
Lemma parseTimeLimit_unit (tza : zone) (clock : Z) (ds ws u : string) :
  amountText limitUnit ds ws u ->
  exists k, limitUnitOf u = Some k /\
    parseTimeLimit tza clock (ds ++ ws ++ u)
    = Return (atLocal tza (moved k (decValue ds) (LocalTime tza clock))).
Proof.
  intros Hform.
  destruct (re_amount_exec limitUnit ds ws u limitUnit_letterClass Hform)
    as (m & E & H1 & H2).
  unfold parseTimeLimit. change re_timeLimit with (re_amount limitUnit).
  rewrite E. unfold group. rewrite H1, H2.
  destruct Hform as (Hds & Hne & Hws & Hu).
  rewrite parseInt_digits by auto.
  assert (Hmonths :
    Return (setMonth tza (newDate clock)
              (nadd (getMonth tza (newDate clock)) (Num (decValue ds))))
    = Return (atLocal tza (moved Months (decValue ds) (LocalTime tza clock)))).
  { unfold setMonth, getMonth, getter, newDate, atLocal, moved.
    cbn [timeValue nadd]. reflexivity. }
  assert (Hyears :
    Return (setFullYear tza (newDate clock)
              (nadd (getFullYear tza (newDate clock)) (Num (decValue ds))))
    = Return (atLocal tza (moved Years (decValue ds) (LocalTime tza clock)))).
  { unfold setFullYear, getFullYear, getter, newDate, atLocal, moved.
    cbn [timeValue nadd]. reflexivity. }
  assert (Hdays :
    Return (setDate tza (newDate clock)
              (nadd (getDate tza (newDate clock)) (Num (decValue ds))))
    = Return (atLocal tza (moved Days (decValue ds) (LocalTime tza clock)))).
  { unfold newDate. rewrite setDate_getDate. reflexivity. }
  assert (Hweeks :
    Return (setDate tza (newDate clock)
              (nadd (getDate tza (newDate clock)) (nmul (Num (decValue ds)) (Num 7))))
    = Return (atLocal tza (moved Weeks (decValue ds) (LocalTime tza clock)))).
  { unfold newDate. cbn [nmul]. rewrite setDate_getDate. reflexivity. }
  destruct Hu as [->|(a & -> & Ha)].
  - exists Months. split; [reflexivity|]. exact Hmonths.
  - apply limitUnit_letters in Ha. simpl in Ha.
    repeat (destruct Ha as [<-|Ha];
            [eexists; split; [reflexivity|]; eval_eqb; assumption|]).
    contradiction.
Qed.

(** ** parseReminder *)

Lemma split_noColon t : noColon t = true -> Str.split ":" t = [t].
Proof.
  unfold noColon. induction t as [|a t IH]; simpl; intros H; [reflexivity|].
  apply andb_true_iff in H. destruct H as [Ha Ht].
  apply negb_true_iff in Ha. rewrite Ha, (IH Ht). reflexivity.
Qed.

Lemma split_app t rest :
  noColon t = true ->
  Str.split ":" (t ++ String ":" rest) = t :: Str.split ":" rest.
Proof.
  unfold noColon. induction t as [|a t IH]; simpl; intros H; [reflexivity|].
  apply andb_true_iff in H. destruct H as [Ha Ht].
  apply negb_true_iff in Ha. rewrite Ha, (IH Ht). reflexivity.
Qed.

Lemma noColon_class p s :
  (forall a, p a = true -> Ascii.eqb a ":" = false) ->
  allChars p s = true -> noColon s = true.
Proof.
  intros Hp. unfold noColon. induction s as [|a s IH]; simpl; intros H; auto.
  apply andb_true_iff in H. destruct H as [Ha Hs].
  rewrite (Hp a Ha), IH; auto.
Qed.

Lemma noColon_app a b : noColon (a ++ b) = noColon a && noColon b.
Proof. apply allChars_app. Qed.

Lemma amountText_noColon ds ws u :
  amountText reminderUnit ds ws u -> noColon (ds ++ ws ++ u) = true.
Proof.
  intros (Hds & _ & Hws & Hu).
  rewrite !noColon_app.
  rewrite (noColon_class Chars.isDigit ds), (noColon_class Chars.isSpace ws); auto.
  - destruct Hu as [->|(a & -> & Ha)]; [reflexivity|].
    apply reminderUnit_letters in Ha. simpl in Ha.
    repeat (destruct Ha as [<-|Ha]; [reflexivity|]). contradiction.
  - intros a Ha. destruct (Ascii.eqb_spec a ":"); [subst; discriminate | reflexivity].
  - intros a Ha. destruct (Ascii.eqb_spec a ":"); [subst; discriminate | reflexivity].
Qed.

Lemma parseReminder_parts spec ds ws u rest :
  Str.split ":" spec = (ds ++ ws ++ u) :: rest ->
  amountText reminderUnit ds ws u ->
  exists f, reminderFactor u = Some f /\
    parseReminder spec =
    Return (mkReminder
              (match nth_error rest 0 with
               | Some m => if String.eqb m "email" then "email" else "popup"
               | None => "popup"
               end)
              (Num (decValue ds * f))).
Proof.
  intros Hsplit Hform.
  destruct (re_amount_exec reminderUnit ds ws u reminderUnit_letterClass Hform)
    as (m & E & H1 & H2).
  unfold parseReminder. rewrite Hsplit. cbn [nth nth_error].
  change re_reminder with (re_amount reminderUnit).
  rewrite E. unfold group. rewrite H1, H2.
  destruct Hform as (Hds & Hne & Hws & Hu).
  rewrite parseInt_digits by auto.
  destruct Hu as [->|(a & -> & Ha)].
  - exists 1. split; [reflexivity|]. eval_eqb.
    do 3 f_equal. lia.
  - apply reminderUnit_letters in Ha. simpl in Ha.
    repeat (destruct Ha as [<-|Ha];
            [eexists; split; [reflexivity|]; eval_eqb; cbn [nmul];
             do 3 f_equal; lia|]).
    contradiction.
Qed.

(** C6, as stated, fails: the method is read from the text between the
    first colon and the second, so a suffix that is not [email] but opens
    with [email:] gives the method [email]. *)
Lemma parseReminder_method_not_suffix :
  parseReminder "30:email:x" = Return (mkReminder "email" (Num 30)) /\
  String.eqb "email:x" "email" = false /\
  ~ (forall ds ws u suffix,
       amountText reminderUnit ds ws u ->
       exists f, reminderFactor u = Some f /\
         parseReminder ((ds ++ ws ++ u) ++ ":" ++ suffix)
         = Return (mkReminder (if String.eqb suffix "email" then "email" else "popup")
                     (Num (decValue ds * f)))).
Proof.
  split; [reflexivity|]. split; [reflexivity|].
  intros H.
  assert (Hform : amountText reminderUnit "30" "" "").
  { repeat split; try reflexivity; try discriminate. left. reflexivity. }
  destruct (H "30" "" "" "email:x" Hform) as (f & Hf & E).
  vm_compute in E. discriminate E.
Qed.

(** C6, amended: for a reminder part made of digits [N], an optional unit
    letter and nothing more, or a colon and further text after it,
    [parseReminder] returns [N] times 60 minutes for [h], times 1440 for
    [d], times 1 for [m] or no letter, for every amount whose minutes do
    not exceed 2^53; the method is [email] exactly when the text between
    the first colon and the next colon, or the end, is [email], and [popup]
    otherwise, also without a colon. *)
Theorem parseReminder_minutes_method (ds ws u : string) :
  amountText reminderUnit ds ws u ->
  exists f, reminderFactor u = Some f /\
    (decValue ds * f <= 2 ^ 53 ->
     parseReminder (ds ++ ws ++ u)
       = Return (mkReminder "popup" (Num (decValue ds * f))) /\
     forall m rest, noColon m = true ->
       parseReminder ((ds ++ ws ++ u) ++ ":" ++ m)
       = Return (mkReminder (if String.eqb m "email" then "email" else "popup")
                   (Num (decValue ds * f))) /\
       parseReminder ((ds ++ ws ++ u) ++ ":" ++ m ++ ":" ++ rest)
       = Return (mkReminder (if String.eqb m "email" then "email" else "popup")
                   (Num (decValue ds * f)))).
Proof.
  intros Hform.
  pose proof (amountText_noColon ds ws u Hform) as Hnc.
  destruct (parseReminder_parts (ds ++ ws ++ u) ds ws u []
              (split_noColon _ Hnc) Hform) as (f & Hf & E).
  exists f. split; [exact Hf|]. intros _. split; [exact E|].
  intros m rest Hm. split.
  - assert (Hsplit : Str.split ":" ((ds ++ ws ++ u) ++ ":" ++ m)
                     = (ds ++ ws ++ u) :: [m]).
    { change (":" ++ m) with (String ":" m).
      rewrite split_app by exact Hnc. rewrite split_noColon by exact Hm. reflexivity. }
    destruct (parseReminder_parts _ ds ws u [m] Hsplit Hform) as (f' & Hf' & E').
    rewrite Hf in Hf'. inversion Hf'; subst f'. exact E'.
  - assert (Hsplit : Str.split ":" ((ds ++ ws ++ u) ++ ":" ++ m ++ ":" ++ rest)
                     = (ds ++ ws ++ u) :: m :: Str.split ":" rest).
    { change (":" ++ m ++ ":" ++ rest) with (String ":" (m ++ String ":" rest)).
      rewrite split_app by exact Hnc. rewrite split_app by exact Hm. reflexivity. }
    destruct (parseReminder_parts _ ds ws u (m :: Str.split ":" rest) Hsplit Hform)
      as (f' & Hf' & E').
    rewrite Hf in Hf'. inversion Hf'; subst f'. exact E'.
Qed.

Lemma parseReminder_minutes_method_witness :
  amountText reminderUnit "1" "" "h" /\
  parseReminder ("1" ++ "" ++ "h") = Return (mkReminder "popup" (Num 60)) /\
  parseReminder (("1" ++ "" ++ "h") ++ ":" ++ "email")
    = Return (mkReminder "email" (Num 60)) /\
  parseReminder (("1" ++ "" ++ "h") ++ ":" ++ "email" ++ ":" ++ "x")
    = Return (mkReminder "email" (Num 60)).
Proof.
  assert (H : amountText reminderUnit "1" "" "h").
  { repeat split; try reflexivity; try discriminate.
    right. exists "h"%char. split; reflexivity. }
  split; [exact H|].
  destruct (parseReminder_minutes_method "1" "" "h" H) as (f & Hf & R).
  inversion Hf; subst f.
  destruct (R ltac:(vm_compute; discriminate)) as (R1 & R2).
  destruct (R2 "email" "x" eq_refl) as (R3 & R4).
  split; [exact R1|]. split; [exact R3|exact R4].
Defined.

Example parseReminder_30m :
  parseReminder "30m" = Return (mkReminder "popup" (Num 30)).
Proof. reflexivity. Qed.

Example parseReminder_1h_email :
  parseReminder "1h:email" = Return (mkReminder "email" (Num 60)).
Proof. reflexivity. Qed.

Example parseReminder_2d :
  parseReminder "2d" = Return (mkReminder "popup" (Num 2880)).
Proof. reflexivity. Qed.

(** ** parseDuration *)

(** C2: [parseDuration] on a bare ["0"]: the integer parse succeeds with 0
    minutes, and the result is the default 60 all the same, because
    [parseInt(duration) || 60] takes the parsed 0 for a failure.  With the
    unit written out, ["0m"], the same amount comes back as 0. *)
Theorem parseDuration_zero_defaults :
  parseInt "0" = Num 0 /\
  exec 1 re_hour "0" = None /\ exec 1 re_min "0" = None /\
  parseDuration "0" = Num 60 /\
  parseDuration "0m" = Num 0.
Proof. repeat split; reflexivity. Qed.

Example parseDuration_1h30m : parseDuration "1h30m" = Num 90.
Proof. reflexivity. Qed.
Example parseDuration_45m : parseDuration "45m" = Num 45.
Proof. reflexivity. Qed.
Example parseDuration_bogus : parseDuration "bogus" = Num 60.
Proof. reflexivity. Qed.
Example parseDuration_90 : parseDuration "90" = Num 90.
Proof. reflexivity. Qed.

(** ** The import mapper: start and end *)

Lemma mapTime_form zone (t : ICAL.Time) (r : EventDateTime) :
  mapTime zone (Some t) = Done r ->
  (ICAL.isDate t = true -> allDay r) /\ (ICAL.isDate t = false -> timed r).
Proof.
  unfold mapTime, bind.
  destruct (ICAL.isDate t); destruct (toISOString (ICAL.toJSDate t));
    intros H; inversion H; subst; clear H; unfold allDay, timed; simpl;
    repeat split; intros; try discriminate; auto.
Qed.

Lemma allDay_not_timed r : allDay r -> ~ timed r.
Proof. unfold allDay, timed. tauto. Qed.

Lemma mapRecord_times zone v e :
  mapRecord zone v = Done e ->
  mapTime zone (ICAL.startDate v) = Done (ev_start e) /\
  mapTime zone (ICAL.endDate v) = Done (ev_end e).
Proof.
  unfold mapRecord, bind.
  destruct (ICAL.construction v); [discriminate|].
  destruct (mapTime zone (ICAL.startDate v)); [|discriminate].
  destruct (mapTime zone (ICAL.endDate v)); [|discriminate].
  intros H. inversion H; subst. simpl. auto.
Qed.

(** C1, as stated, fails: a record with a date-only start and a timed end
    is mapped to an event with an all-day start and a timed end. *)
Lemma mapRecord_mixed_forms :
  mapRecord "America/New_York" mixedRecord =
    Done (mkGoogleEvent "Flight" None None
            (mkEventDateTime (Some "2026-11-01") None None)
            (mkEventDateTime None (Some "2026-11-01T10:00:00.000Z") (Some "Europe/Paris"))
            None None) /\
  ~ (forall zone v e, mapRecord zone v = Done e -> sameForm e).
Proof.
  assert (E : mapRecord "America/New_York" mixedRecord =
    Done (mkGoogleEvent "Flight" None None
            (mkEventDateTime (Some "2026-11-01") None None)
            (mkEventDateTime None (Some "2026-11-01T10:00:00.000Z") (Some "Europe/Paris"))
            None None)) by (vm_compute; reflexivity).
  split; [exact E|].
  intros H. specialize (H _ _ _ E).
  unfold sameForm, allDay, timed in H. simpl in H.
  clear E. destruct H as [(_ & Hd & _)|((Hd & _) & _)].
  - apply Hd. reflexivity.
  - discriminate Hd.
Qed.

(** C1, amended: the mapper takes the form of the start from the start and
    the form of the end from the end of the interchange record, all-day
    for a date and timed for a timestamp; so start and end have the same
    form exactly when the interchange record gives both as dates or both
    as timestamps. *)
Theorem mapRecord_forms zone v e (s en : ICAL.Time) :
  mapRecord zone v = Done e ->
  ICAL.startDate v = Some s ->
  ICAL.endDate v = Some en ->
  (if ICAL.isDate s then allDay (ev_start e) else timed (ev_start e)) /\
  (if ICAL.isDate en then allDay (ev_end e) else timed (ev_end e)) /\
  (sameForm e <-> ICAL.isDate s = ICAL.isDate en).
Proof.
  intros H Hs He.
  destruct (mapRecord_times zone v e H) as [H1 H2].
  rewrite Hs in H1. rewrite He in H2.
  destruct (mapTime_form zone s _ H1) as [Hs1 Hs2].
  destruct (mapTime_form zone en _ H2) as [He1 He2].
  pose proof (allDay_not_timed (ev_start e)) as Ns.
  pose proof (allDay_not_timed (ev_end e)) as Ne.
  unfold sameForm.
  destruct (ICAL.isDate s), (ICAL.isDate en);
    intuition (try discriminate; auto).
Qed.

Lemma mapRecord_forms_witness :
  mapRecord "America/New_York" mixedRecord =
    Done (mkGoogleEvent "Flight" None None
            (mkEventDateTime (Some "2026-11-01") None None)
            (mkEventDateTime None (Some "2026-11-01T10:00:00.000Z") (Some "Europe/Paris"))
            None None) /\
  allDay (mkEventDateTime (Some "2026-11-01") None None) /\
  timed (mkEventDateTime None (Some "2026-11-01T10:00:00.000Z") (Some "Europe/Paris")).
Proof.
  assert (E : mapRecord "America/New_York" mixedRecord =
    Done (mkGoogleEvent "Flight" None None
            (mkEventDateTime (Some "2026-11-01") None None)
            (mkEventDateTime None (Some "2026-11-01T10:00:00.000Z") (Some "Europe/Paris"))
            None None)) by (vm_compute; reflexivity).
  split; [exact E|].
  destruct (mapRecord_forms "America/New_York" mixedRecord _
              (ICAL.mkTime true (mkDate (Num 1793491200000)) None)
              (ICAL.mkTime false (mkDate (Num 1793527200000)) (Some "Europe/Paris"))
              E eq_refl eq_refl) as (H1 & H2 & _).
  split; [exact H1 | exact H2].
Defined.

(** ** The import mapper: attendees *)

Lemma replace_absent pat by_ s :
  contains pat s = false -> Str.replace pat by_ s = s.
Proof.
  induction s as [|c s IH]; simpl; intros H.
  - apply orb_false_iff in H. destruct H as [H _]. rewrite H. reflexivity.
  - apply orb_false_iff in H. destruct H as [H1 H2].
    rewrite H1, (IH H2). reflexivity.
Qed.

Lemma replace_mailto_prefix rest :
  Str.replace "mailto:" "" ("mailto:" ++ rest) = rest.
Proof. destruct rest; reflexivity. Qed.

(** C7, as stated, fails: the value does not start with [mailto:] and
    loses the [mailto:] inside it all the same, and the common name, given
    but empty, is left out. *)
Lemma mapAttendee_not_prefix_strip :
  mapAttendee oddAttendee = mkEventAttendee "cal:bob@example.com" None /\
  stripPrefix "mailto:" "cal:mailto:bob@example.com" = "cal:mailto:bob@example.com" /\
  cnOf (ICAL.cn oddAttendee) = Some "" /\
  ~ (forall att value,
       ICAL.getFirstValue att = ICAL.VString value ->
       mapAttendee att =
       mkEventAttendee (stripPrefix "mailto:" value) (cnOf (ICAL.cn att))).
Proof.
  repeat split; try reflexivity.
  intros H. specialize (H oddAttendee _ eq_refl).
  vm_compute in H. discriminate H.
Qed.

(** C7, amended: for an attendee whose value is a string, the email is the
    value without its leading [mailto:] when it starts with one and the
    value itself when [mailto:] does not occur in it; the display name is
    the common-name parameter, its first entry when it has several, and is
    left out when the parameter is absent or that entry is empty. *)
Theorem mapAttendee_email_name (att : ICAL.Property) (value : string) :
  ICAL.getFirstValue att = ICAL.VString value ->
  (forall rest, value = "mailto:" ++ rest -> email (mapAttendee att) = rest) /\
  (contains "mailto:" value = false -> email (mapAttendee att) = value) /\
  displayName (mapAttendee att) =
    match cnOf (ICAL.cn att) with
    | Some n => if String.eqb n "" then None else Some n
    | None => None
    end.
Proof.
  intros Hv. unfold mapAttendee. rewrite Hv. cbn [email displayName].
  repeat split.
  - intros rest ->. apply replace_mailto_prefix.
  - intros H. apply replace_absent. exact H.
  - unfold cnOf. destruct (ICAL.cn att) as [|n|l].
    + reflexivity.
    + destruct n; reflexivity.
    + destruct (nth_error l 0) as [[|c n]|]; reflexivity.
Qed.

Lemma mapAttendee_email_name_witness :
  mapAttendee (ICAL.mkProperty (ICAL.VString "mailto:bob@example.com")
                 (ICAL.PArray ["Bob"; "Robert"]))
  = mkEventAttendee "bob@example.com" (Some "Bob").
Proof.
  destruct (mapAttendee_email_name
              (ICAL.mkProperty (ICAL.VString "mailto:bob@example.com")
                 (ICAL.PArray ["Bob"; "Robert"]))
              "mailto:bob@example.com" eq_refl) as (H1 & _ & H3).
  specialize (H1 "bob@example.com" eq_refl).
  destruct (mapAttendee _) as [em dn]. simpl in *. subst. reflexivity.
Defined.

(** ** The import loop *)

Section BatchFacts.

Variable localZone : string.
Variable World : Type.
Variable post : World -> GoogleEvent -> World * fetched.

Lemma sorElse_unknown v : sorElse (ICAL.summary v) "unknown" = failureLabel v.
Proof.
  unfold failureLabel. destruct (ICAL.summary v) as [[|c s]|]; reflexivity.
Qed.

Lemma importLoop_created w vs w' es :
  Created localZone World post w vs w' es ->
  forall con res,
    importLoop localZone World post (mkImportState World w con res) vs =
    mkImportState World w' (con ++ List.map createdLine es)%list
      (mkImportResult (imported res + Z.of_nat (List.length es)) (errors res)).
Proof.
  induction 1 as [w|w v vs w1 w2 e es Hm Hc _ IH]; intros con res.
  - simpl. rewrite List.app_nil_r, Z.add_0_r. destruct res. reflexivity.
  - unfold importLoop in *. cbn [fold_left].
    unfold importOne at 2. rewrite Hm. cbn [world]. rewrite Hc.
    rewrite IH. cbn [console result imported errors List.map List.length].
    rewrite <- List.app_assoc. cbn [List.app].
    do 2 f_equal. lia.
Qed.

Lemma importLoop_app st (a b : list ICAL.Component) :
  importLoop localZone World post st (a ++ b)%list =
  importLoop localZone World post (importLoop localZone World post st a) b.
Proof. apply fold_left_app. Qed.

Lemma importLoop_cons st v (vs : list ICAL.Component) :
  importLoop localZone World post st (v :: vs) =
  importLoop localZone World post (importOne localZone World post st v) vs.
Proof. reflexivity. Qed.

Lemma Created_length w vs w' es :
  Created localZone World post w vs w' es -> List.length es = List.length vs.
Proof. induction 1; simpl; auto. Qed.

Lemma importOne_fails w v w' msg con res :
  FailsWith localZone World post w v w' msg ->
  importOne localZone World post (mkImportState World w con res) v =
  mkImportState World w' (con ++ [Err ("  ! Failed: " ++ failureLabel v)])%list
    (mkImportResult (imported res) (errors res ++ [(failureLabel v ++ ": " ++ msg)%string])%list).
Proof.
  intros [[Hm ->]|(e & Hm & Hc)]; unfold importOne; rewrite Hm.
  - unfold recordFailure. rewrite sorElse_unknown. reflexivity.
  - cbn [world]. rewrite Hc. unfold recordFailure. rewrite sorElse_unknown.
    reflexivity.
Qed.

(** C8: when one record of a batch fails to map or fails the create call
    and the others succeed, the batch goes on: the result counts all
    records but one as imported and holds the one error string, made of
    the failing record's summary (or [unknown]) and the message; the
    records before and after are created, in order. *)
Theorem importIcsFile_isolates_failure
    (w0 w1 w2 w3 : World) (before later : list ICAL.Component)
    (k : ICAL.Component) (es1 es2 : list GoogleEvent) (msg : string) :
  Created localZone World post w0 before w1 es1 ->
  FailsWith localZone World post w1 k w2 msg ->
  Created localZone World post w2 later w3 es2 ->
  let st := importIcsFile localZone World post w0 (Done (before ++ k :: later)%list) in
  imported (result World st) = Z.of_nat (List.length (before ++ k :: later)%list) - 1 /\
  errors (result World st) = [failureLabel k ++ ": " ++ msg] /\
  world World st = w3 /\
  exists found,
    console World st =
      (Out found :: List.map createdLine es1
        ++ Err ("  ! Failed: " ++ failureLabel k) :: List.map createdLine es2)%list.
Proof.
  intros H1 Hk H2. cbv zeta.
  unfold importIcsFile. cbn [result].
  rewrite importLoop_app, importLoop_cons.
  rewrite (importLoop_created _ _ _ _ H1).
  rewrite (importOne_fails _ _ _ _ _ _ Hk).
  rewrite (importLoop_created _ _ _ _ H2).
  cbn [result imported errors world console].
  rewrite List.length_app. cbn [List.length].
  rewrite (Created_length _ _ _ _ H1), (Created_length _ _ _ _ H2).
  repeat split.
  - lia.
  - eexists. cbn [List.app]. rewrite <- List.app_assoc. reflexivity.
Qed.

End BatchFacts.

Lemma importIcsFile_isolates_failure_witness :
  let st := importIcsFile "UTC" (list GoogleEvent) demoPost []
              (Done [plainRecord "First"; brokenRecord; plainRecord "Last"]) in
  imported (result _ st) = 2 /\
  errors (result _ st) = ["Broken: Invalid time value"] /\
  world _ st = [plainEvent "First"; plainEvent "Last"].
Proof.
  destruct (importIcsFile_isolates_failure "UTC" (list GoogleEvent) demoPost
              [] [plainEvent "First"] [plainEvent "First"]
              [plainEvent "First"; plainEvent "Last"]
              [plainRecord "First"] [plainRecord "Last"] brokenRecord
              [plainEvent "First"] [plainEvent "Last"] "Invalid time value")
    as (H1 & H2 & H3 & _).
  - econstructor; [reflexivity | reflexivity | constructor].
  - left. split; reflexivity.
  - econstructor; [reflexivity | reflexivity | constructor].
  - cbv zeta. split; [exact H1 | split; [exact H2 | exact H3]].
Defined.

(** A failing create call is isolated in the same way. *)
Example importIcsFile_blocked :
  let st := importIcsFile "UTC" (list GoogleEvent) demoPost []
              (Done [plainRecord "First"; plainRecord "Blocked"; plainRecord "Last"]) in
  imported (result _ st) = 2 /\
  errors (result _ st) = ["Blocked: Failed to create event: 403 Forbidden"] /\
  world _ st = [plainEvent "First"; plainEvent "Last"].
Proof. vm_compute. repeat split. Qed.

(** ** Zones *)

Lemma zone_bounds tza t b : zoneOK tza -> - msPerDay <= tza t b <= msPerDay.
Proof. intros [H _]. apply H. Qed.

Lemma zone_minutes tza t b t' b' :
  zoneOK tza -> exists q, tza t b - tza t' b' = q * msPerMinute.
Proof.
  intros [_ H]. exists ((tza t b - tza t' b') / msPerMinute).
  specialize (H t b t' b').
  pose proof (Z.div_mod (tza t b - tza t' b') msPerMinute
                ltac:(unfold msPerMinute; lia)). lia.
Qed.

Lemma fixedZone_OK offset :
  - msPerDay <= offset <= msPerDay -> zoneOK (fixedZone offset).
Proof.
  intros H. split; unfold fixedZone; intros; [exact H|].
  rewrite Z.sub_diag. reflexivity.
Qed.

Lemma eastern_OK : zoneOK eastern.
Proof.
  split; unfold eastern; cbv zeta; intros.
  - destruct b; match goal with |- context [if ?c then _ else _] => destruct c end;
      unfold msPerDay, msPerHour; lia.
  - destruct b, b';
      repeat match goal with |- context [if ?c then _ else _] => destruct c end;
      reflexivity.
Qed.

(** In a zone without transitions every local reading occurs, and the
    instant of a reading lies its offset away. *)
Lemma fixedZone_occurs offset x : occurs (fixedZone offset) x.
Proof. unfold occurs, LocalTime, UTC, fixedZone. lia. Qed.

Lemma occurs_keepsDay tza x : occurs tza x -> keepsDay tza x.
Proof. unfold occurs, keepsDay. intros ->. reflexivity. Qed.

(** ** Dates on the minute *)

Lemma TimeClip_ok x : - maxTime <= x <= maxTime -> TimeClip x = Num x.
Proof.
  intros H. unfold TimeClip.
  destruct (Z.leb_spec (Z.abs x) maxTime); [reflexivity | lia].
Qed.

Lemma reading_value D h m :
  MakeDate D (MakeTime h m 0 0) = D * msPerDay + h * msPerHour + m * msPerMinute.
Proof. unfold MakeDate, MakeTime, msPerSecond. lia. Qed.

Lemma stamp_local tza D h m :
  occurs tza (reading D h m) ->
  LocalTime tza (UTC tza (MakeDate D (MakeTime h m 0 0)))
  = D * msPerDay + h * msPerHour + m * msPerMinute.
Proof. unfold occurs, reading. intros ->. apply reading_value. Qed.

(** The seconds and milliseconds of a date made on the minute are zero,
    whatever the zone does to the hour. *)
Lemma stamp_seconds tza D h m :
  zoneOK tza ->
  getSeconds tza (stamp tza D h m) = Num 0 /\
  getMilliseconds tza (stamp tza D h m) = Num 0.
Proof.
  intros Hz.
  unfold getSeconds, getMilliseconds, getter, stamp. cbn [timeValue].
  remember (MakeDate D (MakeTime h m 0 0)) as x eqn:Ex.
  rewrite reading_value in Ex.
  destruct (zone_minutes tza (UTC tza x) true x false Hz) as (q & Hq).
  assert (E : LocalTime tza (UTC tza x) = (D * 1440 + h * 60 + m + q) * 60 * 1000).
  { unfold LocalTime, UTC in *.
    unfold msPerDay, msPerHour, msPerMinute in *. lia. }
  rewrite E. unfold SecFromTime, msFromTime, msPerSecond.
  split; f_equal.
  - rewrite Z.div_mul by lia. apply Z.mod_mul. lia.
  - apply Z.mod_mul. lia.
Qed.

Lemma stamp_hours_minutes tza D h m :
  occurs tza (reading D h m) -> 0 <= m ->
  getHours tza (stamp tza D h m) = Num ((h + m / 60) mod 24) /\
  getMinutes tza (stamp tza D h m) = Num (m mod 60).
Proof.
  intros Ho Hm.
  unfold getHours, getMinutes, getter, stamp. cbn [timeValue].
  rewrite stamp_local by exact Ho.
  unfold HourFromTime, MinFromTime, msPerDay, msPerHour, msPerMinute.
  split; f_equal.
  - replace (D * 86400000 + h * 3600000 + m * 60000)
      with (m * 60000 + (D * 24 + h) * 3600000) by lia.
    rewrite Z.div_add by lia.
    replace 3600000 with (60000 * 60) by lia.
    rewrite <- Z.div_div by lia. rewrite Z.div_mul by lia.
    replace (m / 60 + (D * 24 + h)) with (h + m / 60 + D * 24) by lia.
    apply Z.mod_add. lia.
  - replace (D * 86400000 + h * 3600000 + m * 60000)
      with ((m + (D * 24 + h) * 60) * 60000) by lia.
    rewrite Z.div_mul by lia. apply Z.mod_add. lia.
Qed.

Lemma hour12_nonneg H mer : 0 <= H -> 0 <= hour12 H mer <= H + 12.
Proof.
  intros HH. unfold hour12.
  destruct (optEq mer "pm" && (H <? 12)); [lia|].
  destruct (optEq mer "am" && (H =? 12)); lia.
Qed.


(** ** Dates within the range of the platform *)

Lemma Day_nearby t : nearby t -> -1000000 <= Day t <= 4000000.
Proof.
  unfold nearby, Day, msPerDay. intros H.
  split.
  - apply Z.div_le_lower_bound; lia.
  - apply Z.div_le_upper_bound; lia.
Qed.

Lemma clock_day tza clock :
  zoneOK tza -> clockOK clock -> -2 <= Day (LocalTime tza clock) <= 2932912.
Proof.
  intros Hz Hc. pose proof (zone_bounds tza clock true Hz) as Hb.
  unfold clockOK, LocalTime, Day, msPerDay in *.
  split.
  - apply Z.div_le_lower_bound; lia.
  - apply Z.div_le_upper_bound; lia.
Qed.

Lemma Day_MakeDate D : Day (MakeDate D 0) = D.
Proof.
  unfold Day, MakeDate. rewrite Z.add_0_r. apply Z.div_mul. unfold msPerDay. lia.
Qed.

Lemma stamp_valid tza D h m :
  zoneOK tza -> -1000000 <= D <= 4000000 -> 0 <= h <= 200 -> 0 <= m <= 100 ->
  TimeClip (UTC tza (MakeDate D (MakeTime h m 0 0)))
  = Num (UTC tza (MakeDate D (MakeTime h m 0 0))).
Proof.
  intros Hz HD Hh Hm. apply TimeClip_ok.
  pose proof (zone_bounds tza (MakeDate D (MakeTime h m 0 0)) false Hz) as Hb.
  unfold UTC. rewrite reading_value in *.
  unfold maxTime, msPerDay, msPerHour, msPerMinute in *.
  lia.
Qed.

Lemma setHours_stamp tza t h m :
  zoneOK tza -> nearby (LocalTime tza t) -> 0 <= h <= 200 -> 0 <= m <= 100 ->
  setHours tza (mkDate (Num t)) (Num h) (Num m) (Num 0) (Num 0)
  = stamp tza (Day (LocalTime tza t)) h m.
Proof.
  intros Hz Ht Hh Hm. unfold setHours, stamp. cbn [timeValue].
  f_equal. apply stamp_valid; auto.
  pose proof (Day_nearby _ Ht). lia.
Qed.

(** A local reading within the years of the patterns, taken to its
    instant and read back, is far inside the range. *)
Lemma reading_nearby tza x :
  zoneOK tza -> -900001 * msPerDay <= x <= 3900001 * msPerDay ->
  TimeClip (UTC tza x) = Num (UTC tza x) /\ nearby (LocalTime tza (UTC tza x)).
Proof.
  intros Hz Hx.
  pose proof (zone_bounds tza x false Hz) as Hb1.
  pose proof (zone_bounds tza (UTC tza x) true Hz) as Hb2.
  split.
  - apply TimeClip_ok. unfold UTC, maxTime, msPerDay in *. lia.
  - unfold nearby, LocalTime, UTC, msPerDay in *. lia.
Qed.

(** [setHours] on the date made at midnight of day [D]: the day is the one
    on which the zone shows that instant. *)
Lemma setHours_of_stamp tza D h m :
  zoneOK tza -> -900000 <= D <= 3900000 -> 0 <= h <= 200 -> 0 <= m <= 100 ->
  setHours tza (stamp tza D 0 0) (Num h) (Num m) (Num 0) (Num 0)
  = stamp tza (Day (LocalTime tza (UTC tza (MakeDate D 0)))) h m.
Proof.
  intros Hz HD Hh Hm. unfold stamp at 1.
  change (MakeTime 0 0 0 0) with 0.
  apply setHours_stamp; auto.
  apply reading_nearby; auto. unfold MakeDate, msPerDay. lia.
Qed.

Lemma copy_newDate clock : clockOK clock -> copy (newDate clock) = mkDate (Num clock).
Proof.
  intros Hc. unfold copy, newDate. cbn [timeValue].
  rewrite TimeClip_ok; [reflexivity|]. unfold clockOK, maxTime in *. lia.
Qed.

Lemma Day_today tza clock :
  zoneOK tza -> clockOK clock -> nearby (LocalTime tza clock).
Proof.
  intros Hz Hc. pose proof (zone_bounds tza clock true Hz) as Hb.
  unfold clockOK, nearby, LocalTime, msPerDay in *. lia.
Qed.

(** The date [k] days after the clock, at the same local time of day. *)
Lemma later_valid tza clock k :
  zoneOK tza -> clockOK clock -> 0 <= k <= 13 ->
  atLocal tza (LocalTime tza clock + k * msPerDay)
  = mkDate (Num (UTC tza (LocalTime tza clock + k * msPerDay))) /\
  nearby (LocalTime tza (UTC tza (LocalTime tza clock + k * msPerDay))).
Proof.
  intros Hz Hc Hk.
  pose proof (zone_bounds tza clock true Hz) as Hb.
  destruct (reading_nearby tza (LocalTime tza clock + k * msPerDay) Hz) as [E N].
  { unfold clockOK, LocalTime, msPerDay in *. lia. }
  split; [|exact N]. unfold atLocal. rewrite E. reflexivity.
Qed.

Lemma monthStart_range leap m : 0 <= leap <= 1 -> 0 <= monthStart leap m <= 335.
Proof.
  intros H. unfold monthStart.
  repeat match goal with
    | |- context [Z.leb ?x ?y] => destruct (Z.leb x y)
    | |- context [Z.eqb ?x ?y] => destruct (Z.eqb x y)
    end; lia.
Qed.

Lemma InLeapYearOf_range y : 0 <= InLeapYearOf y <= 1.
Proof. unfold InLeapYearOf. destruct (isLeapYear y); lia. Qed.

Lemma DayFromYear_range y :
  -10 <= y <= 10020 -> -750000 <= DayFromYear y <= 3000000.
Proof.
  intros H. unfold DayFromYear.
  pose proof (Z.div_mod (y - 1969) 4 ltac:(lia)).
  pose proof (Z.mod_pos_bound (y - 1969) 4 ltac:(lia)).
  pose proof (Z.div_mod (y - 1901) 100 ltac:(lia)).
  pose proof (Z.mod_pos_bound (y - 1901) 100 ltac:(lia)).
  pose proof (Z.div_mod (y - 1601) 400 ltac:(lia)).
  pose proof (Z.mod_pos_bound (y - 1601) 400 ltac:(lia)).
  lia.
Qed.

Lemma MakeDay_range y m dt :
  0 <= y <= 10001 -> -1 <= m <= 99 -> 0 <= dt <= 99 ->
  -900000 <= MakeDay y m dt <= 3900000.
Proof.
  intros Hy Hm Hd. unfold MakeDay.
  pose proof (Z.div_mod m 12 ltac:(lia)).
  pose proof (Z.mod_pos_bound m 12 ltac:(lia)).
  pose proof (DayFromYear_range (y + m / 12) ltac:(lia)).
  pose proof (monthStart_range (InLeapYearOf (y + m / 12)) (m mod 12)
                (InLeapYearOf_range _)).
  lia.
Qed.

Lemma YearFromDay_range d : -2 <= d <= 2932912 -> 0 <= YearFromDay d <= 10001.
Proof.
  intros H. unfold YearFromDay. cbv zeta.
  pose proof (Z.div_mod (d + 719162) 146097 ltac:(lia)).
  pose proof (Z.mod_pos_bound (d + 719162) 146097 ltac:(lia)).
  set (q400 := (d + 719162) / 146097) in *.
  set (r400 := (d + 719162) mod 146097) in *.
  pose proof (Z.div_mod r400 36524 ltac:(lia)).
  pose proof (Z.mod_pos_bound r400 36524 ltac:(lia)).
  set (q100 := Z.min (r400 / 36524) 3).
  assert (0 <= q100 <= 3) by (unfold q100; lia).
  assert (0 <= r400 - q100 * 36524 <= 146096) by (unfold q100; lia).
  set (r100 := r400 - q100 * 36524) in *.
  pose proof (Z.div_mod r100 1461 ltac:(lia)).
  pose proof (Z.mod_pos_bound r100 1461 ltac:(lia)).
  pose proof (Z.div_mod (r100 mod 1461) 365 ltac:(lia)).
  pose proof (Z.mod_pos_bound (r100 mod 1461) 365 ltac:(lia)).
  assert (0 <= Z.min (r100 mod 1461 / 365) 3 <= 3) by lia.
  lia.
Qed.

Lemma WeekDay_range t : 0 <= WeekDay t <= 6.
Proof.
  unfold WeekDay. pose proof (Z.mod_pos_bound (Day t + 4) 7 ltac:(lia)). lia.
Qed.

Lemma findIndexFrom_range {A} (p : A -> bool) l :
  forall i, exists r, findIndexFrom p l i = Num r /\
                      (r = -1 \/ i <= r < i + Z.of_nat (List.length l)).
Proof.
  induction l as [|x l IH]; intros i; simpl.
  - exists (-1). auto.
  - destruct (p x).
    + exists i. split; auto. right. lia.
    + destruct (IH (i + 1)) as (r & E & Hr). exists r. split; auto.
      destruct Hr; [auto | right; lia].
Qed.

(** ** The captures of the date and time patterns *)

(** The body of the group behind a capture of an anchored match. *)
Ltac cap_body H Hc HL :=
  let body := fresh "body" in
  let Hin := fresh "Hin" in
  match type of Hc with
  | getCap ?j _ = Some ?txt =>
      destruct (exec_cap_lang _ _ _ _ j txt H ltac:(lia) Hc) as (body & Hin & HL);
      simpl in Hin;
      repeat (destruct Hin as [Hin|Hin]; [inversion Hin; subst; clear Hin|]);
      try contradiction
  end.

Lemma hour_text n hh :
  InLang n digits_1_2 hh ->
  parseInt hh = Num (decValue hh) /\ 0 <= decValue hh <= 99.
Proof.
  intros HL. apply lang_digits_1_2 in HL. destruct HL as [Hd Hlen].
  destruct (parseInt_digits_bound hh 2 Hd Hlen) as (v & E & Hv).
  assert (Hne : hh <> "") by (destruct hh; simpl in Hlen; [lia | discriminate]).
  rewrite parseInt_digits in E by auto. inversion E; subst v.
  split; [apply parseInt_digits; auto|].
  change (10 ^ Z.of_nat 2) with 100 in Hv. lia.
Qed.

Lemma year_text n yy :
  InLang n digits_4 yy ->
  yy <> "" /\ parseInt yy = Num (decValue yy) /\ 0 <= decValue yy <= 9999.
Proof.
  intros HL. apply lang_digits_4 in HL. destruct HL as [Hd Hlen].
  assert (Hne : yy <> "") by (destruct yy; simpl in Hlen; [lia | discriminate]).
  destruct (parseInt_digits_bound yy 4 Hd ltac:(lia)) as (v & E & Hv).
  rewrite parseInt_digits in E by auto. inversion E; subst v.
  split; [auto|]. split; [apply parseInt_digits; auto|].
  change (10 ^ Z.of_nat 4) with 10000 in Hv. lia.
Qed.

Lemma two_digit_text n mm :
  InLang n digits_2 mm ->
  mm <> "" /\ parseInt mm = Num (decValue mm) /\ 0 <= decValue mm <= 99.
Proof.
  intros HL. apply lang_digits_2 in HL. destruct HL as [Hd Hlen].
  assert (Hne : mm <> "") by (destruct mm; simpl in Hlen; [lia | discriminate]).
  destruct (parseInt_digits_bound mm 2 Hd ltac:(lia)) as (v & E & Hv).
  rewrite parseInt_digits in E by auto. inversion E; subst v.
  split; [auto|]. split; [apply parseInt_digits; auto|].
  change (10 ^ Z.of_nat 2) with 100 in Hv. lia.
Qed.

Lemma minute_text n (c : option string) :
  (forall mm, c = Some mm -> InLang n digits_2 mm) ->
  parseInt (sorElse c "0") = Num (minuteOf c) /\ 0 <= minuteOf c <= 99.
Proof.
  intros H. destruct c as [mm|].
  - destruct (two_digit_text n mm (H mm eq_refl)) as (Hne & E & Hb).
    destruct mm; [congruence|]. simpl sorElse. simpl minuteOf. auto.
  - split; [reflexivity | simpl; lia].
Qed.

Lemma optEq_pm_am mer : optEq mer "pm" = true -> optEq mer "am" = false.
Proof.
  destruct mer as [s|]; simpl; [|discriminate].
  intros H. apply String.eqb_eq in H. subst. reflexivity.
Qed.

Lemma meridiem_hour12 mer H : meridiem mer (Num H) = Num (hour12 H mer).
Proof.
  unfold meridiem, hour12. cbv zeta. cbn [nlt].
  destruct (optEq mer "pm") eqn:Epm.
  - rewrite (optEq_pm_am mer Epm). cbn [andb].
    destruct (H <? 12); cbn [nadd]; reflexivity.
  - cbn [andb nseq]. destruct (optEq mer "am" && (H =? 12)); reflexivity.
Qed.

(** The last statement of the rules with a time: [d.setHours(h, min, 0, 0)]. *)
Lemma setHours_rule tza t mer hh (c : option string) n :
  zoneOK tza -> nearby (LocalTime tza t) ->
  InLang n digits_1_2 hh ->
  (forall mm, c = Some mm -> InLang n digits_2 mm) ->
  setHours tza (mkDate (Num t)) (meridiem mer (parseInt hh))
    (parseInt (sorElse c "0")) (Num 0) (Num 0)
  = stamp tza (Day (LocalTime tza t)) (hour12 (decValue hh) mer) (minuteOf c).
Proof.
  intros Hz Ht Hh Hc.
  destruct (hour_text n hh Hh) as [Eh Hb].
  destruct (minute_text n c Hc) as [Em Hm].
  rewrite Eh, Em, meridiem_hour12.
  pose proof (hour12_nonneg (decValue hh) mer ltac:(lia)).
  apply setHours_stamp; auto; lia.
Qed.

(** ** The rules of parseDateTime, one by one *)

Lemma relRule_spec tza clock lower m :
  zoneOK tza -> clockOK clock ->
  exec 4 re_rel lower = Some m ->
  exists D,
    relRule tza (newDate clock) lower
    = Some (stamp tza D (hour12 (decValue (group 2 m)) (optLower (getCap 4 m)))
              (minuteOf (getCap 3 m))) /\
    0 <= decValue (group 2 m) <= 99 /\ 0 <= minuteOf (getCap 3 m) <= 99.
Proof.
  intros Hz Hc H.
  pose proof H as Hx. unfold re_rel in Hx. cbn [seq] in Hx.
  destruct (exec_cap_defined _ _ _ _ 2 Hx ltac:(lia) eq_refl) as (hh & Hhh).
  pose proof Hhh as Hhh'. cap_body Hx Hhh' HL.
  assert (Hmm : forall mm, getCap 3 m = Some mm -> InLang (length lower) digits_2 mm).
  { intros mm Hmm. cap_body Hx Hmm HLm. exact HLm. }
  unfold relRule. rewrite H. unfold group. rewrite Hhh.
  rewrite copy_newDate by auto.
  destruct (hour_text _ _ HL) as [_ Hb].
  destruct (minute_text _ _ Hmm) as [_ Hmb].
  destruct (String.eqb _ "tomorrow").
  - rewrite setDate_getDate.
    destruct (later_valid tza clock 1 Hz Hc ltac:(lia)) as [-> N].
    eexists. split; [|split; assumption].
    f_equal. eapply setHours_rule; eauto.
  - eexists. split; [|split; assumption].
    f_equal. eapply setHours_rule; eauto.
    apply Day_today; auto.
Qed.

Lemma group_cap j m t : getCap j m = Some t -> group j m = t.
Proof. unfold group. intros ->. reflexivity. Qed.

Lemma dayRule_spec tza clock lower m :
  zoneOK tza -> clockOK clock ->
  exec 5 re_day lower = Some m ->
  exists D,
    dayRule tza (newDate clock) lower
    = Some (stamp tza D (hour12 (decValue (group 3 m)) (optLower (getCap 5 m)))
              (minuteOf (getCap 4 m))) /\
    0 <= decValue (group 3 m) <= 99 /\ 0 <= minuteOf (getCap 4 m) <= 99.
Proof.
  intros Hz Hc H.
  pose proof H as Hx. unfold re_day in Hx. cbn [seq] in Hx.
  destruct (exec_cap_defined _ _ _ _ 3 Hx ltac:(lia) eq_refl) as (hh & Hhh).
  pose proof Hhh as Hhh'. cap_body Hx Hhh' HL.
  assert (Hmm : forall mm, getCap 4 m = Some mm -> InLang (length lower) digits_2 mm).
  { intros mm Hmm. cap_body Hx Hmm HLm. exact HLm. }
  unfold dayRule. rewrite H. rewrite !(group_cap _ _ _ Hhh).
  rewrite copy_newDate by auto.
  destruct (hour_text _ _ HL) as [_ Hb].
  destruct (minute_text _ _ Hmm) as [_ Hmb].
  unfold indexOf, findIndex.
  destruct (findIndexFrom_range (String.eqb (Str.toLowerCase (group 2 m))) weekdays 0)
    as (r & Er & Hr).
  rewrite Er. unfold getDay, getter. cbn [timeValue nsub].
  pose proof (WeekDay_range (LocalTime tza clock)) as Hw.
  change (Z.of_nat (List.length weekdays)) with 7 in Hr.
  set (wd := WeekDay (LocalTime tza clock)) in *.
  assert (Hk : exists k,
    (if nle (Num (r - wd)) (Num 0) || negb (String.eqb (sorElse (getCap 1 m) "") "")
     then nadd (Num (r - wd)) (Num 7) else Num (r - wd)) = Num k /\ 0 <= k <= 13).
  { cbn [nle nadd]. destruct (Z.leb_spec (r - wd) 0).
    - cbn [orb]. exists (r - wd + 7). split; [reflexivity | lia].
    - cbn [orb]. destruct (negb _).
      + exists (r - wd + 7). split; [reflexivity | lia].
      + exists (r - wd). split; [reflexivity | lia]. }
  destruct Hk as (k & Ek & Hk). rewrite Ek.
  rewrite setDate_getDate.
  destruct (later_valid tza clock k Hz Hc Hk) as [-> N].
  eexists. split; [|split; assumption].
  f_equal. eapply setHours_rule; eauto.
Qed.

Lemma ampmRule_spec tza clock lower m :
  zoneOK tza -> clockOK clock ->
  exec 3 re_ampm lower = Some m ->
  exists D,
    ampmRule tza (newDate clock) lower
    = Some (stamp tza D (hour12 (decValue (group 1 m)) (getCap 3 m))
              (minuteOf (getCap 2 m))) /\
    0 <= decValue (group 1 m) <= 99 /\ 0 <= minuteOf (getCap 2 m) <= 99.
Proof.
  intros Hz Hc H.
  pose proof H as Hx. unfold re_ampm in Hx. cbn [seq] in Hx.
  destruct (exec_cap_defined _ _ _ _ 1 Hx ltac:(lia) eq_refl) as (hh & Hhh).
  pose proof Hhh as Hhh'. cap_body Hx Hhh' HL.
  assert (Hmm : forall mm, getCap 2 m = Some mm -> InLang (length lower) digits_2 mm).
  { intros mm Hmm. cap_body Hx Hmm HLm. exact HLm. }
  unfold ampmRule. rewrite H. unfold group. rewrite Hhh.
  rewrite copy_newDate by auto.
  destruct (hour_text _ _ HL) as [_ Hb].
  destruct (minute_text _ _ Hmm) as [_ Hmb].
  eexists. split; [|split; assumption].
  f_equal. eapply setHours_rule; eauto.
  apply Day_today; auto.
Qed.

Lemma timeRule_spec tza clock input m :
  zoneOK tza -> clockOK clock ->
  exec 2 re_timeOnly input = Some m ->
  exists D,
    timeRule tza (newDate clock) input
    = Some (stamp tza D (decValue (group 1 m)) (decValue (group 2 m))).
Proof.
  intros Hz Hc H.
  pose proof H as Hx. unfold re_timeOnly in Hx. cbn [seq] in Hx.
  destruct (exec_cap_defined _ _ _ _ 1 Hx ltac:(lia) eq_refl) as (hh & Hhh).
  destruct (exec_cap_defined _ _ _ _ 2 Hx ltac:(lia) eq_refl) as (mm & Hmm).
  pose proof Hhh as Hhh'. cap_body Hx Hhh' HL.
  pose proof Hmm as Hmm'. cap_body Hx Hmm' HLm.
  unfold timeRule. rewrite H. unfold group. rewrite Hhh, Hmm.
  rewrite copy_newDate by auto.
  destruct (hour_text _ _ HL) as [Eh Hb].
  destruct (two_digit_text _ _ HLm) as (_ & Em & Hmb).
  rewrite Eh, Em.
  eexists. f_equal. apply setHours_stamp; auto; try lia.
  apply Day_today; auto.
Qed.

(** [new Date(year, month, date, hours, minutes)] on fields within the
    reach of the patterns. *)
Lemma ofFields_stamp tza y mo dt h mi :
  zoneOK tza -> 0 <= y <= 10001 -> -1 <= mo <= 99 -> 0 <= dt <= 99 ->
  0 <= h <= 200 -> 0 <= mi <= 100 ->
  exists D, -900000 <= D <= 3900000 /\
    ofFields tza (Num y) (Num mo) (Num dt) (Num h) (Num mi) = stamp tza D h mi.
Proof.
  intros Hz Hy Hmo Hdt Hh Hmi. unfold ofFields.
  set (yr := if (0 <=? y) && (y <=? 99) then 1900 + y else y).
  assert (Hyr : 0 <= yr <= 10001).
  { unfold yr. destruct ((0 <=? y) && (y <=? 99)) eqn:E; [|lia].
    apply andb_true_iff in E. destruct E as [E1 E2].
    apply Z.leb_le in E1, E2. lia. }
  pose proof (MakeDay_range yr mo dt Hyr Hmo Hdt) as HD.
  exists (MakeDay yr mo dt). split; [exact HD|].
  unfold stamp. f_equal. apply stamp_valid; auto. lia.
Qed.

Lemma isInvalid_stamp tza D h m : isInvalid (stamp tza D h m) = false.
Proof. reflexivity. Qed.

Lemma dateTimeRule_spec tza input m :
  zoneOK tza ->
  exec 5 re_dateTime input = Some m ->
  exists D h mi, dateTimeRule tza input = Some (stamp tza D h mi).
Proof.
  intros Hz H.
  pose proof H as Hx. unfold re_dateTime in Hx. cbn [seq] in Hx.
  destruct (exec_cap_defined _ _ _ _ 1 Hx ltac:(lia) eq_refl) as (c1 & H1).
  destruct (exec_cap_defined _ _ _ _ 2 Hx ltac:(lia) eq_refl) as (c2 & H2).
  destruct (exec_cap_defined _ _ _ _ 3 Hx ltac:(lia) eq_refl) as (c3 & H3).
  destruct (exec_cap_defined _ _ _ _ 4 Hx ltac:(lia) eq_refl) as (c4 & H4).
  destruct (exec_cap_defined _ _ _ _ 5 Hx ltac:(lia) eq_refl) as (c5 & H5).
  pose proof H1 as H1'. cap_body Hx H1' L1.
  pose proof H2 as H2'. cap_body Hx H2' L2.
  pose proof H3 as H3'. cap_body Hx H3' L3.
  pose proof H4 as H4'. cap_body Hx H4' L4.
  pose proof H5 as H5'. cap_body Hx H5' L5.
  unfold dateTimeRule. rewrite H. unfold group. rewrite H1, H2, H3, H4, H5.
  destruct (hour_text _ _ L1) as [E1 B1].
  destruct (hour_text _ _ L2) as [E2 B2].
  destruct (year_text _ _ L3) as (_ & E3 & B3).
  destruct (hour_text _ _ L4) as [E4 B4].
  destruct (two_digit_text _ _ L5) as (_ & E5 & B5).
  rewrite E1, E2, E3, E4, E5. cbn [nsub].
  destruct (ofFields_stamp tza (decValue c3) (decValue c1 - 1) (decValue c2)
              (decValue c4) (decValue c5)) as (D & _ & ->); auto; try lia.
  rewrite isInvalid_stamp. cbn [negb]. eauto.
Qed.

Lemma isoDateTimeRule_spec tza input m :
  zoneOK tza ->
  exec 5 re_isoDateTime input = Some m ->
  exists D h mi, isoDateTimeRule tza input = Some (stamp tza D h mi).
Proof.
  intros Hz H.
  pose proof H as Hx. unfold re_isoDateTime in Hx. cbn [seq] in Hx.
  destruct (exec_cap_defined _ _ _ _ 1 Hx ltac:(lia) eq_refl) as (c1 & H1).
  destruct (exec_cap_defined _ _ _ _ 2 Hx ltac:(lia) eq_refl) as (c2 & H2).
  destruct (exec_cap_defined _ _ _ _ 3 Hx ltac:(lia) eq_refl) as (c3 & H3).
  destruct (exec_cap_defined _ _ _ _ 4 Hx ltac:(lia) eq_refl) as (c4 & H4).
  destruct (exec_cap_defined _ _ _ _ 5 Hx ltac:(lia) eq_refl) as (c5 & H5).
  pose proof H1 as H1'. cap_body Hx H1' L1.
  pose proof H2 as H2'. cap_body Hx H2' L2.
  pose proof H3 as H3'. cap_body Hx H3' L3.
  pose proof H4 as H4'. cap_body Hx H4' L4.
  pose proof H5 as H5'. cap_body Hx H5' L5.
  unfold isoDateTimeRule. rewrite H. unfold group. rewrite H1, H2, H3, H4, H5.
  destruct (year_text _ _ L1) as (_ & E1 & B1).
  destruct (hour_text _ _ L2) as [E2 B2].
  destruct (hour_text _ _ L3) as [E3 B3].
  destruct (hour_text _ _ L4) as [E4 B4].
  destruct (two_digit_text _ _ L5) as (_ & E5 & B5).
  rewrite E1, E2, E3, E4, E5. cbn [nsub].
  destruct (ofFields_stamp tza (decValue c1) (decValue c2 - 1) (decValue c3)
              (decValue c4) (decValue c5)) as (D & _ & ->); auto; try lia.
  rewrite isInvalid_stamp. cbn [negb]. eauto.
Qed.

Lemma monthRule_spec tza clock lower m :
  zoneOK tza -> clockOK clock ->
  exec 6 re_month lower = Some m ->
  exists D h mi,
    monthRule tza (newDate clock) lower = Some (stamp tza D h mi) /\
    (forall hh, getCap 4 m = Some hh ->
       h = hour12 (decValue hh) (optLower (getCap 6 m)) /\
       mi = minuteOf (getCap 5 m) /\
       0 <= decValue hh <= 99 /\ 0 <= minuteOf (getCap 5 m) <= 99) /\
    (getCap 4 m = None -> h = 0 /\ mi = 0).
Proof.
  intros Hz Hc H.
  pose proof H as Hx. unfold re_month in Hx. cbn [seq] in Hx.
  destruct (exec_cap_defined _ _ _ _ 2 Hx ltac:(lia) eq_refl) as (dd & Hdd).
  pose proof Hdd as Hdd'. cap_body Hx Hdd' Ld.
  assert (Hyy : forall yy, getCap 3 m = Some yy -> InLang (length lower) digits_4 yy).
  { intros yy Hyy. cap_body Hx Hyy HLy. exact HLy. }
  assert (Hhh : forall hh, getCap 4 m = Some hh -> InLang (length lower) digits_1_2 hh).
  { intros hh Hhh. cap_body Hx Hhh HLh. exact HLh. }
  assert (Hmm : forall mm, getCap 5 m = Some mm -> InLang (length lower) digits_2 mm).
  { intros mm Hmm. cap_body Hx Hmm HLm. exact HLm. }
  unfold monthRule. rewrite H. rewrite (group_cap _ _ _ Hdd).
  destruct (hour_text _ _ Ld) as [Ed Bd]. rewrite Ed.
  unfold findIndex.
  destruct (findIndexFrom_range
              (fun m' => Str.startsWith m' (Str.toLowerCase (group 1 m))) months 0)
    as (r & Er & Hr).
  rewrite Er. change (Z.of_nat (List.length months)) with 12 in Hr.
  assert (Hy : exists y,
    parseInt (sorElse (getCap 3 m) (numberToString (getFullYear tza (newDate clock))))
    = Num y /\ 0 <= y <= 10001).
  { destruct (getCap 3 m) as [yy|] eqn:Ey.
    - destruct (year_text _ _ (Hyy yy eq_refl)) as (Hne & E & B).
      destruct yy as [|c yy]; [congruence|]. cbn [sorElse].
      exists (decValue (String c yy)). split; [exact E | lia].
    - cbn [sorElse]. unfold getFullYear, getter, newDate. cbn [timeValue].
      rewrite parseInt_numberToString. eexists. split; [reflexivity|].
      apply YearFromDay_range. apply clock_day; auto. }
  destruct Hy as (y & Ey & By). rewrite Ey.
  destruct (ofFields_stamp tza y r (decValue dd) 0 0) as (D & HD & ->);
    auto; try lia.
  destruct (getCap 4 m) as [hh|] eqn:Eh.
  - destruct (hour_text _ _ (Hhh hh eq_refl)) as [Ehh Bh].
    destruct (minute_text _ _ Hmm) as [Em Bm].
    assert (Hne : hh <> "").
    { destruct (lang_digits_1_2 _ _ (Hhh hh eq_refl)) as [_ Hlen].
      destruct hh; simpl in Hlen; [lia | discriminate]. }
    destruct hh as [|c hh]; [congruence|]. cbn [sorUndefined].
    rewrite Ehh, Em, meridiem_hour12.
    pose proof (hour12_nonneg (decValue (String c hh)) (optLower (getCap 6 m))
                  ltac:(lia)).
    rewrite setHours_of_stamp by (auto; lia).
    rewrite isInvalid_stamp. cbn [negb].
    do 3 eexists. split; [reflexivity|]. split.
    + intros hh' E'. inversion E'; subst. auto.
    + discriminate.
  - cbn [sorUndefined].
    rewrite setHours_of_stamp by (auto; lia).
    rewrite isInvalid_stamp. cbn [negb].
    do 3 eexists. split; [reflexivity|]. split.
    + discriminate.
    + auto.
Qed.

(** ** parseDateTime as a whole *)

Section Rules.

Variables (tza : zone) (clock : Z) (DateParse : string -> number).
Hypothesis Hz : zoneOK tza.
Hypothesis Hc : clockOK clock.

Lemma rel_fired lower :
  fired tza (exec 4 re_rel lower) (relRule tza (newDate clock) lower).
Proof.
  destruct (exec 4 re_rel lower) as [m|] eqn:E; cbn [fired].
  - destruct (relRule_spec tza clock lower m Hz Hc E) as (D & -> & _). eauto.
  - unfold relRule. rewrite E. reflexivity.
Qed.

Lemma day_fired lower :
  fired tza (exec 5 re_day lower) (dayRule tza (newDate clock) lower).
Proof.
  destruct (exec 5 re_day lower) as [m|] eqn:E; cbn [fired].
  - destruct (dayRule_spec tza clock lower m Hz Hc E) as (D & -> & _). eauto.
  - unfold dayRule. rewrite E. reflexivity.
Qed.

Lemma month_fired lower :
  fired tza (exec 6 re_month lower) (monthRule tza (newDate clock) lower).
Proof.
  destruct (exec 6 re_month lower) as [m|] eqn:E; cbn [fired].
  - destruct (monthRule_spec tza clock lower m Hz Hc E) as (D & h & mi & -> & _).
    eauto.
  - unfold monthRule. rewrite E. reflexivity.
Qed.

Lemma dateTime_fired input :
  fired tza (exec 5 re_dateTime input) (dateTimeRule tza input).
Proof.
  destruct (exec 5 re_dateTime input) as [m|] eqn:E; cbn [fired].
  - exact (dateTimeRule_spec tza input m Hz E).
  - unfold dateTimeRule. rewrite E. reflexivity.
Qed.

Lemma isoDateTime_fired input :
  fired tza (exec 5 re_isoDateTime input) (isoDateTimeRule tza input).
Proof.
  destruct (exec 5 re_isoDateTime input) as [m|] eqn:E; cbn [fired].
  - exact (isoDateTimeRule_spec tza input m Hz E).
  - unfold isoDateTimeRule. rewrite E. reflexivity.
Qed.

Lemma time_fired input :
  fired tza (exec 2 re_timeOnly input) (timeRule tza (newDate clock) input).
Proof.
  destruct (exec 2 re_timeOnly input) as [m|] eqn:E; cbn [fired].
  - destruct (timeRule_spec tza clock input m Hz Hc E) as (D & ->). eauto.
  - unfold timeRule. rewrite E. reflexivity.
Qed.

Lemma ampm_fired lower :
  fired tza (exec 3 re_ampm lower) (ampmRule tza (newDate clock) lower).
Proof.
  destruct (exec 3 re_ampm lower) as [m|] eqn:E; cbn [fired].
  - destruct (ampmRule_spec tza clock lower m Hz Hc E) as (D & -> & _). eauto.
  - unfold ampmRule. rewrite E. reflexivity.
Qed.

(** The first rule that fires decides; none fires exactly when no pattern
    matches. *)
Lemma firstOf_fired (es : list (option captures)) (rs : list (option Date)) :
  Forall2 (fired tza) es rs ->
  (Forall (fun e => e = None) es /\ firstOf rs = None) \/
  (Exists (fun e => e <> None) es /\
   exists D h mi, firstOf rs = Some (stamp tza D h mi)).
Proof.
  induction 1 as [|e r es rs Hf _ IH]; cbn [firstOf].
  - left. split; constructor.
  - destruct e as [m|]; cbn [fired] in Hf.
    + destruct Hf as (D & h & mi & ->). right. split; [|eauto].
      apply Exists_cons_hd. discriminate.
    + subst r. destruct IH as [[Hall E]|[Hex E]].
      * left. split; [constructor; auto | exact E].
      * right. split; [apply Exists_cons_tl; exact Hex | exact E].
Qed.

(** The bare [tomorrow]: the local reading of the clock, a day later. *)
Lemma tomorrow_date :
  setDate tza (copy (newDate clock)) (nadd (getDate tza (copy (newDate clock))) (Num 1))
  = mkDate (Num (UTC tza (LocalTime tza clock + msPerDay))).
Proof.
  rewrite copy_newDate by exact Hc.
  rewrite setDate_getDate.
  destruct (later_valid tza clock 1 Hz Hc ltac:(lia)) as [E _].
  rewrite Z.mul_1_l in E. exact E.
Qed.

(** The four ways [parseDateTime] ends. *)
Lemma parseDateTime_cases input :
  (bareLiteral input /\
   (parseDateTime tza clock DateParse input = Return (newDate clock) \/
    parseDateTime tza clock DateParse input
    = Return (mkDate (Num (UTC tza (LocalTime tza clock + msPerDay)))))) \/
  (~ bareLiteral input /\ ruleMatches input /\
   exists D h mi, parseDateTime tza clock DateParse input = Return (stamp tza D h mi)) \/
  (~ bareLiteral input /\ ~ ruleMatches input /\
   exists t, DateParse input = Num t /\
             parseDateTime tza clock DateParse input = Return (mkDate (Num t))) \/
  (~ bareLiteral input /\ ~ ruleMatches input /\ DateParse input = NaN /\
   parseDateTime tza clock DateParse input = Throw (cannotParse input)).
Proof.
  unfold parseDateTime, bareLiteral, ruleMatches. cbv zeta.
  set (lower := Str.trim (Str.toLowerCase input)).
  destruct (String.eqb_spec lower "today") as [E1|N1]; [left; auto|].
  destruct (String.eqb_spec lower "tomorrow") as [E2|N2].
  { left. split; [auto|]. right. rewrite tomorrow_date. reflexivity. }
  right.
  assert (Hnb : ~ (lower = "today" \/ lower = "tomorrow")) by tauto.
  destruct (firstOf_fired
    [exec 4 re_rel lower; exec 5 re_day lower; exec 6 re_month lower;
     exec 5 re_dateTime input; exec 5 re_isoDateTime input;
     exec 2 re_timeOnly input; exec 3 re_ampm lower]
    [relRule tza (newDate clock) lower; dayRule tza (newDate clock) lower;
     monthRule tza (newDate clock) lower; dateTimeRule tza input;
     isoDateTimeRule tza input; timeRule tza (newDate clock) input;
     ampmRule tza (newDate clock) lower]) as [[Hall E]|[Hex (D & h & mi & E)]].
  { repeat constructor; auto using rel_fired, day_fired, month_fired,
      dateTime_fired, isoDateTime_fired, time_fired, ampm_fired. }
  - rewrite E. right.
    assert (Hnm : ~ (exec 4 re_rel lower <> None \/ exec 5 re_day lower <> None \/
      exec 6 re_month lower <> None \/ exec 5 re_dateTime input <> None \/
      exec 5 re_isoDateTime input <> None \/ exec 2 re_timeOnly input <> None \/
      exec 3 re_ampm lower <> None)).
    { repeat match goal with
        | Hf : Forall _ (_ :: _) |- _ => inversion Hf; subst; clear Hf
        end.
      tauto. }
    unfold isInvalid, getTime. cbn [timeValue].
    destruct (DateParse input) as [|t] eqn:Ep; cbn [isNaN negb].
    + right. auto.
    + left. repeat split; auto. exists t. auto.
  - rewrite E. left. repeat split; auto; [|eauto].
    repeat match goal with
      | Hx : Exists _ (_ :: _) |- _ => inversion Hx; subst; clear Hx
      | Hx : Exists _ [] |- _ => inversion Hx
      end; tauto.
Qed.

End Rules.

(** ** The bare literals match no pattern *)

Lemma starts_with_digit g X Y s m :
  exec g (Cat Bos (Cat (Grp 1 (Cat digit X)) Y)) s = Some m ->
  exists a rest, s = String a rest /\ Chars.isDigit a = true.
Proof.
  intros H. apply exec_anchored_sound in H.
  destruct H as (pre & rest & c' & -> & M & _).
  unfold digit in M.
  inversion M; subst; clear M.
  match goal with H : Matches _ (Grp _ _) _ _ _ _ |- _ => inversion H; subst; clear H end.
  match goal with H : Matches _ (Cat (Cls _) _) _ _ _ _ |- _ => inversion H; subst; clear H end.
  match goal with H : Matches _ (Cls _) _ _ _ _ |- _ => inversion H; subst; clear H end.
  simpl. eauto.
Qed.

Lemma toLowerChar_digit a : Chars.isDigit a = true -> Chars.toLowerChar a = a.
Proof.
  rewrite isDigit_code. intros H. unfold Chars.toLowerChar.
  assert (E : Chars.isUpper a || Chars.isUpperLatin1 a = false).
  { unfold Chars.isUpper, Chars.isUpperLatin1. bool_cases. }
  rewrite E. reflexivity.
Qed.

Lemma trimEnd_head a s :
  Chars.isSpace a = false -> exists t, Str.trimEnd (String a s) = String a t.
Proof.
  intros H. cbn [Str.trimEnd]. rewrite H.
  destruct (Str.trimEnd s); eauto.
Qed.

Lemma lower_head a rest :
  Chars.isDigit a = true ->
  exists t, Str.trim (Str.toLowerCase (String a rest)) = String a t.
Proof.
  intros H. unfold Str.trim, Str.toLowerCase. cbn [Str.map Str.trimStart].
  rewrite (toLowerChar_digit a H), (digit_not_space a H).
  apply trimEnd_head. apply digit_not_space. exact H.
Qed.

Lemma digit_input_not_literal g X Y input m :
  exec g (Cat Bos (Cat (Grp 1 (Cat digit X)) Y)) input = Some m ->
  ~ bareLiteral input.
Proof.
  intros H. destruct (starts_with_digit _ _ _ _ _ H) as (a & rest & -> & Ha).
  destruct (lower_head a rest Ha) as (t & E).
  unfold bareLiteral. cbv zeta. rewrite E.
  intros [F|F]; inversion F; subst; discriminate.
Qed.

Lemma bareLiteral_no_rule input : bareLiteral input -> ~ ruleMatches input.
Proof.
  intros Hb Hm. unfold ruleMatches in Hm. cbv zeta in Hm.
  assert (Hlow : forall (P : string -> Prop),
            P "today" -> P "tomorrow" -> P (Str.trim (Str.toLowerCase input))).
  { intros P H1 H2. destruct Hb as [E|E]; cbv zeta in E; rewrite E; assumption. }
  destruct Hm as [H|[H|[H|[H|[H|[H|H]]]]]].
  - revert H. apply Hlow; vm_compute; congruence.
  - revert H. apply Hlow; vm_compute; congruence.
  - revert H. apply Hlow; vm_compute; congruence.
  - destruct (exec 5 re_dateTime input) as [m|] eqn:E; [|congruence].
    unfold re_dateTime, digits_1_2 in E. cbn [seq] in E.
    exact (digit_input_not_literal _ _ _ _ _ E Hb).
  - destruct (exec 5 re_isoDateTime input) as [m|] eqn:E; [|congruence].
    unfold re_isoDateTime, digits_4 in E. cbn [seq] in E.
    exact (digit_input_not_literal _ _ _ _ _ E Hb).
  - destruct (exec 2 re_timeOnly input) as [m|] eqn:E; [|congruence].
    unfold re_timeOnly, digits_1_2 in E. cbn [seq] in E.
    exact (digit_input_not_literal _ _ _ _ _ E Hb).
  - revert H. apply Hlow; vm_compute; congruence.
Qed.

(** ** The claims on parseDateTime *)

(** C9: [parseDateTime] throws, with the message
    [Cannot parse date/time: <input>], exactly when the input is neither
    of the bare literals, matches none of the patterns of the grammar, and
    the native parser yields no valid time; in every other case it returns
    a valid date, and it never ends the process. *)
Theorem parseDateTime_throws_iff
    (tza : zone) (clock : Z) (DateParse : string -> number) (input : string) :
  zoneOK tza -> clockOK clock ->
  (parseDateTime tza clock DateParse input = Throw (cannotParse input)
   <-> ~ bareLiteral input /\ ~ ruleMatches input /\ DateParse input = NaN) /\
  (forall msg, parseDateTime tza clock DateParse input = Throw msg ->
     msg = cannotParse input) /\
  (forall st msg, parseDateTime tza clock DateParse input <> Exit st msg) /\
  (bareLiteral input \/ ruleMatches input \/ DateParse input <> NaN ->
   exists d t, parseDateTime tza clock DateParse input = Return d /\
               timeValue d = Num t).
Proof.
  intros Hz Hc.
  destruct (parseDateTime_cases tza clock DateParse Hz Hc input)
    as [[Hb [E|E]]|[(Hnb & Hm & D & h & mi & E)|[(Hnb & Hnm & t & Ep & E)|
        (Hnb & Hnm & Ep & E)]]]; rewrite E;
    try pose proof (bareLiteral_no_rule input Hb);
    repeat split; try discriminate; try tauto.
  all: try (intros (_ & _ & F); congruence).
  all: try (intros _; eexists _, _; split; reflexivity).
  all: try (intros msg F; inversion F; reflexivity).
  all: intros [F|[F|F]]; contradiction.
Qed.

Lemma parseDateTime_throws_iff_witness :
  zoneOK eastern /\ clockOK 1793536496789 /\
  parseDateTime eastern 1793536496789 (fun _ => NaN) "not a date"
  = Throw "Cannot parse date/time: not a date".
Proof.
  pose proof eastern_OK as Hz.
  assert (Hc : clockOK 1793536496789) by (unfold clockOK; lia).
  split; [exact Hz|]. split; [exact Hc|].
  destruct (parseDateTime_throws_iff eastern 1793536496789 (fun _ => NaN) "not a date"
              Hz Hc) as ((_ & H) & _).
  apply H. split; [|split; [|reflexivity]].
  - unfold bareLiteral. vm_compute. intros [F|F]; discriminate F.
  - unfold ruleMatches. vm_compute. intuition congruence.
Defined.



(** The bare literals keep the seconds of the clock. *)
Example parseDateTime_today tza clock DateParse :
  parseDateTime tza clock DateParse "today" = Return (newDate clock).
Proof. reflexivity. Qed.

(** At 12:34:56.789 UTC on 1 November 2026 it is 07:34 Eastern time;
    [13:30] is that day at 13:30 Eastern, 18:30 UTC. *)
Example parseDateTime_13_30 :
  parseDateTime eastern 1793536496789 (fun _ => NaN) "13:30"
  = Return (mkDate (Num 1793557800000)) /\
  toISOString (mkDate (Num 1793557800000)) = Done "2026-11-01T18:30:00.000Z".
Proof. split; vm_compute; reflexivity. Qed.

(** ** The calendar: [YearFromDay] against its definition *)

Lemma checkFrom_spec fuel P :
  forall r, checkFrom fuel r P = true ->
  forall x, r <= x < r + Z.of_nat fuel -> P x = true.
Proof.
  induction fuel as [|fuel IH]; intros r H x Hx.
  - simpl in Hx. lia.
  - cbn [checkFrom] in H. destruct (P r) eqn:E; [|discriminate].
    destruct (Z.eq_dec x r) as [->|Hne]; [exact E|].
    apply (IH (r + 1) H). lia.
Qed.

Lemma cycle_checked : checkFrom (Z.to_nat 146097) 0 cycleOK = true.
Proof. vm_compute. reflexivity. Qed.

Lemma DayFromYear_period y q : DayFromYear (y + 400 * q) = DayFromYear y + 146097 * q.
Proof.
  unfold DayFromYear.
  replace (y + 400 * q - 1969) with (y - 1969 + (100 * q) * 4) by lia.
  replace (y + 400 * q - 1901) with (y - 1901 + (4 * q) * 100) by lia.
  replace (y + 400 * q - 1601) with (y - 1601 + q * 400) by lia.
  rewrite !Z.div_add by lia. lia.
Qed.

(** [YearFromDay d] is the year of day [d]: the largest [y] with
    [DayFromYear y <= d]. *)
Theorem YearFromDay_spec d :
  DayFromYear (YearFromDay d) <= d < DayFromYear (YearFromDay d + 1).
Proof.
  pose proof (Z.div_mod (d + 719162) 146097 ltac:(lia)) as Hdm.
  pose proof (Z.mod_pos_bound (d + 719162) 146097 ltac:(lia)) as Hr.
  assert (E : YearFromDay d
              = yearInCycle ((d + 719162) mod 146097) + 1
                + 400 * ((d + 719162) / 146097)).
  { unfold YearFromDay, yearInCycle. cbv zeta. lia. }
  pose proof (checkFrom_spec _ _ _ cycle_checked ((d + 719162) mod 146097)
                ltac:(rewrite Z2Nat.id; lia)) as Hc.
  unfold cycleOK in Hc. apply andb_true_iff in Hc. destruct Hc as [H1 H2].
  apply Z.leb_le in H1. apply Z.ltb_lt in H2.
  rewrite E.
  replace (yearInCycle ((d + 719162) mod 146097) + 1
           + 400 * ((d + 719162) / 146097) + 1)
    with (yearInCycle ((d + 719162) mod 146097) + 2
          + 400 * ((d + 719162) / 146097)) by lia.
  rewrite !DayFromYear_period. lia.
Qed.

Lemma isLeapYear_mod y :
  InLeapYearOf y = (if (y mod 4 =? 0) then 1 else 0)
                   - (if (y mod 100 =? 0) then 1 else 0)
                   + (if (y mod 400 =? 0) then 1 else 0).
Proof.
  unfold InLeapYearOf, isLeapYear.
  pose proof (Z.div_mod y 4 ltac:(lia)).
  pose proof (Z.mod_pos_bound y 4 ltac:(lia)).
  pose proof (Z.div_mod y 100 ltac:(lia)).
  pose proof (Z.mod_pos_bound y 100 ltac:(lia)).
  pose proof (Z.div_mod y 400 ltac:(lia)).
  pose proof (Z.mod_pos_bound y 400 ltac:(lia)).
  destruct (Z.eqb_spec (y mod 4) 0), (Z.eqb_spec (y mod 100) 0),
    (Z.eqb_spec (y mod 400) 0); cbn [andb orb negb]; lia.
Qed.

(** A year has 365 days, and one more when it is a leap year. *)
Lemma DayFromYear_step y : DayFromYear (y + 1) = DayFromYear y + 365 + InLeapYearOf y.
Proof.
  rewrite isLeapYear_mod. unfold DayFromYear.
  replace (y + 1 - 1969) with (y - 1969 + 1) by lia.
  replace (y + 1 - 1901) with (y - 1901 + 1) by lia.
  replace (y + 1 - 1601) with (y - 1601 + 1) by lia.
  pose proof (Z.div_mod y 4 ltac:(lia)).
  pose proof (Z.mod_pos_bound y 4 ltac:(lia)).
  pose proof (Z.div_mod y 100 ltac:(lia)).
  pose proof (Z.mod_pos_bound y 100 ltac:(lia)).
  pose proof (Z.div_mod y 400 ltac:(lia)).
  pose proof (Z.mod_pos_bound y 400 ltac:(lia)).
  pose proof (Z.div_mod (y - 1969) 4 ltac:(lia)).
  pose proof (Z.mod_pos_bound (y - 1969) 4 ltac:(lia)).
  pose proof (Z.div_mod (y - 1969 + 1) 4 ltac:(lia)).
  pose proof (Z.mod_pos_bound (y - 1969 + 1) 4 ltac:(lia)).
  pose proof (Z.div_mod (y - 1901) 100 ltac:(lia)).
  pose proof (Z.mod_pos_bound (y - 1901) 100 ltac:(lia)).
  pose proof (Z.div_mod (y - 1901 + 1) 100 ltac:(lia)).
  pose proof (Z.mod_pos_bound (y - 1901 + 1) 100 ltac:(lia)).
  pose proof (Z.div_mod (y - 1601) 400 ltac:(lia)).
  pose proof (Z.mod_pos_bound (y - 1601) 400 ltac:(lia)).
  pose proof (Z.div_mod (y - 1601 + 1) 400 ltac:(lia)).
  pose proof (Z.mod_pos_bound (y - 1601 + 1) 400 ltac:(lia)).
  destruct (Z.eqb_spec (y mod 4) 0), (Z.eqb_spec (y mod 100) 0),
    (Z.eqb_spec (y mod 400) 0); lia.
Qed.

Lemma DayFromYear_mono a b : a <= b -> DayFromYear a <= DayFromYear b.
Proof.
  intros H. replace b with (a + (b - a)) by lia.
  assert (Hk : 0 <= b - a) by lia. revert Hk.
  generalize (b - a). intros k Hk. pattern k. apply natlike_ind; auto.
  - rewrite Z.add_0_r. lia.
  - intros x Hx IH. replace (a + Z.succ x) with (a + x + 1) by lia.
    rewrite DayFromYear_step. pose proof (InLeapYearOf_range (a + x)). lia.
Qed.

Lemma YearFromDay_unique y d :
  DayFromYear y <= d < DayFromYear (y + 1) -> YearFromDay d = y.
Proof.
  intros H. pose proof (YearFromDay_spec d) as Hs.
  destruct (Z.lt_trichotomy (YearFromDay d) y) as [Hlt|[E|Hgt]]; [|exact E|].
  - pose proof (DayFromYear_mono (YearFromDay d + 1) y ltac:(lia)). lia.
  - pose proof (DayFromYear_mono (y + 1) (YearFromDay d) ltac:(lia)). lia.
Qed.

(** [YearFromTime] is the year of ECMAScript: the largest [y] with
    [TimeFromYear y <= t]. *)
Corollary YearFromTime_spec t :
  TimeFromYear (YearFromTime t) <= t < TimeFromYear (YearFromTime t + 1).
Proof.
  unfold TimeFromYear, YearFromTime.
  pose proof (YearFromDay_spec (Day t)) as H. unfold Day in *.
  pose proof (Z.div_mod t msPerDay ltac:(unfold msPerDay; lia)) as Hd.
  pose proof (Z.mod_pos_bound t msPerDay ltac:(unfold msPerDay; lia)) as Hm.
  unfold msPerDay in *. lia.
Qed.

(** Splits the arithmetic tests of the goal, dropping the impossible branches. *)
Ltac split_tests :=
  repeat match goal with
    | |- context [Z.eqb ?x ?y] => destruct (Z.eqb_spec x y); cbv iota; try lia
    | |- context [Z.leb ?x ?y] => destruct (Z.leb_spec x y); cbv iota; try lia
    | |- context [Z.ltb ?x ?y] => destruct (Z.ltb_spec x y); cbv iota; try lia
    end.

(** The fields put into [MakeDay] are the fields read from its day, for a
    day of the month that the month has. *)
Lemma fields_of_MakeDay y m dt t :
  0 <= m <= 11 -> 1 <= dt <= DaysInMonth (InLeapYearOf y) m ->
  Day t = MakeDay y m dt ->
  YearFromTime t = y /\ MonthFromTime t = m /\ DateFromTime t = dt.
Proof.
  intros Hm Hdt Ht.
  pose proof (InLeapYearOf_range y) as Hl.
  assert (Hdw : Day t = DayFromYear y + monthStart (InLeapYearOf y) m + dt - 1).
  { rewrite Ht. unfold MakeDay.
    rewrite Z.div_small, Z.mod_small by lia. rewrite Z.add_0_r. reflexivity. }
  assert (Hy : YearFromTime t = y).
  { unfold YearFromTime. apply YearFromDay_unique.
    rewrite DayFromYear_step, Hdw.
    revert Hdt. unfold monthStart, DaysInMonth. cbn [orb].
    generalize (InLeapYearOf y) Hl. intros leap Hleap.
    split_tests; cbn [orb]; lia. }
  assert (Hmo : MonthFromTime t = m).
  { unfold MonthFromTime, InLeapYear, DayWithinYear. rewrite Hy, Hdw.
    replace (DayFromYear y + monthStart (InLeapYearOf y) m + dt - 1 - DayFromYear y)
      with (monthStart (InLeapYearOf y) m + dt - 1) by lia.
    revert Hdt. unfold monthStart, DaysInMonth, monthOfDay.
    generalize (InLeapYearOf y) Hl. intros leap Hleap.
    split_tests; cbn [orb]; lia. }
  split; [exact Hy|]. split; [exact Hmo|].
  unfold DateFromTime, DayWithinYear, InLeapYear. rewrite Hmo, Hy, Hdw. lia.
Qed.

Lemma DayWithinYear_range t : 0 <= DayWithinYear t <= 365.
Proof.
  unfold DayWithinYear, YearFromTime.
  pose proof (YearFromDay_spec (Day t)) as H.
  rewrite DayFromYear_step in H.
  pose proof (InLeapYearOf_range (YearFromDay (Day t))). lia.
Qed.

Lemma DateFromTime_pos t : 1 <= DateFromTime t.
Proof.
  unfold DateFromTime, MonthFromTime.
  pose proof (DayWithinYear_range t) as Hd.
  pose proof (InLeapYearOf_range (YearFromTime t)) as Hl.
  unfold InLeapYear. revert Hd Hl.
  generalize (DayWithinYear t) (InLeapYearOf (YearFromTime t)). intros dw leap Hd Hl.
  unfold monthOfDay.
  split_tests; unfold monthStart; split_tests.
Qed.

Lemma Day_of_MakeDate D tod : 0 <= tod < msPerDay -> Day (MakeDate D tod) = D.
Proof.
  intros H. unfold Day, MakeDate.
  rewrite Z.add_comm, Z.div_add by (unfold msPerDay; lia).
  rewrite Z.div_small by exact H. lia.
Qed.

Lemma TimeWithinDay_of_MakeDate D tod :
  0 <= tod < msPerDay -> TimeWithinDay (MakeDate D tod) = tod.
Proof.
  intros H. unfold TimeWithinDay, MakeDate.
  rewrite Z.add_comm, Z.mod_add by (unfold msPerDay; lia).
  apply Z.mod_small. exact H.
Qed.

Lemma TimeWithinDay_range t : 0 <= TimeWithinDay t < msPerDay.
Proof. unfold TimeWithinDay. apply Z.mod_pos_bound. unfold msPerDay. lia. Qed.

Lemma MakeDay_normal y m dt :
  MakeDay y m dt = MakeDay (y + m / 12) (m mod 12) dt.
Proof.
  pose proof (Z.mod_pos_bound m 12 ltac:(lia)) as Hm.
  unfold MakeDay.
  rewrite (Z.div_small (m mod 12) 12), (Z.mod_small (m mod 12) 12) by lia.
  rewrite Z.add_0_r. reflexivity.
Qed.

(** A local reading made of a day and a time of day, read back. *)
Lemma fields_of_MakeDate y m dt tod :
  0 <= m <= 11 -> 1 <= dt <= DaysInMonth (InLeapYearOf y) m ->
  0 <= tod < msPerDay ->
  YearFromTime (MakeDate (MakeDay y m dt) tod) = y /\
  MonthFromTime (MakeDate (MakeDay y m dt) tod) = m /\
  DateFromTime (MakeDate (MakeDay y m dt) tod) = dt /\
  TimeWithinDay (MakeDate (MakeDay y m dt) tod) = tod.
Proof.
  intros Hm Hdt Htod.
  destruct (fields_of_MakeDay y m dt (MakeDate (MakeDay y m dt) tod) Hm Hdt
              (Day_of_MakeDate _ _ Htod)) as (H1 & H2 & H3).
  repeat split; auto. apply TimeWithinDay_of_MakeDate. exact Htod.
Qed.

(** ** parseDuration on [<digits>h<digits>m] *)

Section UnitSearch.

(** A pattern [(\d+)x] for a letter class [x]. *)
Variable p : ascii -> bool.
Hypothesis p_letter : forall a, p a = true -> Chars.isDigit a = false.

Lemma unit_here_sound n s m :
  matchAt n 1 (Cat (Grp 1 digits1) (Cls p)) s = Some m ->
  exists ds c rest,
    s = ds ++ String c rest /\ allChars Chars.isDigit ds = true /\ ds <> "" /\
    p c = true /\ getCap 1 m = Some ds.
Proof.
  unfold matchAt. intros H. apply run_sound in H.
  destruct H as (pre & rest & c' & -> & M & Hk).
  rewrite take_app_length in Hk. inversion Hk; subst m; clear Hk.
  unfold digits1, digit in M. cbn [repeat] in M.
  inv_matches.
  match goal with
  | Hd : Chars.isDigit ?a = true, Hs : allChars Chars.isDigit ?ds = true,
    Hp : p ?c = true |- _ =>
      exists (String a ds), c, rest
  end.
  repeat split; auto.
  - simpl. rewrite append_assoc. reflexivity.
  - simpl. apply andb_true_iff. split; assumption.
  - discriminate.
Qed.

Lemma unit_here_complete n ds c rest :
  allChars Chars.isDigit ds = true -> ds <> "" -> p c = true ->
  matchAt n 1 (Cat (Grp 1 digits1) (Cls p)) (ds ++ String c rest) <> None.
Proof.
  intros Hds Hne Hc. destruct ds as [|a ds]; [congruence|].
  simpl in Hds. apply andb_true_iff in Hds. destruct Hds as [Ha Hds].
  unfold matchAt.
  replace (String a ds ++ String c rest)
    with ((String a ds ++ String c "") ++ rest)
    by (rewrite append_assoc; reflexivity).
  eapply run_complete; [|discriminate].
  eapply M_Cat.
  - eapply M_Grp. unfold digits1, digit.
    eapply (M_Cat _ _ _ (String a "") ds).
    + apply M_Cls. exact Ha.
    + apply M_Star. exact Hds.
  - apply M_Cls. exact Hc.
Qed.

Lemma unit_here n ds c rest :
  allChars Chars.isDigit ds = true -> ds <> "" -> p c = true ->
  exists m, matchAt n 1 (Cat (Grp 1 digits1) (Cls p)) (ds ++ String c rest) = Some m /\
            getCap 1 m = Some ds.
Proof.
  intros Hds Hne Hc.
  destruct (matchAt n 1 (Cat (Grp 1 digits1) (Cls p)) (ds ++ String c rest))
    as [m|] eqn:E.
  - exists m. split; [reflexivity|].
    destruct (unit_here_sound _ _ _ E) as (ds' & c' & rest' & Es & Hds' & _ & Hc' & Hcap).
    destruct (span_unique Chars.isDigit ds ds' (String c rest) (String c' rest'))
      as [-> _]; auto; simpl; auto.
  - exfalso. exact (unit_here_complete n ds c rest Hds Hne Hc E).
Qed.

Lemma unit_not_here n ds c rest :
  allChars Chars.isDigit ds = true -> Chars.isDigit c = false -> p c = false ->
  matchAt n 1 (Cat (Grp 1 digits1) (Cls p)) (ds ++ String c rest) = None.
Proof.
  intros Hds Hc Hp.
  destruct (matchAt n 1 (Cat (Grp 1 digits1) (Cls p)) (ds ++ String c rest))
    as [m|] eqn:E; [|reflexivity].
  exfalso.
  destruct (unit_here_sound _ _ _ E) as (ds' & c' & rest' & Es & Hds' & _ & Hc' & _).
  destruct (span_unique Chars.isDigit ds ds' (String c rest) (String c' rest'))
    as [_ E']; auto; simpl; auto.
  inversion E'; subst. congruence.
Qed.

(** The search passes over digits that another letter follows. *)
Lemma search_skip n ds c rest :
  allChars Chars.isDigit ds = true -> Chars.isDigit c = false -> p c = false ->
  searchFrom n 1 (Cat (Grp 1 digits1) (Cls p)) (ds ++ String c rest)
  = searchFrom n 1 (Cat (Grp 1 digits1) (Cls p)) rest.
Proof.
  intros Hds Hc Hp. induction ds as [|a ds IH].
  - pose proof (unit_not_here n "" c rest eq_refl Hc Hp) as E.
    cbn [append] in *. cbn [searchFrom]. rewrite E. reflexivity.
  - pose proof Hds as Hds'. simpl in Hds'.
    apply andb_true_iff in Hds'. destruct Hds' as [_ Hds'].
    change (String a ds ++ String c rest) with (String a (ds ++ String c rest)).
    cbn [searchFrom].
    change (String a (ds ++ String c rest)) with (String a ds ++ String c rest).
    rewrite (unit_not_here n (String a ds) c rest Hds Hc Hp).
    apply IH. exact Hds'.
Qed.

Lemma search_here n ds c rest :
  allChars Chars.isDigit ds = true -> ds <> "" -> p c = true ->
  exists m, searchFrom n 1 (Cat (Grp 1 digits1) (Cls p)) (ds ++ String c rest) = Some m /\
            getCap 1 m = Some ds.
Proof.
  intros Hds Hne Hc.
  destruct (unit_here n ds c rest Hds Hne Hc) as (m & E & Hcap).
  exists m. split; [|exact Hcap].
  destruct (ds ++ String c rest); cbn [searchFrom]; rewrite E; reflexivity.
Qed.

End UnitSearch.

(** X3: for every pair of digit strings whose minutes [60 h + m] do not
    exceed 2^53, [parseDuration] of [<h>h<m>m] is [60 h + m]. *)
Lemma parseDuration_hours_minutes (h m : string) :
  allChars Chars.isDigit h = true -> h <> "" ->
  allChars Chars.isDigit m = true -> m <> "" ->
  60 * decValue h + decValue m <= 2 ^ 53 ->
  parseDuration (h ++ "h" ++ m ++ "m") = Num (60 * decValue h + decValue m).
Proof.
  intros Hh Hhne Hm Hmne _.
  assert (Lh : forall a, Chars.chr true "h" a = true -> Chars.isDigit a = false).
  { intros a. destruct a as [[] [] [] [] [] [] [] []]; vm_compute; congruence. }
  assert (Lm : forall a, Chars.chr true "m" a = true -> Chars.isDigit a = false).
  { intros a. destruct a as [[] [] [] [] [] [] [] []]; vm_compute; congruence. }
  unfold parseDuration, exec, re_hour, re_min. cbn [lit].
  set (n := length (h ++ "h" ++ m ++ "m")).
  change (h ++ "h" ++ m ++ "m") with (h ++ String "h" (m ++ String "m" "")).
  destruct (search_here (Chars.chr true "h") Lh n h "h" (m ++ String "m" "") Hh Hhne
              eq_refl) as (mh & Eh & Ch).
  rewrite Eh.
  rewrite (search_skip (Chars.chr true "m") Lm n h "h" (m ++ String "m" "") Hh
             eq_refl eq_refl).
  destruct (search_here (Chars.chr true "m") Lm n m "m" "" Hm Hmne eq_refl)
    as (mm & Em & Cm).
  rewrite Em. unfold group. rewrite Ch, Cm.
  rewrite !parseInt_digits by auto. cbn [nmul nadd]. f_equal. lia.
Qed.

(* ===================================================================== *)
(** * Part III: further properties of the code *)

(** ** parseReminder: the usage error *)

Lemma ReminderText_exec t :
  ReminderText t <-> exec 2 (re_amount reminderUnit) t <> None.
Proof.
  split.
  - intros (ds & ws & u & -> & Hform). apply re_amount_complete. exact Hform.
  - intros H. destruct (exec 2 (re_amount reminderUnit) t) as [m|] eqn:E; [|congruence].
    destruct (re_amount_sound _ _ _ E) as (ds & ws & u & Es & Hform & _).
    exists ds, ws, u. auto.
Qed.

Lemma split_first_part t suffix spec :
  noColon t = true -> spec = t \/ spec = t ++ ":" ++ suffix ->
  exists rest, Str.split ":" spec = t :: rest.
Proof.
  intros Ht [->| ->].
  - exists []. apply split_noColon. exact Ht.
  - eexists. apply (split_app t suffix Ht).
Qed.

(** X1: [parseReminder] reads the text before the first colon as the time
    part.  It ends the command with status 1 and the message
    [Invalid reminder: "<spec>" ...] exactly when that part is not of the
    grammar [^(\d+)\s*([mhd]?)$]; otherwise it returns a reminder.  It
    never throws. *)
Theorem parseReminder_exit_iff (t suffix spec : string) :
  noColon t = true ->
  spec = t \/ spec = t ++ ":" ++ suffix ->
  (parseReminder spec = Exit 1 (invalidReminder spec) <-> ~ ReminderText t) /\
  (ReminderText t <-> exists r, parseReminder spec = Return r) /\
  (forall msg, parseReminder spec <> Throw msg).
Proof.
  intros Ht Hs. destruct (split_first_part t suffix spec Ht Hs) as (rest & E).
  rewrite ReminderText_exec. unfold parseReminder. rewrite E. cbn [nth].
  change re_reminder with (re_amount reminderUnit).
  destruct (exec 2 (re_amount reminderUnit) t) as [m|].
  - repeat split; try discriminate; eauto.
    intros H. exfalso. apply H. discriminate.
  - repeat split; try congruence; try tauto.
    intros (r & Hr). discriminate.
Qed.

Lemma parseReminder_exit_iff_witness :
  noColon "" = true /\
  parseReminder ":email" = Exit 1 (invalidReminder ":email").
Proof.
  split; [reflexivity|].
  destruct (parseReminder_exit_iff "" "email" ":email" eq_refl (or_intror eq_refl))
    as ((_ & H) & _).
  apply H. rewrite ReminderText_exec. vm_compute. congruence.
Defined.

(** ** parseDuration: the result is a number *)

Lemma searchFrom_sound n g r s m :
  searchFrom n g r s = Some m ->
  exists pre s', s = pre ++ s' /\ matchAt n g r s' = Some m.
Proof.
  induction s as [|a s IH]; cbn [searchFrom]; intros H.
  - destruct (matchAt n g r "") eqn:E; [|discriminate].
    exists "", "". split; [reflexivity|]. congruence.
  - destruct (matchAt n g r (String a s)) eqn:E.
    + exists "", (String a s). split; [reflexivity|]. congruence.
    + destruct (IH H) as (pre & s' & -> & Hm).
      exists (String a pre), s'. split; [reflexivity|exact Hm].
Qed.

Lemma decValue_nonneg s : allChars Chars.isDigit s = true -> 0 <= decValue s.
Proof.
  intros H. pose proof (decValueFrom_bounds s 0 H ltac:(lia)) as B.
  unfold decValue. lia.
Qed.

Lemma unit_capture (p : ascii -> bool) s m :
  exec 1 (Cat (Grp 1 digits1) (Cls p)) s = Some m ->
  exists v, parseInt (group 1 m) = Num v /\ 0 <= v.
Proof.
  unfold exec. intros H.
  destruct (searchFrom_sound _ _ _ _ _ H) as (pre & s' & _ & Hm).
  destruct (unit_here_sound p _ _ _ Hm) as (ds & c & rest & _ & Hd & Hne & _ & Hc).
  rewrite (group_cap _ _ _ Hc). exists (decValue ds).
  split; [apply parseInt_digits; assumption|apply decValue_nonneg; assumption].
Qed.

(** X2: [parseDuration] returns a number on every input, never [NaN].
    When [<digits>h] or [<digits>m] occurs the number is not negative;
    with neither it is never 0, since a parsed 0 gives way to the
    default. *)
Theorem parseDuration_is_number (duration : string) :
  exists z, parseDuration duration = Num z /\
    (exec 1 re_hour duration <> None \/ exec 1 re_min duration <> None -> 0 <= z) /\
    (exec 1 re_hour duration = None -> exec 1 re_min duration = None ->
     z <> 0 /\ (parseInt duration = Num z \/ z = 60)).
Proof.
  unfold parseDuration.
  change re_hour with (Cat (Grp 1 digits1) (Cls (Chars.chr true "h"))).
  change re_min with (Cat (Grp 1 digits1) (Cls (Chars.chr true "m"))).
  destruct (exec 1 (Cat (Grp 1 digits1) (Cls (Chars.chr true "h"))) duration)
    as [mh|] eqn:Eh;
  destruct (exec 1 (Cat (Grp 1 digits1) (Cls (Chars.chr true "m"))) duration)
    as [mm|] eqn:Em.
  - destruct (unit_capture _ _ _ Eh) as (h & -> & Hh).
    destruct (unit_capture _ _ _ Em) as (m & -> & Hm).
    cbn [nadd nmul]. eexists. split; [reflexivity|]. split; [lia|discriminate].
  - destruct (unit_capture _ _ _ Eh) as (h & -> & Hh).
    cbn [nadd nmul]. eexists. split; [reflexivity|]. split; [lia|discriminate].
  - destruct (unit_capture _ _ _ Em) as (m & -> & Hm).
    cbn [nadd nmul]. eexists. split; [reflexivity|]. split; [lia|discriminate].
  - destruct (parseInt duration) as [|z] eqn:Ep; cbn [norElse].
    + exists 60. split; [reflexivity|]. split; [intros [F|F]; congruence|].
      intros _ _. split; [lia|auto].
    + destruct (Z.eqb_spec z 0) as [->|Hz].
      * exists 60. split; [reflexivity|]. split; [intros [F|F]; congruence|].
        intros _ _. split; [lia|auto].
      * exists z. split; [reflexivity|]. split; [intros [F|F]; congruence|].
        intros _ _. split; [exact Hz|auto].
Qed.

Lemma parseDuration_hours_minutes_witness :
  parseDuration ("2" ++ "h" ++ "15" ++ "m") = Num (60 * decValue "2" + decValue "15").
Proof.
  apply (parseDuration_hours_minutes "2" "15");
    try reflexivity; discriminate.
Defined.

(** ** importIcsFile: every record is accounted for *)

Section Accounts.

Variable localZone : string.
Variable World : Type.
Variable post : World -> GoogleEvent -> World * fetched.

Lemma importOne_accounts st v :
  let st' := importOne localZone World post st v in
  imported (result World st') + Z.of_nat (List.length (errors (result World st')))
  = imported (result World st) + Z.of_nat (List.length (errors (result World st))) + 1 /\
  imported (result World st) <= imported (result World st') /\
  List.length (console World st') = S (List.length (console World st)).
Proof.
  unfold importOne, recordFailure.
  destruct (mapRecord localZone v) as [e|msg].
  - destruct (createEvent World post (world World st) e) as [w' [[]|msg]];
      cbn [result imported errors console]; rewrite ?length_app; cbn [List.length];
      repeat split; lia.
  - cbn [result imported errors console]; rewrite ?length_app; cbn [List.length];
      repeat split; lia.
Qed.

Lemma importLoop_accounts vs :
  forall st,
    let st' := importLoop localZone World post st vs in
    imported (result World st') + Z.of_nat (List.length (errors (result World st')))
    = imported (result World st) + Z.of_nat (List.length (errors (result World st)))
      + Z.of_nat (List.length vs) /\
    imported (result World st) <= imported (result World st') /\
    List.length (console World st')
    = (List.length (console World st) + List.length vs)%nat.
Proof.
  induction vs as [|v vs IH]; intros st.
  - cbn. repeat split; lia.
  - cbv zeta. rewrite importLoop_cons.
    destruct (importOne_accounts st v) as (H1 & H2 & H3).
    destruct (IH (importOne localZone World post st v)) as (I1 & I2 & I3).
    cbn [List.length]. repeat split; lia.
Qed.

(** X4: [importIcsFile] accounts for every record: when the file parses
    into [N] records, the number imported plus the number of error strings
    is [N], and the console holds one line per record after the line of
    the count.  When the file does not parse, nothing is imported, nothing
    is sent to the service, and the one error string is [Parse error: ]
    followed by the parser's message. *)
Theorem importIcsFile_accounts (w : World) (parsed : attempt (list ICAL.Component)) :
  let st := importIcsFile localZone World post w parsed in
  match parsed with
  | Done vevents =>
      imported (result World st) + Z.of_nat (List.length (errors (result World st)))
      = Z.of_nat (List.length vevents) /\
      0 <= imported (result World st) <= Z.of_nat (List.length vevents) /\
      List.length (console World st) = S (List.length vevents)
  | Thrown msg =>
      imported (result World st) = 0 /\
      errors (result World st) = ["Parse error: " ++ msg] /\
      world World st = w /\ console World st = []
  end.
Proof.
  destruct parsed as [vevents|msg]; cbv zeta; unfold importIcsFile.
  - match goal with |- context [importLoop _ _ _ ?s _] =>
      destruct (importLoop_accounts vevents s) as (H1 & H2 & H3) end.
    cbn [result imported errors console List.length] in *.
    repeat split; lia.
  - repeat split.
Qed.

(** X5: when every record of the file maps and is created, all [N] are
    counted as imported, no error is recorded, the service has received
    the events in the order of the file, and the console lists each
    summary after the line of the count. *)
Theorem importIcsFile_all_created
    (w w' : World) (vevents : list ICAL.Component) (es : list GoogleEvent) :
  Created localZone World post w vevents w' es ->
  let st := importIcsFile localZone World post w (Done vevents) in
  imported (result World st) = Z.of_nat (List.length vevents) /\
  errors (result World st) = [] /\
  world World st = w' /\
  List.length es = List.length vevents /\
  exists found, console World st = (Out found :: List.map createdLine es)%list.
Proof.
  intros H. cbv zeta. unfold importIcsFile.
  rewrite (importLoop_created localZone World post _ _ _ _ H).
  cbn [result imported errors world console].
  rewrite (Created_length localZone World post _ _ _ _ H).
  repeat split; try lia. eexists. reflexivity.
Qed.

End Accounts.

Lemma importIcsFile_all_created_witness :
  let st := importIcsFile "UTC" (list GoogleEvent) demoPost []
              (Done [plainRecord "First"; plainRecord "Last"]) in
  imported (result _ st) = 2 /\
  errors (result _ st) = [] /\
  world _ st = [plainEvent "First"; plainEvent "Last"].
Proof.
  assert (H : Created "UTC" (list GoogleEvent) demoPost []
                [plainRecord "First"; plainRecord "Last"]
                [plainEvent "First"; plainEvent "Last"]
                [plainEvent "First"; plainEvent "Last"]).
  { eapply Created_cons; [reflexivity|reflexivity|].
    eapply Created_cons; [reflexivity|reflexivity|]. apply Created_nil. }
  destruct (importIcsFile_all_created "UTC" (list GoogleEvent) demoPost _ _ _ _ H)
    as (H1 & H2 & H3 & _).
  cbv zeta. repeat split; assumption.
Defined.

(** ** The import mapper: the fields of an event *)

Lemma sorElse_nonempty s dflt : dflt <> "" -> sorElse s dflt <> "".
Proof. destruct s as [[|a t]|]; cbn; congruence. Qed.

Lemma sorUndefined_nonempty s : sorUndefined s <> Some "".
Proof. destruct s as [[|a t]|]; cbn; congruence. Qed.

(** X7: an event the mapper produces always has a title: the record's
    summary, or [Untitled Event] when the summary is missing or empty.
    Its description and location are never the empty text (they are left
    out instead), its attendees are left out exactly when the record has
    none and otherwise are the record's attendees in order, and its
    recurrence is the rule under the prefix [RRULE:] or left out. *)
Theorem mapRecord_fields (zone : string) (v : ICAL.Component) (e : GoogleEvent) :
  mapRecord zone v = Done e ->
  ev_summary e <> "" /\
  (ICAL.summary v = Some (ev_summary e) \/
   (ev_summary e = "Untitled Event" /\
    (ICAL.summary v = None \/ ICAL.summary v = Some ""))) /\
  ev_description e <> Some "" /\ ev_location e <> Some "" /\
  (ev_attendees e = None <-> ICAL.attendee v = []) /\
  (forall l, ev_attendees e = Some l -> l = List.map mapAttendee (ICAL.attendee v)) /\
  ev_recurrence e = option_map (fun r => ["RRULE:" ++ r]) (ICAL.rrule v).
Proof.
  unfold mapRecord. intros H.
  destruct (ICAL.construction v); [discriminate|]. cbn [bind] in H.
  destruct (mapTime zone (ICAL.startDate v)); [|discriminate]. cbn [bind] in H.
  destruct (mapTime zone (ICAL.endDate v)); [|discriminate]. cbn [bind] in H.
  inversion H; subst e; clear H.
  cbn [ev_summary ev_description ev_location ev_attendees ev_recurrence].
  split; [apply sorElse_nonempty; discriminate|].
  split; [destruct (ICAL.summary v) as [[|c t]|]; cbn; auto|].
  split; [apply sorUndefined_nonempty|]. split; [apply sorUndefined_nonempty|].
  split; [|split].
  - destruct (ICAL.attendee v); cbn; split; intros; congruence.
  - intros l. destruct (ICAL.attendee v); cbn; intros Hl; inversion Hl. reflexivity.
  - destruct (ICAL.rrule v); reflexivity.
Qed.

Lemma mapRecord_fields_witness :
  ev_summary (plainEvent "Untitled Event") <> "" /\
  ev_attendees (plainEvent "Untitled Event") = None.
Proof.
  destruct (mapRecord_fields "UTC"
              (ICAL.mkComponent None (Some "") (Some "") None None None [] None)
              (plainEvent "Untitled Event") eq_refl) as (H1 & _ & _ & _ & H2 & _).
  split; [exact H1|]. apply H2. reflexivity.
Defined.

(** ** The import mapper: the date of an all-day start or end *)

Lemma split_before sep t rest :
  allChars (fun c => negb (Ascii.eqb c sep)) t = true ->
  Str.split sep (t ++ String sep rest) = t :: Str.split sep rest.
Proof.
  induction t as [|a t IH]; cbn [allChars append Str.split]; intros H.
  - rewrite Ascii.eqb_refl. reflexivity.
  - apply andb_true_iff in H. destruct H as [Ha Ht].
    apply negb_true_iff in Ha. rewrite Ha, (IH Ht). reflexivity.
Qed.

Lemma digits_not_letter sep s :
  Chars.isDigit sep = false ->
  allChars Chars.isDigit s = true ->
  allChars (fun c => negb (Ascii.eqb c sep)) s = true.
Proof.
  intros Hsep. induction s as [|a s IH]; cbn [allChars]; [reflexivity|].
  intros H. apply andb_true_iff in H. destruct H as [Ha Hs].
  rewrite (digit_neq a sep Ha Hsep), (IH Hs). reflexivity.
Qed.

Lemma decimalString_digits z :
  0 <= z -> allChars Chars.isDigit (decimalString z) = true /\ decimalString z <> "" /\
            decValue (decimalString z) = z.
Proof.
  intros Hz. unfold decimalString, numberToString.
  destruct (Z.ltb_spec z 0) as [F|_]; [lia|].
  destruct (decimal_spec (Z.to_nat (Z.log2 z)) z "" (log2_fuel z Hz))
    as (pre & E & Hd & Hne & Hv).
  rewrite E, append_nil_r. auto.
Qed.

Lemma zeros_digits n : allChars Chars.isDigit (zeros n) = true.
Proof. induction n; cbn; auto. Qed.

Lemma padStart0_digits w z : 0 <= z -> allChars Chars.isDigit (padStart0 w z) = true.
Proof.
  intros Hz. unfold padStart0. cbv zeta. rewrite allChars_app, zeros_digits.
  apply (decimalString_digits z Hz).
Qed.

Lemma isoYear_no_T y :
  allChars (fun c => negb (Ascii.eqb c "T")) (isoYear y) = true.
Proof.
  unfold isoYear.
  destruct ((0 <=? y) && (y <=? 9999)) eqn:E.
  - apply andb_true_iff in E. destruct E as [E _]. apply Z.leb_le in E.
    apply digits_not_letter; [reflexivity|]. apply padStart0_digits. lia.
  - destruct (Z.ltb_spec y 0).
    + change ("-" ++ padStart0 6 (- y)) with (String "-" (padStart0 6 (- y))).
      cbn [allChars]. rewrite digits_not_letter; [reflexivity|reflexivity|].
      apply padStart0_digits. lia.
    + change ("+" ++ padStart0 6 y) with (String "+" (padStart0 6 y)).
      cbn [allChars]. rewrite digits_not_letter; [reflexivity|reflexivity|].
      apply padStart0_digits. lia.
Qed.

(** X8: the [date] of an all-day start or end is the calendar day, in UTC,
    of the instant the interchange value converts to: the year, month and
    day of [toISOString], without the time.  The zone of the value and the
    local zone play no part. *)
Theorem mapTime_allDay_utc (zone : string) (t : Z) (tz : option string) :
  mapTime zone (Some (ICAL.mkTime true (mkDate (Num t)) tz))
  = Done (mkEventDateTime
            (Some (isoYear (YearFromTime t) ++ "-" ++ padStart0 2 (MonthFromTime t + 1)
                   ++ "-" ++ padStart0 2 (DateFromTime t)))
            None None).
Proof.
  unfold mapTime. cbn [ICAL.isDate ICAL.toJSDate]. unfold toISOString.
  cbn [timeValue bind].
  pose proof (MonthFromTime_range t) as Hm. pose proof (DateFromTime_pos t) as Hd.
  set (date := isoYear (YearFromTime t) ++ "-" ++ padStart0 2 (MonthFromTime t + 1)
               ++ "-" ++ padStart0 2 (DateFromTime t)).
  set (time := padStart0 2 (HourFromTime t) ++ ":" ++ padStart0 2 (MinFromTime t)
               ++ ":" ++ padStart0 2 (SecFromTime t) ++ "." ++ padStart0 3 (msFromTime t)
               ++ "Z").
  replace (isoYear (YearFromTime t) ++ "-" ++ padStart0 2 (MonthFromTime t + 1)
           ++ "-" ++ padStart0 2 (DateFromTime t) ++ "T" ++ time)
    with (date ++ String "T" time).
  2:{ unfold date. rewrite !append_assoc. reflexivity. }
  rewrite split_before.
  - reflexivity.
  - unfold date. rewrite !allChars_app, isoYear_no_T.
    rewrite (digits_not_letter "T" (padStart0 2 (MonthFromTime t + 1))),
      (digits_not_letter "T" (padStart0 2 (DateFromTime t)));
      try reflexivity; apply padStart0_digits; lia.
Qed.

(** ** normalizeUser *)

Lemma splitClass_cons p s : exists t ts, splitClass p s = t :: ts.
Proof.
  destruct s as [|c s]; cbn [splitClass]; [eauto|].
  destruct (p c); [eauto|]. destruct (splitClass p s); eauto.
Qed.

Lemma first_piece_cons p c s :
  nth 0 (splitClass p (String c s)) "" =
  if p c then "" else String c (nth 0 (splitClass p s) "").
Proof.
  cbn [splitClass]. destruct (p c); [reflexivity|].
  destruct (splitClass_cons p s) as (t & ts & ->). reflexivity.
Qed.

Lemma first_piece_sep p a c b :
  p c = true ->
  nth 0 (splitClass p (a ++ String c b)) "" = nth 0 (splitClass p a) "".
Proof.
  intros Hc. induction a as [|x a IH].
  - cbn [append]. rewrite first_piece_cons, Hc. reflexivity.
  - cbn [append]. rewrite !first_piece_cons. destruct (p x); [reflexivity|].
    rewrite IH. reflexivity.
Qed.

Lemma toLowerCase_app a b :
  Str.toLowerCase (a ++ b) = Str.toLowerCase a ++ Str.toLowerCase b.
Proof. unfold Str.toLowerCase. induction a; cbn; congruence. Qed.

Lemma toLowerChar_idem c : Chars.toLowerChar (Chars.toLowerChar c) = Chars.toLowerChar c.
Proof. destruct c as [[] [] [] [] [] [] [] []]; vm_compute; reflexivity. Qed.

Lemma sep_cases c :
  Chars.oneOf false ".+@" c = Chars.chr false "." c || Chars.oneOf false "+@" c.
Proof. unfold Chars.oneOf. cbn. destruct (Chars.chr false "." c); reflexivity. Qed.

Lemma normalizeUser_cons c s :
  normalizeUser (String c s) =
  if Chars.oneOf false "+@" (Chars.toLowerChar c) then ""
  else if Chars.chr false "." (Chars.toLowerChar c) then normalizeUser s
  else String (Chars.toLowerChar c) (normalizeUser s).
Proof.
  unfold normalizeUser. unfold Str.toLowerCase. cbn [Str.map].
  rewrite first_piece_cons.
  destruct (Chars.oneOf false "+@" (Chars.toLowerChar c)); [reflexivity|].
  cbn [removeClass]. reflexivity.
Qed.

Lemma normalizeUser_chars user : allChars userChar (normalizeUser user) = true.
Proof.
  induction user as [|c s IH]; [reflexivity|].
  rewrite normalizeUser_cons.
  destruct (Chars.oneOf false "+@" (Chars.toLowerChar c)) eqn:E1; [reflexivity|].
  destruct (Chars.chr false "." (Chars.toLowerChar c)) eqn:E2; [exact IH|].
  cbn [allChars]. rewrite IH, andb_true_r. unfold userChar.
  rewrite sep_cases, E1, E2, toLowerChar_idem, Ascii.eqb_refl. reflexivity.
Qed.

Lemma normalizeUser_fixed user : allChars userChar user = true -> normalizeUser user = user.
Proof.
  induction user as [|c s IH]; [reflexivity|].
  cbn [allChars]. intros H. apply andb_true_iff in H. destruct H as [Hc Hs].
  unfold userChar in Hc. apply andb_true_iff in Hc. destruct Hc as [Hsep Hlow].
  apply Ascii.eqb_eq in Hlow. apply negb_true_iff in Hsep.
  rewrite sep_cases in Hsep. apply orb_false_iff in Hsep. destruct Hsep as [Hdot Hpa].
  rewrite normalizeUser_cons, Hlow, Hpa, Hdot, (IH Hs). reflexivity.
Qed.

(** X9: [normalizeUser] yields a canonical name: the result holds none of
    [.], [+], [@] and no letter that [toLowerCase] would change; a name of
    that kind is returned as it is, and no other is; so normalizing twice
    is normalizing once. *)
Theorem normalizeUser_canonical (user : string) :
  allChars userChar (normalizeUser user) = true /\
  (normalizeUser user = user <-> allChars userChar user = true) /\
  normalizeUser (normalizeUser user) = normalizeUser user.
Proof.
  split; [apply normalizeUser_chars|]. split.
  - split; [|apply normalizeUser_fixed].
    intros E. rewrite <- E. apply normalizeUser_chars.
  - apply normalizeUser_fixed, normalizeUser_chars.
Qed.

Lemma normalizeUser_cut c a b :
  Chars.oneOf false "+@" c = true ->
  normalizeUser (a ++ String c b) = normalizeUser a.
Proof.
  intros Hc. unfold normalizeUser. rewrite toLowerCase_app.
  change (Str.toLowerCase (String c b))
    with (String (Chars.toLowerChar c) (Str.toLowerCase b)).
  rewrite first_piece_sep; [reflexivity|].
  revert Hc. destruct c as [[] [] [] [] [] [] [] []]; vm_compute; congruence.
Qed.

(** X10: the names that differ only in what [normalizeUser] drops are the
    same user: a dot anywhere, everything from the first [+] or [@] on
    (so also the domain), and the case of the letters. *)
Theorem normalizeUser_aliases (a b : string) :
  normalizeUser (a ++ "." ++ b) = normalizeUser (a ++ b) /\
  normalizeUser (a ++ "+" ++ b) = normalizeUser a /\
  normalizeUser (a ++ "@" ++ b) = normalizeUser a /\
  normalizeUser (Str.toLowerCase a) = normalizeUser a.
Proof.
  repeat split.
  - change ("." ++ b) with (String "." b). induction a as [|c a IH].
    + cbn [append]. rewrite normalizeUser_cons. reflexivity.
    + cbn [append]. rewrite !normalizeUser_cons, IH. reflexivity.
  - apply (normalizeUser_cut "+"). reflexivity.
  - apply (normalizeUser_cut "@"). reflexivity.
  - induction a as [|c a IH]; [reflexivity|].
    change (Str.toLowerCase (String c a))
      with (String (Chars.toLowerChar c) (Str.toLowerCase a)).
    rewrite !normalizeUser_cons, toLowerChar_idem, IH. reflexivity.
Qed.

(** ** parseArgs *)

Lemma parseLoop_nil r u : parseLoop [] r u = Return (r, u).
Proof. reflexivity. Qed.

Lemma parseLoop_last arg r u :
  parseLoop [arg] r u =
  match parseArg arg None r u with
  | Return (r', u', _) => Return (r', u')
  | Exit st msg => Exit st msg
  | Throw msg => Throw msg
  end.
Proof. reflexivity. Qed.

Lemma parseLoop_more arg next rest r u :
  parseLoop (arg :: next :: rest) r u =
  match parseArg arg (Some next) r u with
  | Return (r', u', took) =>
      if took then parseLoop rest r' u' else parseLoop (next :: rest) r' u'
  | Exit st msg => Exit st msg
  | Throw msg => Throw msg
  end.
Proof. reflexivity. Qed.

(** Induction along the loop: over the arguments left, one or two at a
    time. *)
Lemma parseLoop_induction (P : list string -> Prop) :
  P [] ->
  (forall arg, P [arg]) ->
  (forall arg next rest, P rest -> P (next :: rest) -> P (arg :: next :: rest)) ->
  forall argv, P argv.
Proof.
  intros H0 H1 H2 argv.
  assert (H : P argv /\ forall a, P (a :: argv)).
  { induction argv as [|b argv [IH1 IH2]]; split; auto. }
  apply H.
Qed.

(** What a word that is no label does: it is collected as unknown when it
    starts with a dash, and is the command or a further argument
    otherwise. *)
Lemma parseArg_word arg next r u :
  notLabel arg ->
  parseArg arg next r u =
  if Str.startsWith "-" arg then Return (r, (u ++ [arg])%list, false)
  else if String.eqb (Cli.command r) "" then
    if endsWith ".ics" (Str.toLowerCase arg)
    then Return (Cli.setCommand "import" (Cli.setIcsFile arg r), u, false)
    else Return (Cli.setCommand arg r, u, false)
  else Return (Cli.setArgs (Cli.args r ++ [arg])%list r, u, false).
Proof.
  unfold notLabel, isCase, knownOptions. cbn [existsb]. intros H.
  repeat (apply orb_false_iff in H; destruct H as [? H]).
  unfold parseArg, isCase. cbn [existsb].
  repeat match goal with E : String.eqb arg _ = false |- _ => rewrite E; clear E end.
  cbn [orb]. reflexivity.
Qed.

Lemma word_notLabel a : Str.startsWith "-" a = false -> a <> "help" -> notLabel a.
Proof.
  intros Hd Hh. apply String.eqb_neq in Hh.
  unfold notLabel, isCase, knownOptions. cbn [existsb]. rewrite Hh.
  destruct a as [|c a]; [reflexivity|].
  cbn [Str.startsWith] in Hd. rewrite andb_true_r in Hd.
  rewrite Ascii.eqb_sym in Hd.
  cbn [String.eqb]. rewrite Hd. reflexivity.
Qed.

Lemma parseLoop_positional rest :
  forall r u,
    Cli.command r <> "" ->
    Forall (fun a => notLabel a /\ Str.startsWith "-" a = false) rest ->
    parseLoop rest r u = Return (Cli.setArgs (Cli.args r ++ rest)%list r, u).
Proof.
  induction rest as [|a rest IH]; intros r u Hc Hall.
  - rewrite parseLoop_nil, List.app_nil_r. destruct r; reflexivity.
  - inversion Hall as [|? ? [Hl Hd] Hrest]; subst.
    apply String.eqb_neq in Hc.
    assert (Hstep : forall next,
              parseArg a next r u = Return (Cli.setArgs (Cli.args r ++ [a])%list r, u, false)).
    { intros next. rewrite (parseArg_word a next r u Hl), Hd, Hc. reflexivity. }
    destruct rest as [|b rest].
    + rewrite parseLoop_last, Hstep. reflexivity.
    + rewrite parseLoop_more, Hstep. rewrite IH.
      * cbn [Cli.args Cli.setArgs]. rewrite <- List.app_assoc. reflexivity.
      * cbn [Cli.command Cli.setArgs]. apply String.eqb_neq. exact Hc.
      * exact Hrest.
Qed.

(** X11: arguments that are neither options nor [help] are taken by
    position: the first is the command, or, when it ends in [.ics] in any
    case, the file to import under the command [import]; the others are
    the command's arguments in order; everything else keeps its default. *)
Theorem parseArgs_positional (first : string) (rest : list string) :
  first <> "" ->
  Forall (fun a => Str.startsWith "-" a = false /\ a <> "help") (first :: rest) ->
  parseArgs (first :: rest) =
  Return (if endsWith ".ics" (Str.toLowerCase first)
          then Cli.setArgs rest (Cli.setCommand "import" (Cli.setIcsFile first Cli.initial))
          else Cli.setArgs rest (Cli.setCommand first Cli.initial)).
Proof.
  intros Hne Hall0.
  assert (Hall : Forall (fun a => notLabel a /\ Str.startsWith "-" a = false)
                   (first :: rest)).
  { eapply Forall_impl; [|exact Hall0]. intros a [Hd Hh].
    split; [apply word_notLabel; assumption|exact Hd]. }
  clear Hall0. inversion Hall as [|? ? [Hl Hd] Hrest]; subst.
  unfold parseArgs.
  assert (Hstep : forall next,
            parseArg first next Cli.initial [] =
            Return (if endsWith ".ics" (Str.toLowerCase first)
                    then Cli.setCommand "import" (Cli.setIcsFile first Cli.initial)
                    else Cli.setCommand first Cli.initial, [], false)).
  { intros next. rewrite (parseArg_word first next _ _ Hl), Hd.
    cbn [Cli.command Cli.initial String.eqb].
    destruct (endsWith ".ics" (Str.toLowerCase first)); reflexivity. }
  assert (Hcmd : Cli.command (if endsWith ".ics" (Str.toLowerCase first)
                  then Cli.setCommand "import" (Cli.setIcsFile first Cli.initial)
                  else Cli.setCommand first Cli.initial) <> "").
  { destruct (endsWith ".ics" (Str.toLowerCase first)); cbn; [discriminate|exact Hne]. }
  destruct rest as [|b rest].
  - rewrite parseLoop_last, Hstep. cbn [List.length Z.of_nat Z.ltb Z.compare].
    destruct (endsWith ".ics" (Str.toLowerCase first)); reflexivity.
  - rewrite parseLoop_more, Hstep.
    rewrite (parseLoop_positional (b :: rest) _ _ Hcmd Hrest).
    cbn [List.length Z.of_nat Z.ltb Z.compare].
    destruct (endsWith ".ics" (Str.toLowerCase first)); reflexivity.
Qed.

Lemma parseArgs_positional_witness :
  parseArgs ["Meeting.ICS"; "extra"] =
  Return (Cli.setArgs ["extra"]
            (Cli.setCommand "import" (Cli.setIcsFile "Meeting.ICS" Cli.initial))).
Proof.
  apply (parseArgs_positional "Meeting.ICS" ["extra"]).
  - discriminate.
  - repeat constructor; discriminate.
Defined.

Lemma parseLoop_words argv :
  forall r u,
    Forall notLabel argv ->
    exists r', parseLoop argv r u
               = Return (r', (u ++ filter (Str.startsWith "-") argv)%list).
Proof.
  induction argv as [|a argv IH]; intros r u Hall.
  - exists r. rewrite parseLoop_nil, List.app_nil_r. reflexivity.
  - inversion Hall as [|? ? Hl Hrest]; subst.
    assert (Hstep : forall next, exists r1,
              parseArg a next r u =
              Return (r1, (u ++ (if Str.startsWith "-" a then [a] else []))%list, false)).
    { intros next. rewrite (parseArg_word a next r u Hl).
      destruct (Str.startsWith "-" a); [eauto|].
      rewrite List.app_nil_r.
      destruct (String.eqb (Cli.command r) "");
        [destruct (endsWith ".ics" (Str.toLowerCase a))|]; eauto. }
    cbn [filter].
    destruct argv as [|b argv].
    + destruct (Hstep None) as (r1 & E). rewrite parseLoop_last, E.
      exists r1. cbn [filter]. destruct (Str.startsWith "-" a); reflexivity.
    + destruct (Hstep (Some b)) as (r1 & E). rewrite parseLoop_more, E.
      destruct (IH r1 (u ++ (if Str.startsWith "-" a then [a] else []))%list Hrest)
        as (r2 & E2).
      rewrite E2. exists r2. rewrite <- List.app_assoc.
      destruct (Str.startsWith "-" a); reflexivity.
Qed.

(** X12: among arguments that are none of the labels, every one that
    starts with a dash is an unknown option.  The loop does not stop at
    the first: when there is at least one, [parseArgs] ends the command
    with status 1 and the message [Unknown options: ] followed by all of
    them, in order, joined by a comma and a space. *)
Theorem parseArgs_unknown_options (argv : list string) :
  Forall notLabel argv ->
  filter (Str.startsWith "-") argv <> [] ->
  parseArgs argv = Exit 1 (unknownOptions (filter (Str.startsWith "-") argv)).
Proof.
  intros Hall Hne. unfold parseArgs.
  destruct (parseLoop_words argv Cli.initial [] Hall) as (r' & ->).
  cbn [app].
  destruct (filter (Str.startsWith "-") argv) as [|x l]; [congruence|].
  reflexivity.
Qed.

Lemma parseArgs_unknown_options_witness :
  parseArgs ["list"; "--foo"; "bar"; "-x"]
  = Exit 1 ("Unknown options: --foo, -x" ++ ofCodes [10]).
Proof.
  apply (parseArgs_unknown_options ["list"; "--foo"; "bar"; "-x"]).
  - repeat constructor.
  - discriminate.
Defined.

Lemma parseReminder_returns spec rm :
  parseReminder spec = Return rm ->
  (method rm = "popup" \/ method rm = "email") /\
  exists n, minutes rm = Num n /\ 0 <= n.
Proof.
  unfold parseReminder.
  change re_reminder with (re_amount reminderUnit).
  destruct (exec 2 (re_amount reminderUnit) (nth 0 (Str.split ":" spec) "")) as [m|] eqn:E;
    [|discriminate].
  destruct (re_amount_sound _ _ _ E) as (ds & ws & u & _ & (Hd & Hne & _ & _) & H1 & _).
  intros H. inversion H; subst rm; clear H. cbn [method minutes]. split.
  - destruct (Str.split ":" spec) as [|? [|x ?]]; auto.
    destruct (String.eqb x "email"); auto.
  - rewrite (group_cap _ _ _ H1), (parseInt_digits ds Hd Hne).
    pose proof (decValue_nonneg ds Hd).
    destruct (String.eqb _ "h"); [|destruct (String.eqb _ "d")]; cbn [nmul];
      eexists; (split; [reflexivity|lia]).
Qed.

Lemma pushReminders_spec parts :
  forall acc,
    let good := Forall (fun rm => (method rm = "popup" \/ method rm = "email") /\
                                  exists n, minutes rm = Num n /\ 0 <= n) in
    good acc ->
    match pushReminders parts acc with
    | Return l => good l
    | Exit st msg => st = 1 /\ exists part, msg = invalidReminder part
    | Throw _ => False
    end.
Proof.
  induction parts as [|p parts IH]; intros acc good Hacc; cbn [pushReminders].
  - exact Hacc.
  - pose proof (parseReminder_returns (Str.trim p)) as Hr.
    unfold parseReminder in *.
    destruct (exec 2 re_reminder (nth 0 (Str.split ":" (Str.trim p)) "")).
    + apply IH. apply Forall_app. split; [exact Hacc|].
      constructor; [|constructor]. apply Hr. reflexivity.
    + split; [reflexivity|eauto].
Qed.

Lemma norElse_nonzero x : exists n, norElse x (Num 10) = Num n /\ n <> 0.
Proof.
  destruct x as [|z]; cbn [norElse]; [exists 10; split; [reflexivity|lia]|].
  destruct (Z.eqb_spec z 0); [exists 10|exists z]; split; try reflexivity; lia.
Qed.

(** One turn of the loop keeps the arguments well formed; it ends the
    process only inside [parseReminder], and it never throws. *)
Lemma parseArg_spec arg next r u :
  wellFormed r ->
  match parseArg arg next r u with
  | Return (r', u', _) =>
      wellFormed r' /\ exists more, u' = (u ++ more)%list
  | Exit st msg => st = 1 /\ exists part, msg = invalidReminder part
  | Throw _ => False
  end.
Proof.
  intros (Hcal & Hlim & Hcount & Hics & Hrem).
  assert (Hsame : exists more : list string, u = (u ++ more)%list).
  { exists []. rewrite List.app_nil_r. reflexivity. }
  unfold parseArg.
  repeat match goal with
    | |- context [if isCase arg ?l then _ else _] => destruct (isCase arg l)
    end;
    try solve [split; [unfold wellFormed; cbn; repeat split; auto|exact Hsame]].
  - split; [|exact Hsame]. unfold wellFormed; cbn. repeat split; auto.
    apply sorElse_nonempty. discriminate.
  - split; [|exact Hsame]. unfold wellFormed; cbn. repeat split; auto.
    apply norElse_nonzero.
  - split; [|exact Hsame]. unfold wellFormed; cbn. repeat split; auto.
    apply sorElse_nonempty. discriminate.
  - destruct (String.eqb (sorElse next "") "0" || String.eqb (sorElse next "") "none").
    + split; [unfold wellFormed; cbn; repeat split; auto|exact Hsame].
    + pose proof (pushReminders_spec (Str.split "," (sorElse next "")) _ Hrem) as Hp.
      cbv zeta in Hp.
      destruct (pushReminders (Str.split "," (sorElse next "")) (Cli.reminders r));
        [|exact Hp|exact Hp].
      split; [unfold wellFormed; cbn; repeat split; auto|exact Hsame].
  - destruct (Str.startsWith "-" arg).
    + split; [unfold wellFormed; cbn; repeat split; auto|eauto].
    + destruct (String.eqb_spec (Cli.command r) "") as [Hc|Hc].
      * destruct (endsWith ".ics" (Str.toLowerCase arg));
          (split; [unfold wellFormed; cbn; repeat split; auto|exact Hsame]).
        intros Hi. exfalso. apply Hics in Hi. rewrite Hc in Hi. discriminate.
      * split; [unfold wellFormed; cbn; repeat split; auto|exact Hsame].
Qed.

Lemma parseLoop_spec argv :
  forall r u,
    wellFormed r ->
    match parseLoop argv r u with
    | Return (r', u') => wellFormed r' /\ exists more, u' = (u ++ more)%list
    | Exit st msg => st = 1 /\ exists part, msg = invalidReminder part
    | Throw _ => False
    end.
Proof.
  induction argv as [| |arg next rest IH1 IH2] using parseLoop_induction; intros r u Hr.
  - rewrite parseLoop_nil. split; [exact Hr|]. exists []. rewrite List.app_nil_r. reflexivity.
  - rewrite parseLoop_last. pose proof (parseArg_spec arg None r u Hr) as H.
    destruct (parseArg arg None r u) as [[[r' u'] took]| |]; exact H.
  - rewrite parseLoop_more. pose proof (parseArg_spec arg (Some next) r u Hr) as H.
    destruct (parseArg arg (Some next) r u) as [[[r' u'] took]| |]; [|exact H|exact H].
    destruct H as (Hr' & more & ->).
    destruct took.
    + pose proof (IH1 r' (u ++ more)%list Hr') as H.
      destruct (parseLoop rest r' (u ++ more)%list) as [[r2 u2]| |]; [|exact H|exact H].
      destruct H as (H2 & more2 & ->). split; [exact H2|].
      exists (more ++ more2)%list. rewrite List.app_assoc. reflexivity.
    + pose proof (IH2 r' (u ++ more)%list Hr') as H.
      destruct (parseLoop (next :: rest) r' (u ++ more)%list) as [[r2 u2]| |];
        [|exact H|exact H].
      destruct H as (H2 & more2 & ->). split; [exact H2|].
      exists (more ++ more2)%list. rewrite List.app_assoc. reflexivity.
Qed.

Lemma initial_wellFormed : wellFormed Cli.initial.
Proof.
  unfold wellFormed; cbn. repeat split; try discriminate.
  - exists 10. split; [reflexivity|lia].
  - intros H. congruence.
  - constructor.
Qed.

(** X13: whatever the arguments, a result of [parseArgs] is well formed:
    the calendar and the time limit are never empty and the count is a
    number other than 0 (an option without a usable value falls back to
    [primary], [3m] and 10), a file to import comes with the command
    [import], and every reminder has the method [popup] or [email] and a
    number of minutes that is not negative. *)
Theorem parseArgs_well_formed (argv : list string) (r : Cli.ParsedArgs) :
  parseArgs argv = Return r -> wellFormed r.
Proof.
  unfold parseArgs.
  pose proof (parseLoop_spec argv Cli.initial [] initial_wellFormed) as H.
  destruct (parseLoop argv Cli.initial []) as [[r' u']| |]; [|discriminate|discriminate].
  destruct (0 <? Z.of_nat (List.length u')); [discriminate|].
  intros E. inversion E; subst. apply H.
Qed.

Lemma parseArgs_well_formed_witness :
  wellFormed (Cli.setCount (Num 10) (Cli.setCalendar "primary" Cli.initial)).
Proof.
  apply (parseArgs_well_formed ["-n"; "0"; "-c"]). reflexivity.
Defined.

(** X14: [parseArgs] fails in two ways only, both with status 1: with the
    message of [parseReminder] for an invalid part of a [-r] value, met
    while the arguments are read, or, after all arguments are read, with
    the message listing the unknown options.  It never throws. *)
Theorem parseArgs_failures (argv : list string) :
  (forall st msg, parseArgs argv = Exit st msg ->
     st = 1 /\
     ((exists part, msg = invalidReminder part) \/
      (exists unknown, unknown <> [] /\ msg = unknownOptions unknown))) /\
  (forall msg, parseArgs argv <> Throw msg).
Proof.
  unfold parseArgs.
  pose proof (parseLoop_spec argv Cli.initial [] initial_wellFormed) as H.
  destruct (parseLoop argv Cli.initial []) as [[r' u']| |].
  - destruct u' as [|x u'].
    + split; intros; discriminate.
    + cbn [List.length]. rewrite Nat2Z.inj_succ.
      destruct (Z.ltb_spec 0 (Z.succ (Z.of_nat (List.length u')))); [|lia].
      split; [|intros; discriminate].
      intros st msg E. inversion E; subst. split; [reflexivity|].
      right. exists (x :: u'). split; [discriminate|reflexivity].
  - destruct H as (-> & part & ->). split; [|intros; discriminate].
    intros st msg E. inversion E; subst. split; [reflexivity|]. left. eauto.
  - contradiction.
Qed.

(** ** parseArgs: the reminders of [-r] *)

Lemma pushReminders_all parts :
  forall rs acc,
    Forall2 (fun part r => parseReminder (Str.trim part) = Return r) parts rs ->
    pushReminders parts acc = Return (acc ++ rs)%list.
Proof.
  induction parts as [|p parts IH]; intros rs acc H; inversion H; subst.
  - rewrite List.app_nil_r. reflexivity.
  - cbn [pushReminders].
    match goal with E : parseReminder _ = Return _ |- _ => rewrite E end.
    rewrite (IH _ _ ltac:(eassumption)), <- List.app_assoc. reflexivity.
Qed.

Lemma pushReminders_stops good :
  forall rs bad rest acc,
    Forall2 (fun part r => parseReminder (Str.trim part) = Return r) good rs ->
    (forall r, parseReminder (Str.trim bad) <> Return r) ->
    pushReminders (good ++ bad :: rest) acc = Exit 1 (invalidReminder (Str.trim bad)).
Proof.
  induction good as [|p good IH]; intros rs bad rest acc H Hbad; inversion H; subst.
  - cbn [app pushReminders]. revert Hbad. unfold parseReminder.
    destruct (exec 2 re_reminder (nth 0 (Str.split ":" (Str.trim bad)) "")).
    + intros Hbad. exfalso. eapply Hbad. reflexivity.
    + reflexivity.
  - cbn [app pushReminders].
    match goal with E : parseReminder _ = Return _ |- _ => rewrite E end.
    eapply IH; eauto.
Qed.

(** X25: the value of [-r], unless it is [0] or [none], is split at the
    commas and each part, trimmed, goes through [parseReminder]: when all
    parts are valid the result holds their reminders in order; the first
    invalid part ends the command with status 1 and the message of
    [parseReminder] for that part, trimmed. *)
Theorem parseArgs_reminders (rval : string) :
  rval <> "" -> rval <> "0" -> rval <> "none" ->
  (forall rs,
     Forall2 (fun part r => parseReminder (Str.trim part) = Return r)
       (Str.split "," rval) rs ->
     parseArgs ["-r"; rval] = Return (Cli.setReminders rs Cli.initial)) /\
  (forall good bad rest rs,
     Str.split "," rval = (good ++ bad :: rest)%list ->
     Forall2 (fun part r => parseReminder (Str.trim part) = Return r) good rs ->
     (forall r, parseReminder (Str.trim bad) <> Return r) ->
     parseArgs ["-r"; rval] = Exit 1 (invalidReminder (Str.trim bad))).
Proof.
  intros Hne H0 Hnone.
  apply String.eqb_neq in H0. apply String.eqb_neq in Hnone.
  assert (Hstep : parseArgs ["-r"; rval] =
                  match pushReminders (Str.split "," rval) [] with
                  | Return reminders => Return (Cli.setReminders reminders Cli.initial)
                  | Exit st msg => Exit st msg
                  | Throw msg => Throw msg
                  end).
  { unfold parseArgs. rewrite parseLoop_more. unfold parseArg.
    change (isCase "-r" ["-u"; "-user"; "--user"]) with false.
    change (isCase "-r" ["-defaultUser"; "--defaultUser"]) with false.
    change (isCase "-r" ["-c"; "-calendar"; "--calendar"]) with false.
    change (isCase "-r" ["-n"]) with false.
    change (isCase "-r" ["-v"; "-verbose"; "--verbose"]) with false.
    change (isCase "-r" ["-b"; "-birthdays"; "--birthdays"]) with false.
    change (isCase "-r" ["-limit"; "--limit"]) with false.
    change (isCase "-r" ["-title"; "--title"]) with false.
    change (isCase "-r" ["-loc"; "-location"; "--location"]) with false.
    change (isCase "-r" ["-start"; "--start"]) with false.
    change (isCase "-r" ["-dur"; "-duration"; "--duration"]) with false.
    change (isCase "-r" ["-r"; "-reminder"; "--reminder"]) with true.
    cbv iota.
    assert (E : sorElse (Some rval) "" = rval) by (destruct rval; [congruence|reflexivity]).
    rewrite E, H0, Hnone. cbn [orb]. cbv iota. cbn [Cli.reminders Cli.initial].
    destruct (pushReminders (Str.split "," rval) []); reflexivity. }
  split.
  - intros rs H. rewrite Hstep, (pushReminders_all _ _ _ H). reflexivity.
  - intros good bad rest rs Es Hgood Hbad.
    rewrite Hstep, Es, (pushReminders_stops good rs bad rest [] Hgood Hbad). reflexivity.
Qed.

Lemma parseArgs_reminders_witness :
  parseArgs ["-r"; "15m, 1h:email"]
  = Return (Cli.setReminders [mkReminder "popup" (Num 15); mkReminder "email" (Num 60)]
              Cli.initial).
Proof.
  destruct (parseArgs_reminders "15m, 1h:email") as (H & _); try discriminate.
  apply H. repeat constructor.
Defined.

(** ** parseTimeLimit: the calendar fields of the result *)

Lemma DayWithinYear_tight t :
  0 <= DayWithinYear t <= 364 + InLeapYear t.
Proof.
  unfold DayWithinYear, InLeapYear, YearFromTime.
  pose proof (YearFromDay_spec (Day t)) as H.
  rewrite DayFromYear_step in H. lia.
Qed.

Lemma DateFromTime_le t :
  DateFromTime t <= DaysInMonth (InLeapYear t) (MonthFromTime t).
Proof.
  unfold DateFromTime, MonthFromTime.
  pose proof (DayWithinYear_tight t) as Hd.
  pose proof (InLeapYearOf_range (YearFromTime t)) as Hl.
  unfold InLeapYear in *. revert Hd Hl.
  generalize (DayWithinYear t) (InLeapYearOf (YearFromTime t)). intros dw leap Hd Hl.
  unfold monthOfDay.
  split_tests; unfold monthStart, DaysInMonth; cbn [orb]; split_tests; cbn [orb]; lia.
Qed.

Lemma DaysInMonth_range leap m : 0 <= leap <= 1 -> 28 <= DaysInMonth leap m <= 31.
Proof.
  intros H. unfold DaysInMonth.
  destruct (m =? 1); [lia|].
  destruct ((m =? 3) || (m =? 5) || (m =? 8) || (m =? 10)); lia.
Qed.

Lemma DateFromTime_31 t : 1 <= DateFromTime t <= 31.
Proof.
  pose proof (DateFromTime_pos t). pose proof (DateFromTime_le t).
  pose proof (DaysInMonth_range (InLeapYear t) (MonthFromTime t)
                (InLeapYearOf_range _)). lia.
Qed.

(** A day past the end of a month is a day of the following month. *)
Lemma MakeDay_overflow y m dt :
  0 <= m <= 10 ->
  MakeDay y m dt = MakeDay y (m + 1) (dt - DaysInMonth (InLeapYearOf y) m).
Proof.
  intros Hm. unfold MakeDay.
  rewrite !Z.div_small, !Z.mod_small by lia. rewrite Z.add_0_r.
  pose proof (InLeapYearOf_range y) as Hl.
  generalize (InLeapYearOf y) Hl. intros leap Hleap.
  unfold monthStart, DaysInMonth.
  split_tests; cbn [orb]; lia.
Qed.

(** The fields of a local reading made of a year, a month 0..11, a day
    1..31 and a time of day: the day is kept when the month has it and is
    carried into the following month otherwise. *)
Lemma rolled_fields y m dt tod :
  0 <= m <= 11 -> 1 <= dt <= 31 -> 0 <= tod < msPerDay ->
  calendarCarry y m dt tod (MakeDate (MakeDay y m dt) tod).
Proof.
  intros Hm Hdt Htod. unfold calendarCarry. cbv zeta.
  pose proof (DaysInMonth_range (InLeapYearOf y) m (InLeapYearOf_range y)) as Hlen.
  split; [apply TimeWithinDay_of_MakeDate; exact Htod|].
  destruct (Z.le_gt_cases dt (DaysInMonth (InLeapYearOf y) m)) as [Hin|Hout].
  - destruct (fields_of_MakeDate y m dt tod) as (H1 & H2 & H3 & _); auto; [lia|].
    split; [exact H1|]. split; [auto|lia].
  - assert (Hm10 : m <= 10).
    { destruct (Z.eq_dec m 11) as [->|]; [|lia].
      unfold DaysInMonth in Hout. cbn in Hout. lia. }
    rewrite MakeDay_overflow by lia.
    pose proof (DaysInMonth_range (InLeapYearOf y) (m + 1) (InLeapYearOf_range y)).
    destruct (fields_of_MakeDate y (m + 1)
                (dt - DaysInMonth (InLeapYearOf y) m) tod) as (H1 & H2 & H3 & _);
      auto; lia.
Qed.

(** What the setters make of a local reading is that reading advanced on
    the calendar. *)
Lemma moved_advanced k n x : advanced k n x (moved k n x).
Proof.
  destruct k; unfold advanced, moved.
  - reflexivity.
  - lia.
  - rewrite MakeDay_normal. apply rolled_fields.
    + pose proof (Z.mod_pos_bound (MonthFromTime x + n) 12 ltac:(lia)). lia.
    + apply DateFromTime_31.
    + apply TimeWithinDay_range.
  - apply rolled_fields.
    + apply MonthFromTime_range.
    + apply DateFromTime_31.
    + apply TimeWithinDay_range.
Qed.

Lemma digits_amount ds letter :
  allChars Chars.isDigit ds = true -> ds <> "" -> limitUnit letter = true ->
  amountText limitUnit ds "" (String letter "").
Proof.
  intros Hd Hne Hl. repeat split; auto. right. exists letter. auto.
Qed.




(** [parseTimeLimit("2w")] is the local time of day of now, 14 days later,
    and [parseTimeLimit("3m")] is now moved on by 3 calendar months. *)
Example parseTimeLimit_2w tza clock :
  parseTimeLimit tza clock "2w"
  = Return (atLocal tza (LocalTime tza clock + 14 * msPerDay)).
Proof.
  destruct (parseTimeLimit_unit tza clock "2" "" "w"
              (digits_amount "2" "w" eq_refl ltac:(discriminate) eq_refl))
    as (k & Hk & E).
  vm_compute in Hk. inversion Hk; subst k. exact E.
Qed.

Example parseTimeLimit_3m tza clock :
  exists x', advanced Months 3 (LocalTime tza clock) x' /\
    parseTimeLimit tza clock "3m" = Return (atLocal tza x').
Proof.
  destruct (parseTimeLimit_unit tza clock "3" "" "m"
              (digits_amount "3" "m" eq_refl ltac:(discriminate) eq_refl))
    as (k & Hk & E).
  vm_compute in Hk. inversion Hk; subst k.
  eexists. split; [apply moved_advanced|exact E].
Qed.

(** Three calendar months after 1 November 2026, 12:34:56.789 UTC, in a
    zone on UTC; and in Eastern time, where the clock shows 07:34 in
    winter time on both days. *)
Example parseTimeLimit_3m_at :
  parseTimeLimit (fixedZone 0) 1793536496789 "3m" = Return (mkDate (Num 1801485296789)) /\
  parseTimeLimit eastern 1793536496789 "3m" = Return (mkDate (Num 1801485296789)) /\
  toISOString (mkDate (Num 1801485296789)) = Done "2027-02-01T12:34:56.789Z".
Proof. repeat split; vm_compute; reflexivity. Qed.

(** A day that the target month lacks is carried over: 31 January plus one
    month is 3 March. *)
Example parseTimeLimit_rollover :
  toISOString (mkDate (Num 1769862896789)) = Done "2026-01-31T12:34:56.789Z" /\
  parseTimeLimit (fixedZone 0) 1769862896789 "1m" = Return (mkDate (Num 1772541296789)) /\
  toISOString (mkDate (Num 1772541296789)) = Done "2026-03-03T12:34:56.789Z".
Proof. repeat split; vm_compute; reflexivity. Qed.

(** ** parseTimeLimit: the result as the caller uses it *)

Lemma MakeDay_bounds y m dt :
  0 <= y <= 120000 -> 0 <= m <= 11 -> 1 <= dt <= 31 ->
  -719528 <= MakeDay y m dt <= 43110000.
Proof.
  intros Hy Hm Hd. unfold MakeDay.
  rewrite Z.div_small, Z.mod_small by lia. rewrite Z.add_0_r.
  pose proof (DayFromYear_mono 0 y ltac:(lia)) as H0.
  pose proof (DayFromYear_mono y 120000 ltac:(lia)) as H1.
  change (DayFromYear 0) with (-719528) in H0.
  change (DayFromYear 120000) with 43109572 in H1.
  pose proof (monthStart_range (InLeapYearOf y) m (InLeapYearOf_range y)). lia.
Qed.

Lemma TimeClip_out x : maxTime < x -> TimeClip x = NaN.
Proof.
  intros H. unfold TimeClip.
  destruct (Z.leb_spec (Z.abs x) maxTime); [lia|reflexivity].
Qed.

Lemma toISOString_valid t : exists iso, toISOString (mkDate (Num t)) = Done iso.
Proof. unfold toISOString. cbn [timeValue]. eauto. Qed.

Lemma clock_fields tza clock :
  zoneOK tza -> clockOK clock ->
  0 <= YearFromTime (LocalTime tza clock) <= 10001.
Proof.
  intros Hz Hc. unfold YearFromTime. apply YearFromDay_range.
  apply clock_day; assumption.
Qed.

(** X17: what [list] does with the limit, [parseTimeLimit(...).toISOString()].
    For an amount up to 100000 of any unit the date returned is valid and
    [toISOString] yields its text.  For an amount of 300000 years or more
    the date is past the range of [Date]: [parseTimeLimit] returns the
    invalid date all the same, and [toISOString] throws [Invalid time
    value]. *)
Theorem parseTimeLimit_validity (tza : zone) (clock : Z) (ds ws u : string) :
  zoneOK tza -> clockOK clock -> amountText limitUnit ds ws u ->
  (decValue ds <= 100000 ->
   exists t iso,
     parseTimeLimit tza clock (ds ++ ws ++ u) = Return (mkDate (Num t)) /\
     toISOString (mkDate (Num t)) = Done iso) /\
  (300000 <= decValue ds -> limitUnitOf u = Some Years ->
   parseTimeLimit tza clock (ds ++ ws ++ u) = Return invalidDate /\
   toISOString invalidDate = Thrown "Invalid time value").
Proof.
  intros Hz Hc Hform.
  destruct (parseTimeLimit_unit tza clock ds ws u Hform) as (k & Hk & E).
  rewrite E. clear E.
  destruct Hform as (Hd & _).
  pose proof (decValue_nonneg ds Hd) as Hn.
  pose proof (clock_fields tza clock Hz Hc) as Hy.
  pose proof (MonthFromTime_range (LocalTime tza clock)) as Hm.
  pose proof (DateFromTime_31 (LocalTime tza clock)) as Hdt.
  pose proof (TimeWithinDay_range (LocalTime tza clock)) as Htod.
  pose proof (zone_bounds tza clock true Hz) as Hlt.
  pose proof (zone_bounds tza (moved k (decValue ds) (LocalTime tza clock)) false Hz)
    as Hut.
  unfold clockOK in Hc.
  split.
  - intros Hsmall.
    assert (Hv : exists t,
      atLocal tza (moved k (decValue ds) (LocalTime tza clock)) = mkDate (Num t)).
    { unfold atLocal. rewrite TimeClip_ok; [eauto|]. unfold UTC.
      revert Hut.
      generalize (tza (moved k (decValue ds) (LocalTime tza clock)) false).
      intros off Hoff.
      destruct k; unfold moved.
      - unfold LocalTime, maxTime, msPerDay in *. lia.
      - unfold LocalTime, maxTime, msPerDay in *. lia.
      - rewrite MakeDay_normal.
        pose proof (Z.mod_pos_bound (MonthFromTime (LocalTime tza clock) + decValue ds) 12
                      ltac:(lia)) as Hmod.
        assert (0 <= (MonthFromTime (LocalTime tza clock) + decValue ds) / 12 <= 9000).
        { split; [apply Z.div_pos; lia|].
          apply Z.div_le_upper_bound; lia. }
        pose proof (MakeDay_bounds
                      (YearFromTime (LocalTime tza clock)
                       + (MonthFromTime (LocalTime tza clock) + decValue ds) / 12)
                      ((MonthFromTime (LocalTime tza clock) + decValue ds) mod 12)
                      (DateFromTime (LocalTime tza clock))
                      ltac:(lia) ltac:(lia) Hdt) as Hb.
        unfold MakeDate, maxTime, msPerDay in *. lia.
      - pose proof (MakeDay_bounds
                      (YearFromTime (LocalTime tza clock) + decValue ds)
                      (MonthFromTime (LocalTime tza clock))
                      (DateFromTime (LocalTime tza clock))
                      ltac:(lia) Hm Hdt) as Hb.
        unfold MakeDate, maxTime, msPerDay in *. lia. }
    destruct Hv as (t & ->). destruct (toISOString_valid t) as (iso & Hiso).
    exists t, iso. auto.
  - intros Hbig Hyears. rewrite Hyears in Hk. inversion Hk; subst k.
    split; [|reflexivity]. f_equal.
    unfold atLocal, invalidDate. f_equal.
    apply TimeClip_out.
    assert (Hday : 108853222 <= MakeDay (YearFromTime (LocalTime tza clock) + decValue ds)
                                  (MonthFromTime (LocalTime tza clock))
                                  (DateFromTime (LocalTime tza clock))).
    { unfold MakeDay. rewrite Z.div_small, Z.mod_small by lia. rewrite Z.add_0_r.
      pose proof (DayFromYear_mono 300000
                    (YearFromTime (LocalTime tza clock) + decValue ds) ltac:(lia)) as H0.
      change (DayFromYear 300000) with 108853222 in H0.
      pose proof (monthStart_range
                    (InLeapYearOf (YearFromTime (LocalTime tza clock) + decValue ds))
                    (MonthFromTime (LocalTime tza clock)) (InLeapYearOf_range _)).
      lia. }
    unfold UTC. revert Hut. unfold moved.
    generalize (tza (MakeDate
                       (MakeDay (YearFromTime (LocalTime tza clock) + decValue ds)
                          (MonthFromTime (LocalTime tza clock))
                          (DateFromTime (LocalTime tza clock)))
                       (TimeWithinDay (LocalTime tza clock))) false).
    intros off Hoff.
    unfold MakeDate, maxTime, msPerDay in *. lia.
Qed.

Lemma parseTimeLimit_validity_witness :
  parseTimeLimit eastern 1793536496789 ("300000" ++ "" ++ "y") = Return invalidDate /\
  toISOString invalidDate = Thrown "Invalid time value".
Proof.
  assert (Hc : clockOK 1793536496789) by (unfold clockOK; lia).
  destruct (parseTimeLimit_validity eastern 1793536496789 "300000" "" "y" eastern_OK Hc
              (digits_amount "300000" "y" eq_refl ltac:(discriminate) eq_refl))
    as (_ & H).
  apply H; [vm_compute; discriminate|reflexivity].
Defined.

(** ** formatDateTime, and parseDateTime on its output *)

Lemma pad2_checked : checkFrom (Z.to_nat 100) 0 padOK = true.
Proof. vm_compute. reflexivity. Qed.

Lemma year_checked : checkFrom (Z.to_nat 9000) 1000 yearOK = true.
Proof. vm_compute. reflexivity. Qed.

Lemma pad2_twoDigits z : 0 <= z < 100 -> pad2 (Num z) = twoDigits z.
Proof.
  intros H. apply String.eqb_eq.
  apply (checkFrom_spec _ _ _ pad2_checked z). rewrite Z2Nat.id; lia.
Qed.

Lemma year_fourDigits y : 1000 <= y <= 9999 -> numberToString (Num y) = fourDigits y.
Proof.
  intros H. apply String.eqb_eq.
  apply (checkFrom_spec _ _ _ year_checked y). rewrite Z2Nat.id; lia.
Qed.

Lemma digit_ofCode k : 0 <= k <= 9 -> Chars.isDigit (Chars.ofCode (48 + k)) = true.
Proof. intros H. apply isDigit_code. rewrite code_ofCode; lia. Qed.

Lemma decValue_two a b :
  0 <= a <= 9 -> 0 <= b <= 9 ->
  decValue (String (Chars.ofCode (48 + a)) (String (Chars.ofCode (48 + b)) "")) = 10 * a + b.
Proof.
  intros Ha Hb. unfold decValue. cbn [decValueFrom].
  rewrite !code_ofCode by lia. lia.
Qed.

Lemma decValue_four a b c d :
  0 <= a <= 9 -> 0 <= b <= 9 -> 0 <= c <= 9 -> 0 <= d <= 9 ->
  decValue (String (Chars.ofCode (48 + a)) (String (Chars.ofCode (48 + b))
             (String (Chars.ofCode (48 + c)) (String (Chars.ofCode (48 + d)) ""))))
  = 1000 * a + 100 * b + 10 * c + d.
Proof.
  intros Ha Hb Hc Hd. unfold decValue. cbn [decValueFrom].
  rewrite !code_ofCode by lia. lia.
Qed.

Lemma digit_chr a p :
  Chars.isDigit a = true -> Chars.isDigit p = false -> Chars.chr false p a = false.
Proof. intros Ha Hp. unfold Chars.chr. apply digit_neq; assumption. Qed.

Lemma digit_chr_i a p :
  Chars.isDigit a = true -> Chars.isDigit (Chars.canonicalize p) = false ->
  Chars.chr true p a = false.
Proof.
  intros Ha Hp. unfold Chars.chr.
  assert (E : Chars.canonicalize a = a).
  { revert Ha. destruct a as [[] [] [] [] [] [] [] []]; vm_compute; congruence. }
  rewrite E. apply digit_neq; assumption.
Qed.

(** Evaluates a test on a closed code unit. *)
Ltac eval_test t :=
  let v := eval vm_compute in t in
  lazymatch v with
  | true => change t with true
  | false => change t with false
  end.

(** Runs a pattern over a text whose digits are kept symbolic. *)
Ltac eval_run :=
  repeat first
    [ progress cbn [run star seq alts lit List.map length Nat.eqb Nat.sub setCap
                    Str.take repeat]
    | match goal with
      | H : Chars.isDigit ?a = true |- context [Chars.isDigit ?a] => rewrite H
      | H : Chars.isDigit ?a = true |- context [Chars.isSpace ?a] =>
          rewrite (digit_not_space a H)
      | H : Chars.isDigit ?a = true |- context [Chars.chr false ?p ?a] =>
          rewrite (digit_chr a p H eq_refl)
      | H : Chars.isDigit ?a = true |- context [Chars.chr true ?p ?a] =>
          rewrite (digit_chr_i a p H eq_refl)
      | |- context [Chars.chr false ?p ?q] => eval_test (Chars.chr false p q)
      | |- context [Chars.isSpace ?q] => eval_test (Chars.isSpace q)
      | |- context [Chars.isDigit ?q] => eval_test (Chars.isDigit q)
      end ].

(** The rules that open with a word do not match a text that opens with a
    digit. *)
Lemma digit_start_no_word a s :
  Chars.isDigit a = true ->
  exec 4 re_rel (String a s) = None /\
  exec 5 re_day (String a s) = None /\
  exec 6 re_month (String a s) = None.
Proof.
  intros Ha. repeat split.
  - unfold re_rel. cbn [seq]. rewrite exec_anchored. eval_run. reflexivity.
  - unfold re_day, weekdays. cbn [seq]. rewrite exec_anchored. eval_run. reflexivity.
  - unfold re_month, months. cbn [seq]. rewrite exec_anchored. eval_run. reflexivity.
Qed.

Section MinuteTexts.

Variables y1 y2 y3 y4 m1 m2 d1 d2 h1 h2 i1 i2 : ascii.

Hypothesis Hy1 : Chars.isDigit y1 = true.
Hypothesis Hy2 : Chars.isDigit y2 = true.
Hypothesis Hy3 : Chars.isDigit y3 = true.
Hypothesis Hy4 : Chars.isDigit y4 = true.
Hypothesis Hm1 : Chars.isDigit m1 = true.
Hypothesis Hm2 : Chars.isDigit m2 = true.
Hypothesis Hd1 : Chars.isDigit d1 = true.
Hypothesis Hd2 : Chars.isDigit d2 = true.
Hypothesis Hh1 : Chars.isDigit h1 = true.
Hypothesis Hh2 : Chars.isDigit h2 = true.
Hypothesis Hi1 : Chars.isDigit i1 = true.
Hypothesis Hi2 : Chars.isDigit i2 = true.

Let input : string :=
  String y1 (String y2 (String y3 (String y4 (String "-"
  (String m1 (String m2 (String "-" (String d1 (String d2 (String " "
  (String h1 (String h2 (String ":" (String i1 (String i2 ""))))))))))))))).

Lemma iso_exec :
  exec 5 re_isoDateTime input =
  Some [Some input; Some (String y1 (String y2 (String y3 (String y4 ""))));
        Some (String m1 (String m2 "")); Some (String d1 (String d2 ""));
        Some (String h1 (String h2 "")); Some (String i1 (String i2 ""))].
Proof.
  subst input. unfold re_isoDateTime. cbn [seq]. rewrite exec_anchored.
  unfold digits_4, digits_1_2, digits_2, digit, spaces1.
  eval_run. reflexivity.
Qed.

Lemma slash_exec : exec 5 re_dateTime input = None.
Proof.
  subst input. unfold re_dateTime. cbn [seq]. rewrite exec_anchored.
  unfold digits_4, digits_1_2, digits_2, digit, spaces1.
  eval_run. reflexivity.
Qed.

Lemma parseDateTime_digits tza clock DateParse :
  let d := ofFields tza
             (Num (decValue (String y1 (String y2 (String y3 (String y4 ""))))))
             (Num (decValue (String m1 (String m2 "")) - 1))
             (Num (decValue (String d1 (String d2 ""))))
             (Num (decValue (String h1 (String h2 ""))))
             (Num (decValue (String i1 (String i2 "")))) in
  isInvalid d = false ->
  parseDateTime tza clock DateParse input = Return d.
Proof.
  intros d Hvalid. unfold parseDateTime.
  destruct (lower_head y1 (String y2 (String y3 (String y4 (String "-"
              (String m1 (String m2 (String "-" (String d1 (String d2 (String " "
              (String h1 (String h2 (String ":" (String i1 (String i2 "")))))))))))))))
              Hy1) as (t & Hlow).
  fold input in Hlow. rewrite Hlow.
  assert (E1 : String.eqb (String y1 t) "today" = false).
  { cbn [String.eqb]. rewrite (digit_neq y1 "t" Hy1 eq_refl). reflexivity. }
  assert (E2 : String.eqb (String y1 t) "tomorrow" = false).
  { cbn [String.eqb]. rewrite (digit_neq y1 "t" Hy1 eq_refl). reflexivity. }
  rewrite E1, E2.
  destruct (digit_start_no_word y1 t Hy1) as (R1 & R2 & R3).
  unfold relRule, dayRule, monthRule, dateTimeRule, isoDateTimeRule.
  rewrite R1, R2, R3, slash_exec, iso_exec.
  unfold group, getCap. cbn [nth].
  rewrite !parseInt_digits by (cbn [allChars]; rewrite ?Hy1, ?Hy2, ?Hy3, ?Hy4, ?Hm1,
    ?Hm2, ?Hd1, ?Hd2, ?Hh1, ?Hh2, ?Hi1, ?Hi2; (reflexivity || discriminate)).
  cbn [nsub]. fold d. cbn [firstOf]. rewrite Hvalid. reflexivity.
Qed.

End MinuteTexts.

Lemma twoDigits_digits z :
  0 <= z <= 99 ->
  0 <= z / 10 <= 9 /\ 0 <= z mod 10 <= 9 /\ 10 * (z / 10) + z mod 10 = z.
Proof. intros H. Z.div_mod_to_equations. lia. Qed.

Lemma fourDigits_digits y :
  1000 <= y <= 9999 ->
  0 <= y / 1000 <= 9 /\ 0 <= (y / 100) mod 10 <= 9 /\ 0 <= y mod 100 <= 99 /\
  1000 * (y / 1000) + 100 * ((y / 100) mod 10) + y mod 100 = y.
Proof. intros H. Z.div_mod_to_equations. lia. Qed.

Lemma ofFields_is_stamp tza y mo dt h mi :
  zoneOK tza -> 100 <= y <= 10001 -> -1 <= mo <= 99 -> 0 <= dt <= 99 ->
  0 <= h <= 200 -> 0 <= mi <= 100 ->
  ofFields tza (Num y) (Num mo) (Num dt) (Num h) (Num mi)
  = stamp tza (MakeDay y mo dt) h mi.
Proof.
  intros Hz Hy Hmo Hdt Hh Hmi. unfold ofFields, stamp.
  destruct ((0 <=? y) && (y <=? 99)) eqn:E.
  { apply andb_true_iff in E. destruct E as [_ E]. apply Z.leb_le in E. lia. }
  cbv zeta. rewrite stamp_valid; auto.
  pose proof (MakeDay_range y mo dt ltac:(lia) Hmo Hdt). lia.
Qed.

(** [parseDateTime] on a text [yyyy-mm-dd HH:mm]: the rule of that form
    is the one that applies. *)
Lemma parseDateTime_minuteText_rule tza clock DateParse y mo d h mi :
  zoneOK tza -> 1000 <= y <= 9999 ->
  0 <= mo <= 99 -> 0 <= d <= 99 -> 0 <= h <= 99 -> 0 <= mi <= 99 ->
  parseDateTime tza clock DateParse (minuteText y mo d h mi)
  = Return (stamp tza (MakeDay y (mo - 1) d) h mi).
Proof.
  intros Hz Hy Hmo Hd Hh Hmi.
  destruct (fourDigits_digits y Hy) as (Y1 & Y2 & Y34 & Ey).
  destruct (twoDigits_digits (y mod 100) Y34) as (Y3 & Y4 & Ey2).
  destruct (twoDigits_digits mo Hmo) as (M1 & M2 & Em).
  destruct (twoDigits_digits d Hd) as (D1 & D2 & Ed).
  destruct (twoDigits_digits h Hh) as (H1 & H2 & Eh).
  destruct (twoDigits_digits mi Hmi) as (I1 & I2 & Ei).
  pose proof (parseDateTime_digits _ _ _ _ _ _ _ _ _ _ _ _
                (digit_ofCode _ Y1) (digit_ofCode _ Y2) (digit_ofCode _ Y3)
                (digit_ofCode _ Y4) (digit_ofCode _ M1) (digit_ofCode _ M2)
                (digit_ofCode _ D1) (digit_ofCode _ D2) (digit_ofCode _ H1)
                (digit_ofCode _ H2) (digit_ofCode _ I1) (digit_ofCode _ I2)
                tza clock DateParse) as P.
  cbv zeta in P.
  rewrite decValue_four, !decValue_two in P by assumption.
  replace (1000 * (y / 1000) + 100 * ((y / 100) mod 10) + 10 * (y mod 100 / 10)
           + (y mod 100) mod 10) with y in P by lia.
  rewrite Em, Ed, Eh, Ei in P.
  rewrite ofFields_is_stamp in P by (try assumption; lia).
  apply P. apply isInvalid_stamp.
Qed.

(** A date made of a day of the calendar and a time of day reads these
    fields back when its local reading occurs in the zone. *)
Lemma stamp_fields tza y m dt h mi :
  zoneOK tza -> occurs tza (reading (MakeDay y m dt) h mi) ->
  0 <= m <= 11 -> 1 <= dt <= DaysInMonth (InLeapYearOf y) m ->
  0 <= h <= 23 -> 0 <= mi <= 59 ->
  let d := stamp tza (MakeDay y m dt) h mi in
  getFullYear tza d = Num y /\ getMonth tza d = Num m /\ getDate tza d = Num dt /\
  getHours tza d = Num h /\ getMinutes tza d = Num mi /\
  getSeconds tza d = Num 0 /\ getMilliseconds tza d = Num 0.
Proof.
  intros Hz Ho Hm Hdt Hh Hmi d.
  destruct (stamp_hours_minutes tza (MakeDay y m dt) h mi Ho ltac:(lia)) as (E1 & E2).
  destruct (stamp_seconds tza (MakeDay y m dt) h mi Hz) as (E3 & E4).
  rewrite Z.div_small in E1 by lia. rewrite Z.add_0_r, Z.mod_small in E1 by lia.
  rewrite Z.mod_small in E2 by lia.
  assert (Hday : Day (LocalTime tza (UTC tza (MakeDate (MakeDay y m dt) (MakeTime h mi 0 0))))
                 = MakeDay y m dt).
  { unfold occurs, reading in Ho. rewrite Ho.
    apply Day_of_MakeDate. unfold MakeTime, msPerHour, msPerMinute, msPerSecond, msPerDay.
    lia. }
  destruct (fields_of_MakeDay y m dt _ Hm Hdt Hday) as (F1 & F2 & F3).
  subst d. unfold getFullYear, getMonth, getDate, getter, stamp. cbn [timeValue].
  rewrite F1, F2, F3. auto 10.
Qed.

Lemma formatDateTime_timed tza DateParse dt text t :
  sorUndefined (date dt) = None -> dateTime dt = Some text -> text <> "" ->
  DateParse text = Num t ->
  1000 <= YearFromTime (LocalTime tza t) <= 9999 ->
  formatDateTime tza DateParse dt =
  minuteText (YearFromTime (LocalTime tza t)) (MonthFromTime (LocalTime tza t) + 1)
    (DateFromTime (LocalTime tza t)) (HourFromTime (LocalTime tza t))
    (MinFromTime (LocalTime tza t)).
Proof.
  intros Hd Htext Hne Ht Hy. unfold formatDateTime. rewrite Hd, Htext.
  destruct text as [|c text]; [congruence|]. cbn [sorUndefined].
  rewrite Ht. unfold getFullYear, getMonth, getDate, getHours, getMinutes, getter.
  cbn [timeValue nadd].
  pose proof (MonthFromTime_range (LocalTime tza t)).
  pose proof (DateFromTime_31 (LocalTime tza t)).
  assert (0 <= HourFromTime (LocalTime tza t) < 24)
    by (unfold HourFromTime; apply Z.mod_pos_bound; lia).
  assert (0 <= MinFromTime (LocalTime tza t) < 60)
    by (unfold MinFromTime; apply Z.mod_pos_bound; lia).
  rewrite year_fourDigits by exact Hy.
  rewrite !pad2_twoDigits by lia. reflexivity.
Qed.

(** X18: [formatDateTime] shows an all-day value by its date text as it
    is, whatever else the value holds, and a value with neither date nor
    time as [(no time)].  A timed value is shown by the local year, month,
    day, hour and minute of the instant its text parses to, as
    [yyyy-mm-dd HH:mm] for the years 1000 to 9999; a text that does not
    parse is shown as [NaN-NaN-NaN NaN:NaN]. *)
Theorem formatDateTime_text
    (tza : zone) (DateParse : string -> number) (dt : EventDateTime) :
  (forall text, date dt = Some text -> text <> "" ->
     formatDateTime tza DateParse dt = text) /\
  (sorUndefined (date dt) = None -> sorUndefined (dateTime dt) = None ->
     formatDateTime tza DateParse dt = "(no time)") /\
  (forall text, sorUndefined (date dt) = None -> dateTime dt = Some text -> text <> "" ->
     (DateParse text = NaN ->
        formatDateTime tza DateParse dt = "NaN-NaN-NaN NaN:NaN") /\
     (forall t, DateParse text = Num t ->
        1000 <= YearFromTime (LocalTime tza t) <= 9999 ->
        formatDateTime tza DateParse dt =
        minuteText (YearFromTime (LocalTime tza t)) (MonthFromTime (LocalTime tza t) + 1)
          (DateFromTime (LocalTime tza t)) (HourFromTime (LocalTime tza t))
          (MinFromTime (LocalTime tza t)))).
Proof.
  split; [|split].
  - unfold formatDateTime. intros text -> Hne.
    destruct text; [congruence|reflexivity].
  - unfold formatDateTime. intros -> ->. reflexivity.
  - intros text Hd Htext Hne. split.
    + unfold formatDateTime. rewrite Hd, Htext.
      destruct text as [|c text]; [congruence|]. cbn [sorUndefined].
      intros ->. reflexivity.
    + intros t Ht Hy. apply (formatDateTime_timed tza DateParse dt text t); assumption.
Qed.

Lemma minute_floor t :
  Day t * msPerDay + HourFromTime t * msPerHour + MinFromTime t * msPerMinute
  = t - t mod msPerMinute.
Proof.
  unfold Day, HourFromTime, MinFromTime, msPerDay, msPerHour, msPerMinute, msPerSecond.
  Z.div_mod_to_equations. lia.
Qed.

(** X19: what [formatDateTime] shows for a timed value, [parseDateTime]
    reads back as the instant at which the zone shows that minute: for an
    instant in the local years 1000 to 9999 the text parses to the date of
    the local reading cut to the minute, whatever the clock and the native
    parser.  That is the instant itself, cut to the minute, when the zone
    takes the reading shown with the offset in effect at the instant; when
    the local clock shows a minute twice and the instant lies in the second
    pass, it is the instant of the first. *)
Theorem parseDateTime_formatDateTime
    (tza : zone) (clock : Z) (DateParse DateParse' : string -> number)
    (text : string) (tz : option string) (t : Z) :
  zoneOK tza -> text <> "" -> DateParse text = Num t ->
  1000 <= YearFromTime (LocalTime tza t) <= 9999 ->
  let shown := LocalTime tza t - LocalTime tza t mod msPerMinute in
  parseDateTime tza clock DateParse'
    (formatDateTime tza DateParse (mkEventDateTime None (Some text) tz))
  = Return (mkDate (Num (UTC tza shown))) /\
  (tza shown false = tza t true ->
   UTC tza shown = t - LocalTime tza t mod msPerMinute).
Proof.
  intros Hz Hne Ht Hy shown. split.
  - rewrite (formatDateTime_timed tza DateParse (mkEventDateTime None (Some text) tz)
               text t eq_refl eq_refl Hne Ht Hy).
    set (lt := LocalTime tza t) in *.
    pose proof (MonthFromTime_range lt).
    pose proof (DateFromTime_31 lt).
    assert (0 <= HourFromTime lt < 24) by (unfold HourFromTime; apply Z.mod_pos_bound; lia).
    assert (0 <= MinFromTime lt < 60) by (unfold MinFromTime; apply Z.mod_pos_bound; lia).
    rewrite parseDateTime_minuteText_rule by (auto; lia).
    f_equal. unfold stamp. do 3 f_equal.
    replace (MonthFromTime lt + 1 - 1) with (MonthFromTime lt) by lia.
    pose proof (MakeDay_fields lt 0) as Hd. rewrite !Z.add_0_r in Hd. rewrite Hd.
    rewrite reading_value. unfold shown. apply minute_floor.
  - intros Hoff. unfold UTC. rewrite Hoff. unfold shown, LocalTime. lia.
Qed.

Lemma parseDateTime_formatDateTime_witness :
  parseDateTime eastern 0 (fun _ => NaN)
    (formatDateTime eastern (fun _ => Num 1793536496789)
       (mkEventDateTime None (Some "2026-11-01T12:34:56.789Z") (Some "UTC")))
  = Return (mkDate (Num 1793536440000)).
Proof.
  destruct (parseDateTime_formatDateTime eastern 0 (fun _ => Num 1793536496789)
              (fun _ => NaN) "2026-11-01T12:34:56.789Z" (Some "UTC") 1793536496789
              eastern_OK) as (H & _).
  - discriminate.
  - reflexivity.
  - vm_compute. split; discriminate.
  - exact H.
Defined.

(** In the hour that the clocks of 1 November 2026 show twice, an instant
    of the second pass is shown as [01:30] and read back an hour
    earlier, in the first. *)
Example parseDateTime_formatDateTime_repeated_hour :
  formatDateTime eastern (fun _ => Num 1793514600000)
    (mkEventDateTime None (Some "2026-11-01T06:30:00.000Z") None)
  = "2026-11-01 01:30" /\
  parseDateTime eastern 0 (fun _ => NaN) "2026-11-01 01:30"
  = Return (mkDate (Num (1793514600000 - msPerHour))).
Proof. split; vm_compute; reflexivity. Qed.

(** X20: [parseDateTime] on a text [yyyy-mm-dd HH:mm] that names a day of
    the calendar and a time of day, with the year from 1000 to 9999,
    whatever the clock and the native parser: the date returned is the
    date of that local reading, and it reads, on the local clock, exactly
    that year, month, day, hour and minute, at zero seconds, when the
    reading occurs in the zone, which it does unless a transition skips
    it. *)
Theorem parseDateTime_minuteText
    (tza : zone) (clock : Z) (DateParse : string -> number) (y mo d h mi : Z) :
  zoneOK tza -> 1000 <= y <= 9999 -> 1 <= mo <= 12 ->
  1 <= d <= DaysInMonth (InLeapYearOf y) (mo - 1) ->
  0 <= h <= 23 -> 0 <= mi <= 59 ->
  let r := stamp tza (MakeDay y (mo - 1) d) h mi in
  parseDateTime tza clock DateParse (minuteText y mo d h mi) = Return r /\
  (occurs tza (reading (MakeDay y (mo - 1) d) h mi) ->
   getFullYear tza r = Num y /\ getMonth tza r = Num (mo - 1) /\
   getDate tza r = Num d /\ getHours tza r = Num h /\ getMinutes tza r = Num mi /\
   getSeconds tza r = Num 0 /\ getMilliseconds tza r = Num 0).
Proof.
  intros Hz Hy Hmo Hd Hh Hmi r.
  pose proof (DaysInMonth_range (InLeapYearOf y) (mo - 1) (InLeapYearOf_range y)).
  split.
  - apply parseDateTime_minuteText_rule; auto; lia.
  - intros Ho. apply stamp_fields; auto; lia.
Qed.

Lemma parseDateTime_minuteText_witness :
  exists r,
    parseDateTime eastern 0 (fun _ => NaN) "2028-02-29 09:05" = Return r /\
    getFullYear eastern r = Num 2028 /\ getMonth eastern r = Num 1 /\
    getDate eastern r = Num 29 /\
    getHours eastern r = Num 9 /\ getMinutes eastern r = Num 5.
Proof.
  destruct (parseDateTime_minuteText eastern 0 (fun _ => NaN) 2028 2 29 9 5 eastern_OK)
    as (E & F); try lia.
  - vm_compute. split; discriminate.
  - destruct F as (H1 & H2 & H3 & H4 & H5 & _); [vm_compute; reflexivity|].
    eexists. split; [exact E|]. repeat split; assumption.
Defined.

(** The time [02:30] of 8 March 2026 is skipped in Eastern time: the text
    is read as 07:30 UTC, which the zone shows as 03:30. *)
Example parseDateTime_minuteText_skipped :
  parseDateTime eastern 0 (fun _ => NaN) "2026-03-08 02:30"
  = Return (mkDate (Num 1772955000000)) /\
  toISOString (mkDate (Num 1772955000000)) = Done "2026-03-08T07:30:00.000Z" /\
  getHours eastern (mkDate (Num 1772955000000)) = Num 3 /\
  getMinutes eastern (mkDate (Num 1772955000000)) = Num 30.
Proof. repeat split; vm_compute; reflexivity. Qed.

(** ** parseDateTime: the names of days and months *)

Lemma ofCode_code a : Chars.ofCode (Chars.code a) = a.
Proof.
  unfold Chars.ofCode, Chars.code. rewrite N2Z.id. apply ascii_N_embedding.
Qed.

Lemma code_inj a b : Chars.code a = Chars.code b -> a = b.
Proof. intros H. rewrite <- (ofCode_code a), <- (ofCode_code b), H. reflexivity. Qed.

Lemma code_range a : 0 <= Chars.code a < 256.
Proof.
  unfold Chars.code. pose proof (N_ascii_bounded a) as H. lia.
Qed.

(** A code unit that matches a lower-case letter without regard to case
    is that letter once lowered. *)
Lemma chr_i_lower a p :
  Chars.isLower p = true -> Chars.chr true p a = true -> Chars.toLowerChar a = p.
Proof.
  unfold Chars.chr, Chars.canonicalize, Chars.toLowerChar, Chars.isLower, Chars.isUpper,
    Chars.isUpperLatin1.
  intros Hp. rewrite Hp. apply andb_true_iff in Hp. destruct Hp as [P1 P2].
  apply Z.leb_le in P1. apply Z.leb_le in P2.
  pose proof (code_range a) as Ra.
  intros H. apply Ascii.eqb_eq in H.
  destruct ((97 <=? Chars.code a) && (Chars.code a <=? 122)) eqn:La.
  - apply andb_true_iff in La. destruct La as [L1 L2].
    apply Z.leb_le in L1. apply Z.leb_le in L2.
    apply (f_equal Chars.code) in H. rewrite !code_ofCode in H by lia.
    assert (E : a = p) by (apply code_inj; lia). subst a.
    destruct (Z.leb_spec 65 (Chars.code p)); destruct (Z.leb_spec (Chars.code p) 90);
      destruct (Z.leb_spec 192 (Chars.code p)); cbn; try reflexivity; lia.
  - subst a. rewrite code_ofCode by lia.
    destruct (Z.leb_spec 65 (Chars.code p - 32)); [|lia].
    destruct (Z.leb_spec (Chars.code p - 32) 90); [|lia]. cbn [andb orb].
    replace (Chars.code p - 32 + 32) with (Chars.code p) by lia.
    apply ofCode_code.
Qed.

Lemma lit_lower n w :
  allChars Chars.isLower w = true ->
  forall pre rest c c',
    Matches n (lit true w) pre rest c c' -> Str.toLowerCase pre = w.
Proof.
  induction w as [|a w IH]; intros Hw pre rest c c' M.
  - cbn [lit] in M. inversion M; subst. reflexivity.
  - cbn [allChars] in Hw. apply andb_true_iff in Hw. destruct Hw as [Ha Hw].
    destruct w as [|b w].
    + cbn [lit] in M. inversion M; subst. cbn.
      rewrite (chr_i_lower _ _ Ha); auto.
    + change (lit true (String a (String b w)))
        with (Cat (Cls (Chars.chr true a)) (lit true (String b w))) in M.
      inversion M; subst.
      match goal with H : Matches _ (Cls _) _ _ _ _ |- _ => inversion H; subst end.
      cbn [append]. unfold Str.toLowerCase in *. cbn [Str.map].
      rewrite (chr_i_lower _ _ Ha) by assumption.
      f_equal. eapply IH; eauto.
Qed.

Lemma alt_inv n r1 r2 pre rest c c' :
  Matches n (Alt r1 r2) pre rest c c' ->
  Matches n r1 pre rest c c' \/ Matches n r2 pre rest c c'.
Proof. intros M. inversion M; subst; auto. Qed.

Lemma weekday_index n txt :
  InLang n (alts (List.map (lit true) weekdays)) txt ->
  exists k, indexOf weekdays (Str.toLowerCase txt) = Num k /\ 0 <= k <= 6.
Proof.
  intros (rest & c & c' & M). unfold weekdays in M. cbn [List.map alts] in M.
  repeat (apply alt_inv in M; destruct M as [M|M]);
    match type of M with
    | Matches _ (lit true ?w) _ _ _ _ => rewrite (lit_lower _ w eq_refl _ _ _ _ M)
    end;
    eexists; (split; [reflexivity|lia]).
Qed.

Lemma next_nonempty n txt :
  InLang n (Cat (lit true "next") spaces1) txt -> txt <> "".
Proof.
  intros (rest & c & c' & M). cbn [lit] in M. unfold spaces1 in M.
  inv_matches. discriminate.
Qed.

(** ** parseDateTime: years and months of the rules that name a date *)

Lemma fullYear_range y : 0 <= y <= 10001 -> 100 <= fullYear y <= 10001.
Proof.
  intros H. unfold fullYear.
  destruct (Z.leb_spec 0 y); destruct (Z.leb_spec y 99); cbn [andb]; lia.
Qed.

Lemma ofFields_fullYear tza y mo dt h mi :
  zoneOK tza -> 0 <= y <= 10001 -> -1 <= mo <= 99 -> 0 <= dt <= 99 ->
  0 <= h <= 200 -> 0 <= mi <= 100 ->
  ofFields tza (Num y) (Num mo) (Num dt) (Num h) (Num mi)
  = stamp tza (MakeDay (fullYear y) mo dt) h mi.
Proof.
  intros Hz Hy Hmo Hdt Hh Hmi. unfold ofFields, stamp, fullYear. cbv zeta.
  pose proof (fullYear_range y Hy) as Hf. unfold fullYear in Hf.
  rewrite stamp_valid; auto.
  pose proof (MakeDay_range (if (0 <=? y) && (y <=? 99) then 1900 + y else y) mo dt
                ltac:(lia) Hmo Hdt). lia.
Qed.

Lemma clock_year tza clock :
  zoneOK tza -> clockOK clock ->
  1969 <= YearFromTime (LocalTime tza clock) <= 10001.
Proof.
  intros Hz Hc. pose proof (clock_fields tza clock Hz Hc) as Hy.
  split; [|lia]. unfold YearFromTime in *.
  pose proof (clock_day tza clock Hz Hc) as Hd.
  pose proof (YearFromDay_spec (Day (LocalTime tza clock))) as Hs.
  destruct (Z.lt_ge_cases (YearFromDay (Day (LocalTime tza clock))) 1969) as [Hlt|]; [|lia].
  pose proof (DayFromYear_mono (YearFromDay (Day (LocalTime tza clock)) + 1) 1969
                ltac:(lia)) as Hm.
  change (DayFromYear 1969) with (-365) in Hm. lia.
Qed.

Lemma month_index n txt :
  InLang n (alts (List.map (lit true) months)) txt ->
  exists k,
    findIndex (fun m' => Str.startsWith m' (Str.toLowerCase txt)) months = Num k /\
    0 <= k <= 11 /\ nth_error months (Z.to_nat k) = Some (Str.toLowerCase txt).
Proof.
  intros (rest & c & c' & M). unfold months in M. cbn [List.map alts] in M.
  repeat (apply alt_inv in M; destruct M as [M|M]);
    match type of M with
    | Matches _ (lit true ?w) _ _ _ _ => rewrite (lit_lower _ w eq_refl _ _ _ _ M)
    end;
    eexists; (split; [reflexivity|split; [lia|reflexivity]]).
Qed.

(** ** parseDateTime: which rule applies *)

Lemma cat_inv n r1 r2 pre rest c c' :
  Matches n (Cat r1 r2) pre rest c c' ->
  exists p1 p2 c1,
    pre = p1 ++ p2 /\ Matches n r1 p1 (p2 ++ rest) c c1 /\ Matches n r2 p2 rest c1 c'.
Proof. intros M. inversion M; subst. eauto 7. Qed.

Lemma grp_inv n i r pre rest c c' :
  Matches n (Grp i r) pre rest c c' -> exists c1, Matches n r pre rest c c1.
Proof. intros M. inversion M; subst. eauto. Qed.

Lemma opt_inv n r pre rest c c' :
  Matches n (Opt r) pre rest c c' -> pre = "" \/ Matches n r pre rest c c'.
Proof. intros M. inversion M; subst; auto. Qed.

(** The first two code units of a text that opens with a word of the
    patterns, in lower case. *)
Lemma take2_lower w pre rest :
  Str.toLowerCase pre = w -> (2 <= length w)%nat ->
  Str.take 2 (Str.toLowerCase (pre ++ rest)) = Str.take 2 w.
Proof.
  intros <- H. rewrite toLowerCase_app.
  destruct (Str.toLowerCase pre) as [|a [|b w]]; simpl in *; try lia; reflexivity.
Qed.

Ltac word_prefix M :=
  match type of M with
  | Matches _ (lit true ?w) _ _ _ _ =>
      rewrite (take2_lower w _ _ (lit_lower _ w eq_refl _ _ _ _ M)) by (simpl; lia)
  end.

Lemma rel_prefix s m :
  exec 4 re_rel s = Some m -> Str.take 2 (Str.toLowerCase s) = "to".
Proof.
  intros H. unfold re_rel in H. cbn [seq] in H.
  apply exec_anchored_sound in H. destruct H as (pre & rest & c' & -> & M & _).
  apply cat_inv in M. destruct M as (p1 & p2 & c1 & -> & M1 & _).
  apply grp_inv in M1. destruct M1 as (c2 & M1).
  cbn [alts] in M1. rewrite append_assoc.
  apply alt_inv in M1. destruct M1 as [M1|M1]; word_prefix M1; reflexivity.
Qed.

Lemma day_prefix s m :
  exec 5 re_day s = Some m ->
  In (Str.take 2 (Str.toLowerCase s)) ["ne"; "su"; "mo"; "tu"; "we"; "th"; "fr"; "sa"].
Proof.
  intros H. unfold re_day in H. cbn [seq] in H.
  apply exec_anchored_sound in H. destruct H as (pre & rest & c' & -> & M & _).
  apply cat_inv in M. destruct M as (p1 & p2 & c1 & -> & M1 & M2).
  apply opt_inv in M1. destruct M1 as [->|M1].
  - apply cat_inv in M2. destruct M2 as (p21 & p22 & c2 & -> & M21 & _).
    apply grp_inv in M21. destruct M21 as (c3 & M21).
    unfold weekdays in M21. cbn [List.map alts] in M21.
    cbn [append]. rewrite append_assoc.
    repeat (apply alt_inv in M21; destruct M21 as [M21|M21]);
      word_prefix M21; simpl; tauto.
  - apply grp_inv in M1. destruct M1 as (c3 & M1).
    apply cat_inv in M1. destruct M1 as (p11 & p12 & c4 & -> & M11 & _).
    rewrite !append_assoc. word_prefix M11. simpl. tauto.
Qed.

Lemma month_prefix s m :
  exec 6 re_month s = Some m ->
  In (Str.take 2 (Str.toLowerCase s))
     ["ja"; "fe"; "ma"; "ap"; "ju"; "au"; "se"; "oc"; "no"; "de"].
Proof.
  intros H. unfold re_month in H. cbn [seq] in H.
  apply exec_anchored_sound in H. destruct H as (pre & rest & c' & -> & M & _).
  apply cat_inv in M. destruct M as (p1 & p2 & c1 & -> & M1 & _).
  apply grp_inv in M1. destruct M1 as (c2 & M1).
  unfold months in M1. cbn [List.map alts] in M1. rewrite append_assoc.
  repeat (apply alt_inv in M1; destruct M1 as [M1|M1]);
    word_prefix M1; simpl; tauto.
Qed.

(** The patterns that open with a word exclude one another. *)
Lemma day_not_rel s m : exec 5 re_day s = Some m -> exec 4 re_rel s = None.
Proof.
  intros H. destruct (exec 4 re_rel s) as [m'|] eqn:E; [|reflexivity].
  apply rel_prefix in E. apply day_prefix in H. rewrite E in H. simpl in H.
  repeat (destruct H as [H|H]; [discriminate H|]). contradiction.
Qed.

Lemma month_not_rel s m : exec 6 re_month s = Some m -> exec 4 re_rel s = None.
Proof.
  intros H. destruct (exec 4 re_rel s) as [m'|] eqn:E; [|reflexivity].
  apply rel_prefix in E. apply month_prefix in H. rewrite E in H. simpl in H.
  repeat (destruct H as [H|H]; [discriminate H|]). contradiction.
Qed.

Lemma month_not_day s m : exec 6 re_month s = Some m -> exec 5 re_day s = None.
Proof.
  intros H. destruct (exec 5 re_day s) as [m'|] eqn:E; [|reflexivity].
  apply day_prefix in E. apply month_prefix in H. simpl in E, H.
  repeat (destruct E as [E|E]; [rewrite <- E in H|]); try contradiction;
    repeat (destruct H as [H|H]; [discriminate H|]); contradiction.
Qed.

Lemma cls_inv n p pre rest c c' :
  Matches n (Cls p) pre rest c c' -> exists a, pre = String a "" /\ p a = true.
Proof. intros M. inversion M; subst. eauto. Qed.





Lemma iso_shape input m :
  exec 5 re_isoDateTime input = Some m ->
  exists a b c t,
    Chars.isDigit a = true /\ Chars.isDigit b = true /\ Chars.isDigit c = true /\
    input = String a (String b (String c t)).
Proof.
  intros H. unfold re_isoDateTime, digits_4, digit in H. cbn [seq lit] in H.
  apply exec_anchored_sound in H. destruct H as (pre & rest & c' & -> & M & _).
  apply cat_inv in M. destruct M as (p1 & p2 & c1 & -> & M1 & _).
  apply grp_inv in M1. destruct M1 as (c2 & M1).
  apply cat_inv in M1. destruct M1 as (q1 & q2 & c3 & -> & N1 & M1).
  apply cat_inv in M1. destruct M1 as (q3 & q4 & c4 & -> & N2 & M1).
  apply cat_inv in M1. destruct M1 as (q5 & q6 & c5 & -> & N3 & _).
  apply cls_inv in N1. destruct N1 as (a & -> & Ha).
  apply cls_inv in N2. destruct N2 as (b & -> & Hb).
  apply cls_inv in N3. destruct N3 as (c & -> & Hc).
  exists a, b, c. eexists. split; [exact Ha|]. split; [exact Hb|]. split; [exact Hc|].
  cbn [append]. reflexivity.
Qed.






(** The pattern of the times with a meridiem matches none of these
    texts. *)
Ltac run_none r :=
  unfold r; cbn [seq]; rewrite exec_anchored;
  unfold digits_4, digits_1_2, digits_2, digit, spaces0, spaces1;
  eval_run; reflexivity.






Lemma dateTime_no_digits3 a b c t :
  Chars.isDigit a = true -> Chars.isDigit b = true -> Chars.isDigit c = true ->
  exec 5 re_dateTime (String a (String b (String c t))) = None.
Proof. intros Ha Hb Hc. run_none re_dateTime. Qed.





Lemma literal_no_match input :
  ruleMatches input ->
  String.eqb (Str.trim (Str.toLowerCase input)) "today" = false /\
  String.eqb (Str.trim (Str.toLowerCase input)) "tomorrow" = false.
Proof.
  intros H.
  split; apply String.eqb_neq; intros E; apply (bareLiteral_no_rule input);
    auto; unfold bareLiteral; cbv zeta; auto.
Qed.

Section WhichRule.

Variables (tza : zone) (clock : Z) (DateParse : string -> number).

(** On a text that opens with a digit the rules that open with a word
    yield nothing. *)
Lemma digit_led lower a t :
  lower = String a t -> Chars.isDigit a = true ->
  relRule tza (newDate clock) lower = None /\
  dayRule tza (newDate clock) lower = None /\
  monthRule tza (newDate clock) lower = None.
Proof.
  intros -> Ha. destruct (digit_start_no_word a t Ha) as (R1 & R2 & R3).
  unfold relRule, dayRule, monthRule. rewrite R1, R2, R3. auto.
Qed.

Lemma digit_input input a rest :
  input = String a rest -> Chars.isDigit a = true ->
  relRule tza (newDate clock) (Str.trim (Str.toLowerCase input)) = None /\
  dayRule tza (newDate clock) (Str.trim (Str.toLowerCase input)) = None /\
  monthRule tza (newDate clock) (Str.trim (Str.toLowerCase input)) = None.
Proof.
  intros -> Ha. destruct (lower_head a rest Ha) as (t & E).
  eapply digit_led; eauto.
Qed.


Lemma parseDateTime_by_day input m d :
  exec 5 re_day (Str.trim (Str.toLowerCase input)) = Some m ->
  dayRule tza (newDate clock) (Str.trim (Str.toLowerCase input)) = Some d ->
  parseDateTime tza clock DateParse input = Return d.
Proof.
  intros H Hd.
  destruct (literal_no_match input) as [L1 L2].
  { unfold ruleMatches. cbv zeta. right. left. congruence. }
  assert (R1 : relRule tza (newDate clock) (Str.trim (Str.toLowerCase input)) = None).
  { unfold relRule. rewrite (day_not_rel _ _ H). reflexivity. }
  unfold parseDateTime. cbv zeta. rewrite L1, L2, R1, Hd. reflexivity.
Qed.

Lemma parseDateTime_by_month input m d :
  exec 6 re_month (Str.trim (Str.toLowerCase input)) = Some m ->
  monthRule tza (newDate clock) (Str.trim (Str.toLowerCase input)) = Some d ->
  parseDateTime tza clock DateParse input = Return d.
Proof.
  intros H Hd.
  destruct (literal_no_match input) as [L1 L2].
  { unfold ruleMatches. cbv zeta. right. right. left. congruence. }
  assert (R1 : relRule tza (newDate clock) (Str.trim (Str.toLowerCase input)) = None).
  { unfold relRule. rewrite (month_not_rel _ _ H). reflexivity. }
  assert (R2 : dayRule tza (newDate clock) (Str.trim (Str.toLowerCase input)) = None).
  { unfold dayRule. rewrite (month_not_day _ _ H). reflexivity. }
  unfold parseDateTime. cbv zeta. rewrite L1, L2, R1, R2, Hd. reflexivity.
Qed.

Lemma parseDateTime_by_dateTime input m d :
  exec 5 re_dateTime input = Some m ->
  dateTimeRule tza input = Some d ->
  parseDateTime tza clock DateParse input = Return d.
Proof.
  intros H Hd.
  destruct (literal_no_match input) as [L1 L2].
  { unfold ruleMatches. cbv zeta. do 3 right. left. congruence. }
  pose proof H as Hx. unfold re_dateTime, digits_1_2 in Hx. cbn [seq] in Hx.
  destruct (starts_with_digit _ _ _ _ _ Hx) as (a & rest & Ei & Ha).
  destruct (digit_input input a rest Ei Ha) as (R1 & R2 & R3).
  unfold parseDateTime. cbv zeta. rewrite L1, L2, R1, R2, R3, Hd. reflexivity.
Qed.

Lemma parseDateTime_by_iso input m d :
  exec 5 re_isoDateTime input = Some m ->
  isoDateTimeRule tza input = Some d ->
  parseDateTime tza clock DateParse input = Return d.
Proof.
  intros H Hd.
  destruct (literal_no_match input) as [L1 L2].
  { unfold ruleMatches. cbv zeta. do 4 right. left. congruence. }
  destruct (iso_shape _ _ H) as (a & b & c & t & Ha & Hb & Hc & Ei).
  destruct (digit_input input a _ Ei Ha) as (R1 & R2 & R3).
  assert (R4 : dateTimeRule tza input = None).
  { unfold dateTimeRule. rewrite Ei, dateTime_no_digits3 by assumption. reflexivity. }
  unfold parseDateTime. cbv zeta. rewrite L1, L2, R1, R2, R3, R4, Hd. reflexivity.
Qed.



End WhichRule.

(** ** parseDateTime: the times with a meridiem *)

Lemma Day_plus x k : Day (x + k * msPerDay) = Day x + k.
Proof. unfold Day. apply Z.div_add. unfold msPerDay. lia. Qed.

Lemma keepsDay_later tza x k :
  keepsDay tza (x + k * msPerDay) ->
  Day (LocalTime tza (UTC tza (x + k * msPerDay))) = Day x + k.
Proof. unfold keepsDay. intros ->. apply Day_plus. Qed.





(** Asked on 1 November 2026 in Eastern time, [tomorrow 2pm] is 2 November
    at 19:00 UTC. *)
Example parseDateTime_tomorrow_2pm :
  parseDateTime eastern 1793536496789 (fun _ => NaN) "tomorrow 2pm"
  = Return (mkDate (Num 1793646000000)) /\
  toISOString (mkDate (Num 1793646000000)) = Done "2026-11-02T19:00:00.000Z".
Proof. split; vm_compute; reflexivity. Qed.

(** ** parseDateTime: the weekday rule *)

(** X21: the weekday rule of [parseDateTime].  The day named is found in
    the week's list at an index [k] from 0 for Sunday to 6 for Saturday.
    The date is made [delta] days after today on the local calendar:
    without [next], on the first day of that name after today, 1 to 7
    days on (a week on when today has that name); with [next], always [k]
    minus today's index plus 7, which is that same day when the name comes
    at or before today in the week, and the one a week later otherwise.
    The date returned is the date of the local reading at the time given,
    on the day on which the zone shows the clock's time of day [delta]
    days on; when the zone skips neither of the two readings, that is the
    day [delta] days on, and with an hour below 24 and a minute below 60
    the date falls on the weekday named. *)
Theorem dayRule_weekday
    (tza : zone) (clock : Z) (DateParse : string -> number) (input : string)
    (m : captures) :
  zoneOK tza -> clockOK clock ->
  exec 5 re_day (Str.trim (Str.toLowerCase input)) = Some m ->
  let now := LocalTime tza clock in
  let today := WeekDay now in
  let h := hour12 (decValue (group 3 m)) (optLower (getCap 5 m)) in
  let mi := minuteOf (getCap 4 m) in
  exists k delta,
    indexOf weekdays (Str.toLowerCase (group 2 m)) = Num k /\ 0 <= k <= 6 /\
    (getCap 1 m = None -> delta = if today <? k then k - today else k - today + 7) /\
    (getCap 1 m <> None -> delta = k - today + 7) /\
    1 <= delta <= 13 /\
    parseDateTime tza clock DateParse input
    = Return (stamp tza (Day (LocalTime tza (UTC tza (now + delta * msPerDay)))) h mi) /\
    (keepsDay tza (now + delta * msPerDay) ->
     occurs tza (reading (Day now + delta) h mi) -> h < 24 -> mi < 60 ->
     parseDateTime tza clock DateParse input
     = Return (stamp tza (Day now + delta) h mi) /\
     getDay tza (stamp tza (Day now + delta) h mi) = Num k).
Proof.
  intros Hz Hc H. cbv zeta.
  set (lower := Str.trim (Str.toLowerCase input)) in *.
  pose proof H as Hx. unfold re_day in Hx. cbn [seq] in Hx.
  destruct (exec_cap_defined _ _ _ _ 3 Hx ltac:(lia) eq_refl) as (hh & Hhh).
  pose proof Hhh as Hhh'. cap_body Hx Hhh' HL.
  destruct (exec_cap_defined _ _ _ _ 2 Hx ltac:(lia) eq_refl) as (dn & Hdn).
  pose proof Hdn as Hdn'. cap_body Hx Hdn' HLd.
  assert (Hmm : forall mm, getCap 4 m = Some mm -> InLang (length lower) digits_2 mm).
  { intros mm Hmm. cap_body Hx Hmm HLm. exact HLm. }
  assert (Hnext : forall nx, getCap 1 m = Some nx -> nx <> "").
  { intros nx Hnx. cap_body Hx Hnx HLn. apply (next_nonempty _ _ HLn). }
  destruct (weekday_index _ _ HLd) as (k & Ek & Hk).
  destruct (hour_text _ _ HL) as [_ Hb].
  destruct (minute_text _ _ Hmm) as [_ Hmb].
  pose proof (WeekDay_range (LocalTime tza clock)) as Hw.
  set (wd := WeekDay (LocalTime tza clock)) in *.
  set (delta := match getCap 1 m with
                | Some _ => k - wd + 7
                | None => if wd <? k then k - wd else k - wd + 7
                end).
  assert (Hdelta : 1 <= delta <= 13).
  { unfold delta. destruct (getCap 1 m); [lia|]. destruct (Z.ltb_spec wd k); lia. }
  assert (Hr : dayRule tza (newDate clock) lower
               = Some (stamp tza
                         (Day (LocalTime tza
                                 (UTC tza (LocalTime tza clock + delta * msPerDay))))
                         (hour12 (decValue (group 3 m)) (optLower (getCap 5 m)))
                         (minuteOf (getCap 4 m)))).
  { unfold dayRule. rewrite H. rewrite !(group_cap _ _ _ Hhh), !(group_cap _ _ _ Hdn).
    rewrite copy_newDate by auto. rewrite Ek.
    assert (Egd : getDay tza (mkDate (Num clock)) = Num wd) by reflexivity.
    rewrite !Egd. cbn [nsub].
    assert (Ed :
      (if nle (Num (k - wd)) (Num 0) || negb (String.eqb (sorElse (getCap 1 m) "") "")
       then nadd (Num (k - wd)) (Num 7) else Num (k - wd)) = Num delta).
    { unfold delta. cbn [nle nadd].
      destruct (getCap 1 m) as [nx|] eqn:En.
      - pose proof (Hnext nx eq_refl) as Hne. destruct nx as [|x nx]; [congruence|].
        cbn [sorElse String.eqb negb]. rewrite orb_true_r. reflexivity.
      - cbn [sorElse String.eqb negb]. rewrite orb_false_r.
        destruct (Z.leb_spec (k - wd) 0); destruct (Z.ltb_spec wd k);
          try reflexivity; lia. }
    rewrite Ed. rewrite setDate_getDate.
    destruct (later_valid tza clock delta Hz Hc ltac:(lia)) as [-> N].
    f_equal. eapply setHours_rule; eauto. }
  pose proof (parseDateTime_by_day tza clock DateParse input m _ H Hr) as P.
  rewrite !(group_cap _ _ _ Hhh), !(group_cap _ _ _ Hdn) in *.
  exists k, delta. split; [exact Ek|]. split; [exact Hk|].
  split; [|split; [|split; [exact Hdelta|split; [exact P|]]]].
  - intros En. unfold delta. rewrite En. reflexivity.
  - intros En. unfold delta. destruct (getCap 1 m); [reflexivity|congruence].
  - intros Hkd Ho Hh Hmi. rewrite P, (keepsDay_later _ _ _ Hkd).
    split; [reflexivity|].
    pose proof (hour12_nonneg (decValue hh) (optLower (getCap 5 m)) ltac:(lia)) as Hh0.
    unfold getDay, getter, stamp. cbn [timeValue]. f_equal.
    rewrite stamp_local by exact Ho. unfold WeekDay.
    set (D := Day (LocalTime tza clock) + delta).
    assert (EDay : Day (D * msPerDay
                        + hour12 (decValue hh) (optLower (getCap 5 m)) * msPerHour
                        + minuteOf (getCap 4 m) * msPerMinute) = D).
    { rewrite <- Z.add_assoc. apply (Day_of_MakeDate D).
      unfold msPerHour, msPerMinute, msPerSecond, msPerDay. lia. }
    rewrite EDay. unfold D, wd, WeekDay in *.
    assert (Ecases : delta = k - (Day (LocalTime tza clock) + 4) mod 7 \/
                     delta = k - (Day (LocalTime tza clock) + 4) mod 7 + 7).
    { unfold delta. destruct (getCap 1 m); [auto|].
      destruct (Z.ltb_spec ((Day (LocalTime tza clock) + 4) mod 7) k); auto. }
    clear - Ecases Hk. Z.div_mod_to_equations. lia.
Qed.

Lemma dayRule_weekday_witness :
  parseDateTime eastern 1793462400000 (fun _ => NaN) "Sunday 9"
  = Return (stamp eastern (Day (LocalTime eastern 1793462400000) + 1) 9 0) /\
  getDay eastern (stamp eastern (Day (LocalTime eastern 1793462400000) + 1) 9 0) = Num 0.
Proof.
  assert (Hc : clockOK 1793462400000) by (unfold clockOK; lia).
  destruct (dayRule_weekday eastern 1793462400000 (fun _ => NaN) "Sunday 9"
              [Some "sunday 9"; None; Some "sunday"; Some "9"; None; None]
              eastern_OK Hc eq_refl) as (k & delta & Ek & _ & Hd & _ & _ & _ & Hw).
  cbv zeta in *. inversion Ek; subst k.
  rewrite (Hd eq_refl) in Hw.
  apply Hw; vm_compute; reflexivity.
Defined.

(** Asked on Saturday 31 October 2026 at noon, Eastern time, [Sunday 9]
    is 1 November at 09:00 winter time, 14:00 UTC. *)
Example parseDateTime_sunday_9 :
  parseDateTime eastern 1793462400000 (fun _ => NaN) "Sunday 9"
  = Return (mkDate (Num 1793541600000)) /\
  toISOString (mkDate (Num 1793541600000)) = Done "2026-11-01T14:00:00.000Z".
Proof. split; vm_compute; reflexivity. Qed.

(** ** parseDateTime: today, tomorrow and the bare times *)



(** On 31 October 2026 at noon, Eastern time, the bare [tomorrow] is noon
    of 1 November, 25 hours on. *)
Example parseDateTime_tomorrow_25h :
  parseDateTime eastern 1793462400000 (fun _ => NaN) "tomorrow"
  = Return (mkDate (Num (1793462400000 + 25 * msPerHour))).
Proof. vm_compute. reflexivity. Qed.

(** ** parseDateTime: the rules that name a date *)

(** X23: the month rule of [parseDateTime].  The month is the one whose
    three letters open the name; the year is the one given, with 0 to 99
    counted from 1900, or the current local year; the time is the one
    given, or midnight.  The date is made of these without a check of the
    day against the month: first the date of midnight of that day, then,
    on the day on which the zone shows that date, the date of the time.
    When the zone skips neither reading, the month has the day and the
    time is a time of day, the date returned reads exactly these fields. *)
Theorem monthRule_fields
    (tza : zone) (clock : Z) (DateParse : string -> number) (input : string)
    (m : captures) :
  zoneOK tza -> clockOK clock ->
  exec 6 re_month (Str.trim (Str.toLowerCase input)) = Some m ->
  let y := match getCap 3 m with
           | Some yy => fullYear (decValue yy)
           | None => YearFromTime (LocalTime tza clock)
           end in
  let dd := decValue (group 2 m) in
  let h := match getCap 4 m with
           | Some hh => hour12 (decValue hh) (optLower (getCap 6 m))
           | None => 0
           end in
  let mi := match getCap 4 m with
            | Some _ => minuteOf (getCap 5 m)
            | None => 0
            end in
  exists k,
    0 <= k <= 11 /\
    nth_error months (Z.to_nat k) = Some (Str.toLowerCase (group 1 m)) /\
    parseDateTime tza clock DateParse input
    = Return (stamp tza (Day (LocalTime tza (UTC tza (MakeDate (MakeDay y k dd) 0)))) h mi) /\
    (keepsDay tza (MakeDate (MakeDay y k dd) 0) ->
     occurs tza (reading (MakeDay y k dd) h mi) ->
     1 <= dd <= DaysInMonth (InLeapYearOf y) k -> h <= 23 -> mi <= 59 ->
     let d := stamp tza (MakeDay y k dd) h mi in
     parseDateTime tza clock DateParse input = Return d /\
     getFullYear tza d = Num y /\ getMonth tza d = Num k /\ getDate tza d = Num dd /\
     getHours tza d = Num h /\ getMinutes tza d = Num mi).
Proof.
  intros Hz Hc H. cbv zeta.
  set (lower := Str.trim (Str.toLowerCase input)) in *.
  pose proof H as Hx. unfold re_month in Hx. cbn [seq] in Hx.
  destruct (exec_cap_defined _ _ _ _ 1 Hx ltac:(lia) eq_refl) as (mn & Hmn).
  pose proof Hmn as Hmn'. cap_body Hx Hmn' Lm.
  destruct (exec_cap_defined _ _ _ _ 2 Hx ltac:(lia) eq_refl) as (dd & Hdd).
  pose proof Hdd as Hdd'. cap_body Hx Hdd' Ld.
  assert (Hyy : forall yy, getCap 3 m = Some yy -> InLang (length lower) digits_4 yy).
  { intros yy Hyy. cap_body Hx Hyy HLy. exact HLy. }
  assert (Hhh : forall hh, getCap 4 m = Some hh -> InLang (length lower) digits_1_2 hh).
  { intros hh Hhh. cap_body Hx Hhh HLh. exact HLh. }
  assert (Hmm : forall mm, getCap 5 m = Some mm -> InLang (length lower) digits_2 mm).
  { intros mm Hmm. cap_body Hx Hmm HLm. exact HLm. }
  destruct (month_index _ _ Lm) as (k & Ek & Hk & Hnth).
  rewrite !(group_cap _ _ _ Hdd), !(group_cap _ _ _ Hmn).
  destruct (hour_text _ _ Ld) as [Ed Bd].
  set (y := match getCap 3 m with
            | Some yy => fullYear (decValue yy)
            | None => YearFromTime (LocalTime tza clock)
            end).
  set (h := match getCap 4 m with
            | Some hh => hour12 (decValue hh) (optLower (getCap 6 m))
            | None => 0
            end).
  set (mi := match getCap 4 m with
             | Some _ => minuteOf (getCap 5 m)
             | None => 0
             end).
  assert (Hy : exists y0,
    parseInt (sorElse (getCap 3 m) (numberToString (getFullYear tza (newDate clock))))
    = Num y0 /\ 0 <= y0 <= 10001 /\ fullYear y0 = y).
  { unfold y. destruct (getCap 3 m) as [yy|] eqn:Ey.
    - destruct (year_text _ _ (Hyy yy eq_refl)) as (Hne & E & B).
      destruct yy as [|c yy]; [congruence|]. cbn [sorElse].
      exists (decValue (String c yy)). split; [exact E|]. split; [lia|reflexivity].
    - cbn [sorElse]. unfold getFullYear, getter, newDate. cbn [timeValue].
      rewrite parseInt_numberToString. eexists. split; [reflexivity|].
      pose proof (clock_year tza clock Hz Hc) as Hcy. split; [lia|].
      unfold fullYear.
      destruct (Z.leb_spec (YearFromTime (LocalTime tza clock)) 99); [lia|].
      rewrite andb_false_r. reflexivity. }
  destruct Hy as (y0 & Ey & By & Efy).
  pose proof (fullYear_range y0 By) as Hfy. rewrite Efy in Hfy.
  pose proof (MakeDay_range y k (decValue dd) ltac:(lia) ltac:(lia) ltac:(lia)) as HD.
  assert (Hhm : 0 <= h <= 200 /\ 0 <= mi <= 100).
  { unfold h, mi. destruct (getCap 4 m) as [hh|] eqn:Eh; [|lia].
    destruct (hour_text _ _ (Hhh hh eq_refl)) as [_ Bh].
    destruct (minute_text _ _ Hmm) as [_ Bm].
    pose proof (hour12_nonneg (decValue hh) (optLower (getCap 6 m)) ltac:(lia)). lia. }
  assert (Hr : monthRule tza (newDate clock) lower
               = Some (stamp tza
                         (Day (LocalTime tza (UTC tza (MakeDate (MakeDay y k (decValue dd)) 0))))
                         h mi)).
  { unfold monthRule. rewrite H.
    rewrite !(group_cap _ _ _ Hdd), !(group_cap _ _ _ Hmn).
    rewrite Ed, Ek, Ey.
    rewrite ofFields_fullYear by (auto; lia). rewrite Efy.
    unfold h, mi. destruct (getCap 4 m) as [hh|] eqn:Eh.
    - destruct (hour_text _ _ (Hhh hh eq_refl)) as [Ehh Bh].
      destruct (minute_text _ _ Hmm) as [Em Bm].
      assert (Hne : hh <> "").
      { destruct (lang_digits_1_2 _ _ (Hhh hh eq_refl)) as [_ Hlen].
        destruct hh; simpl in Hlen; [lia | discriminate]. }
      destruct hh as [|c hh]; [congruence|]. cbn [sorUndefined].
      rewrite Ehh, Em, meridiem_hour12.
      pose proof (hour12_nonneg (decValue (String c hh)) (optLower (getCap 6 m))
                    ltac:(lia)) as Hh0.
      rewrite setHours_of_stamp by (auto; lia).
      rewrite isInvalid_stamp. reflexivity.
    - cbn [sorUndefined].
      rewrite setHours_of_stamp by (auto; lia).
      rewrite isInvalid_stamp. reflexivity. }
  pose proof (parseDateTime_by_month tza clock DateParse input m _ H Hr) as P.
  exists k. split; [exact Hk|]. split; [exact Hnth|]. split; [exact P|].
  intros Hkd Ho Hday Hh Hmi.
  assert (ED : Day (LocalTime tza (UTC tza (MakeDate (MakeDay y k (decValue dd)) 0)))
               = MakeDay y k (decValue dd)).
  { unfold keepsDay in Hkd. rewrite Hkd. apply Day_MakeDate. }
  rewrite P, ED. split; [reflexivity|].
  destruct (stamp_fields tza y k (decValue dd) h mi Hz Ho Hk Hday ltac:(lia) ltac:(lia))
    as (F1 & F2 & F3 & F4 & F5 & _).
  auto.
Qed.

Lemma monthRule_fields_witness :
  parseDateTime eastern 1793536496789 (fun _ => NaN) "January 15 0026 3pm"
  = Return (stamp eastern (MakeDay 1926 0 15) 15 0) /\
  getFullYear eastern (stamp eastern (MakeDay 1926 0 15) 15 0) = Num 1926.
Proof.
  assert (Hc : clockOK 1793536496789) by (unfold clockOK; lia).
  assert (Hm : exec 6 re_month (Str.trim (Str.toLowerCase "January 15 0026 3pm"))
               = Some [Some "january 15 0026 3pm"; Some "jan"; Some "15"; Some "0026";
                       Some "3"; None; Some "pm"]) by (vm_compute; reflexivity).
  destruct (monthRule_fields eastern 1793536496789 (fun _ => NaN) "January 15 0026 3pm" _
              eastern_OK Hc Hm) as (k & Hk & Hn & _ & F).
  assert (Ek : k = 0).
  { destruct (Z.eq_dec k 0) as [E|N]; [exact E|exfalso].
    assert (Hcases : k = 1 \/ k = 2 \/ k = 3 \/ k = 4 \/ k = 5 \/ k = 6 \/ k = 7 \/
                     k = 8 \/ k = 9 \/ k = 10 \/ k = 11) by lia.
    clear - Hn Hcases.
    repeat (destruct Hcases as [->|Hcases]; [vm_compute in Hn; discriminate Hn|]).
    subst k. vm_compute in Hn. discriminate Hn. }
  subst k. cbv zeta in F.
  destruct F as (P & Fy & _);
    [ vm_compute; reflexivity | vm_compute; reflexivity
    | vm_compute; split; discriminate | vm_compute; discriminate
    | vm_compute; discriminate | split; [exact P|exact Fy] ].
Defined.

(** X24: the rules for [M/D/YYYY H:MM] and [YYYY-M-D H:MM].  The date
    returned is the date of the local reading made of the numbers as they
    stand, a year 0 to 99 counted from 1900 and the month counted from 1,
    without a check of their ranges; it reads exactly the fields given
    when they name a day of the calendar and a time of day that occurs in
    the zone. *)
Theorem dateTimeRule_fields
    (tza : zone) (clock : Z) (DateParse : string -> number) (input : string)
    (m : captures) :
  zoneOK tza ->
  (exec 5 re_dateTime input = Some m ->
   let y := fullYear (decValue (group 3 m)) in
   let mo := decValue (group 1 m) in
   let dd := decValue (group 2 m) in
   let h := decValue (group 4 m) in
   let mi := decValue (group 5 m) in
   let d := stamp tza (MakeDay y (mo - 1) dd) h mi in
   parseDateTime tza clock DateParse input = Return d /\
   (occurs tza (reading (MakeDay y (mo - 1) dd) h mi) ->
    1 <= mo <= 12 -> 1 <= dd <= DaysInMonth (InLeapYearOf y) (mo - 1) ->
    h <= 23 -> mi <= 59 ->
    getFullYear tza d = Num y /\ getMonth tza d = Num (mo - 1) /\
    getDate tza d = Num dd /\ getHours tza d = Num h /\ getMinutes tza d = Num mi)) /\
  (exec 5 re_isoDateTime input = Some m ->
   let y := fullYear (decValue (group 1 m)) in
   let mo := decValue (group 2 m) in
   let dd := decValue (group 3 m) in
   let h := decValue (group 4 m) in
   let mi := decValue (group 5 m) in
   let d := stamp tza (MakeDay y (mo - 1) dd) h mi in
   parseDateTime tza clock DateParse input = Return d /\
   (occurs tza (reading (MakeDay y (mo - 1) dd) h mi) ->
    1 <= mo <= 12 -> 1 <= dd <= DaysInMonth (InLeapYearOf y) (mo - 1) ->
    h <= 23 -> mi <= 59 ->
    getFullYear tza d = Num y /\ getMonth tza d = Num (mo - 1) /\
    getDate tza d = Num dd /\ getHours tza d = Num h /\ getMinutes tza d = Num mi)).
Proof.
  intros Hz. split; intros H; cbv zeta.
  - pose proof H as Hx. unfold re_dateTime in Hx. cbn [seq] in Hx.
    destruct (exec_cap_defined _ _ _ _ 1 Hx ltac:(lia) eq_refl) as (g1 & H1).
    destruct (exec_cap_defined _ _ _ _ 2 Hx ltac:(lia) eq_refl) as (g2 & H2).
    destruct (exec_cap_defined _ _ _ _ 3 Hx ltac:(lia) eq_refl) as (g3 & H3).
    destruct (exec_cap_defined _ _ _ _ 4 Hx ltac:(lia) eq_refl) as (g4 & H4).
    destruct (exec_cap_defined _ _ _ _ 5 Hx ltac:(lia) eq_refl) as (g5 & H5).
    pose proof H1 as H1'. cap_body Hx H1' L1.
    pose proof H2 as H2'. cap_body Hx H2' L2.
    pose proof H3 as H3'. cap_body Hx H3' L3.
    pose proof H4 as H4'. cap_body Hx H4' L4.
    pose proof H5 as H5'. cap_body Hx H5' L5.
    destruct (hour_text _ _ L1) as [E1 B1]. destruct (hour_text _ _ L2) as [E2 B2].
    destruct (year_text _ _ L3) as (_ & E3 & B3).
    destruct (hour_text _ _ L4) as [E4 B4].
    destruct (two_digit_text _ _ L5) as (_ & E5 & B5).
    assert (Hr : dateTimeRule tza input
                 = Some (stamp tza (MakeDay (fullYear (decValue g3)) (decValue g1 - 1)
                                      (decValue g2)) (decValue g4) (decValue g5))).
    { unfold dateTimeRule. rewrite H.
      rewrite !(group_cap _ _ _ H1), !(group_cap _ _ _ H2), !(group_cap _ _ _ H3),
        !(group_cap _ _ _ H4), !(group_cap _ _ _ H5).
      rewrite E1, E2, E3, E4, E5. cbn [nsub].
      rewrite ofFields_fullYear by (auto; lia).
      rewrite isInvalid_stamp. reflexivity. }
    rewrite !(group_cap _ _ _ H1), !(group_cap _ _ _ H2), !(group_cap _ _ _ H3),
      !(group_cap _ _ _ H4), !(group_cap _ _ _ H5).
    split; [exact (parseDateTime_by_dateTime tza clock DateParse input m _ H Hr)|].
    intros Ho Hmo Hdd Hh Hmi.
    destruct (stamp_fields tza (fullYear (decValue g3)) (decValue g1 - 1) (decValue g2)
                (decValue g4) (decValue g5) Hz Ho ltac:(lia) Hdd ltac:(lia) ltac:(lia))
      as (F1 & F2 & F3 & F4 & F5 & _).
    auto.
  - pose proof H as Hx. unfold re_isoDateTime in Hx. cbn [seq] in Hx.
    destruct (exec_cap_defined _ _ _ _ 1 Hx ltac:(lia) eq_refl) as (g1 & H1).
    destruct (exec_cap_defined _ _ _ _ 2 Hx ltac:(lia) eq_refl) as (g2 & H2).
    destruct (exec_cap_defined _ _ _ _ 3 Hx ltac:(lia) eq_refl) as (g3 & H3).
    destruct (exec_cap_defined _ _ _ _ 4 Hx ltac:(lia) eq_refl) as (g4 & H4).
    destruct (exec_cap_defined _ _ _ _ 5 Hx ltac:(lia) eq_refl) as (g5 & H5).
    pose proof H1 as H1'. cap_body Hx H1' L1.
    pose proof H2 as H2'. cap_body Hx H2' L2.
    pose proof H3 as H3'. cap_body Hx H3' L3.
    pose proof H4 as H4'. cap_body Hx H4' L4.
    pose proof H5 as H5'. cap_body Hx H5' L5.
    destruct (year_text _ _ L1) as (_ & E1 & B1).
    destruct (hour_text _ _ L2) as [E2 B2]. destruct (hour_text _ _ L3) as [E3 B3].
    destruct (hour_text _ _ L4) as [E4 B4].
    destruct (two_digit_text _ _ L5) as (_ & E5 & B5).
    assert (Hr : isoDateTimeRule tza input
                 = Some (stamp tza (MakeDay (fullYear (decValue g1)) (decValue g2 - 1)
                                      (decValue g3)) (decValue g4) (decValue g5))).
    { unfold isoDateTimeRule. rewrite H.
      rewrite !(group_cap _ _ _ H1), !(group_cap _ _ _ H2), !(group_cap _ _ _ H3),
        !(group_cap _ _ _ H4), !(group_cap _ _ _ H5).
      rewrite E1, E2, E3, E4, E5. cbn [nsub].
      rewrite ofFields_fullYear by (auto; lia).
      rewrite isInvalid_stamp. reflexivity. }
    rewrite !(group_cap _ _ _ H1), !(group_cap _ _ _ H2), !(group_cap _ _ _ H3),
      !(group_cap _ _ _ H4), !(group_cap _ _ _ H5).
    split; [exact (parseDateTime_by_iso tza clock DateParse input m _ H Hr)|].
    intros Ho Hmo Hdd Hh Hmi.
    destruct (stamp_fields tza (fullYear (decValue g1)) (decValue g2 - 1) (decValue g3)
                (decValue g4) (decValue g5) Hz Ho ltac:(lia) Hdd ltac:(lia) ltac:(lia))
      as (F1 & F2 & F3 & F4 & F5 & _).
    auto.
Qed.

Lemma dateTimeRule_fields_witness :
  parseDateTime eastern 0 (fun _ => NaN) "1/14/2026 12:00"
  = Return (stamp eastern (MakeDay 2026 0 14) 12 0) /\
  getHours eastern (stamp eastern (MakeDay 2026 0 14) 12 0) = Num 12.
Proof.
  assert (Hm : exec 5 re_dateTime "1/14/2026 12:00"
               = Some [Some "1/14/2026 12:00"; Some "1"; Some "14"; Some "2026";
                       Some "12"; Some "00"]) by (vm_compute; reflexivity).
  destruct (dateTimeRule_fields eastern 0 (fun _ => NaN) "1/14/2026 12:00"
              [Some "1/14/2026 12:00"; Some "1"; Some "14"; Some "2026";
               Some "12"; Some "00"] eastern_OK) as (H & _).
  destruct (H Hm) as (E & F). cbv zeta in E, F.
  split; [exact E|].
  destruct F as (_ & _ & _ & F4 & _);
    [ vm_compute; reflexivity | vm_compute; split; discriminate
    | vm_compute; split; discriminate | vm_compute; discriminate
    | vm_compute; discriminate | exact F4 ].
Defined.

(** The time [2:30] of 8 March 2026 is skipped in Eastern time: the text
    [3/8/2026 2:30] is read as 07:30 UTC, which the zone shows as 03:30. *)
Example dateTimeRule_skipped :
  parseDateTime eastern 0 (fun _ => NaN) "3/8/2026 2:30"
  = Return (mkDate (Num 1772955000000)) /\
  getHours eastern (mkDate (Num 1772955000000)) = Num 3.
Proof. split; vm_compute; reflexivity. Qed.

(** ** The table of the [list] command: the columns are aligned *)

Lemma repeatChar_length c n : length (repeatChar c n) = n.
Proof. induction n; cbn; congruence. Qed.

Lemma padEnd_length w s : (length s <= w)%nat -> length (padEnd w s) = w.
Proof.
  intros H. unfold padEnd. rewrite length_append, repeatChar_length. lia.
Qed.

Lemma mapFrom_length {A B} (f : A -> nat -> B) l : forall i,
  List.length (mapFrom i f l) = List.length l.
Proof. induction l as [|x l IH]; intros i; cbn; [reflexivity|]. rewrite IH. reflexivity. Qed.

Lemma mapFrom_nth {A B} (f : A -> nat -> B) l : forall i k x,
  nth_error l k = Some x -> nth_error (mapFrom i f l) k = Some (f x (i + k)%nat).
Proof.
  induction l as [|y l IH]; intros i k x H.
  - destruct k; discriminate.
  - destruct k as [|k]; cbn in *.
    + inversion H; subst. rewrite Nat.add_0_r. reflexivity.
    + rewrite (IH (S i) k x H). f_equal. f_equal. lia.
Qed.

Lemma fold_max_init l : forall a, (a <= fold_left Nat.max l a)%nat.
Proof.
  induction l as [|x l IH]; intros a; cbn; [lia|].
  specialize (IH (Nat.max a x)). lia.
Qed.

Lemma fold_max_member l x : In x l -> forall a, (x <= fold_left Nat.max l a)%nat.
Proof.
  induction l as [|y l IH]; intros H a; [contradiction|].
  cbn. destruct H as [->|H].
  - pose proof (fold_max_init l (Nat.max a x)). lia.
  - apply IH. exact H.
Qed.

(** The text before a cell of a joined line, and the line from the cell
    on. *)
Lemma join_offset cells : forall k cell,
  nth_error cells k = Some cell ->
  exists pre post,
    join " " cells = pre ++ cell ++ post /\
    length pre = fold_right (fun c acc => (length c + 1 + acc)%nat) O (firstn k cells).
Proof.
  induction cells as [|c cells IH]; intros k cell H.
  - destruct k; discriminate.
  - destruct k as [|k].
    + cbn in H. inversion H; subst. exists "".
      destruct cells as [|c2 cells]; cbn [join].
      * exists "". rewrite append_nil_r. split; reflexivity.
      * eexists. split; reflexivity.
    + cbn [nth_error] in H. destruct (IH k cell H) as (pre & post & E & L).
      destruct cells as [|c2 cells]; [destruct k; discriminate|].
      exists (c ++ " " ++ pre), post.
      change (join " " (c :: c2 :: cells)) with (c ++ " " ++ join " " (c2 :: cells)).
      rewrite E. split.
      * rewrite !append_assoc. reflexivity.
      * cbn [firstn fold_right]. rewrite !length_append, L. cbn [length]. lia.
Qed.

Section TableFacts.

Variable headers : list string.
Variable rows : list (list string).

Lemma colWidths_length : List.length (colWidths headers rows) = List.length headers.
Proof. apply mapFrom_length. Qed.

Lemma widthAt_header i h :
  nth_error headers i = Some h ->
  (length h <= widthAt headers rows i)%nat /\
  forall row, In row rows ->
    (length (sorElse (nth_error row i) "") <= widthAt headers rows i)%nat.
Proof.
  intros H. unfold widthAt, colWidths.
  rewrite (nth_error_nth _ _ _ (mapFrom_nth _ _ 0 i h H)). cbn [Nat.add].
  split; [apply fold_max_init|].
  intros row Hin. apply fold_max_member.
  apply (in_map (fun r => length (sorElse (nth_error r i) "")) rows row Hin).
Qed.

(** The cells of a line that are padded to the widths of their columns
    put every column at its start. *)
Lemma padded_offset cells k cell :
  nth_error cells k = Some cell ->
  (forall i c, (i < k)%nat -> nth_error cells i = Some c ->
               length c = widthAt headers rows i) ->
  (k <= List.length headers)%nat ->
  exists pre post,
    join " " cells = pre ++ cell ++ post /\
    length pre = columnStart (colWidths headers rows) k.
Proof.
  intros Hk Hw Hlen. destruct (join_offset cells k cell Hk) as (pre & post & E & L).
  exists pre, post. split; [exact E|]. rewrite L. clear E L pre post.
  unfold columnStart, widthAt in *.
  assert (Hl : (k <= List.length (colWidths headers rows))%nat)
    by (rewrite colWidths_length; exact Hlen).
  assert (Hc : (k < List.length cells)%nat)
    by (apply nth_error_Some; congruence).
  clear Hk Hlen. revert Hw Hl Hc.
  generalize (colWidths headers rows). intros ws. revert cells ws.
  induction k as [|k IH]; intros cells ws Hw Hl Hc; [reflexivity|].
  destruct cells as [|c cells]; [cbn in Hc; lia|].
  destruct ws as [|w ws]; [cbn in Hl; lia|].
  cbn [firstn fold_right].
  rewrite (Hw 0%nat c ltac:(lia) eq_refl). cbn [nth].
  rewrite (IH cells ws); [reflexivity| |cbn in Hl; lia|cbn in Hc; lia].
  intros i c' Hi Hn. apply (Hw (S i) c' ltac:(lia) Hn).
Qed.

(** X26: the table of the [list] command is aligned.  Every column is as
    wide as its header and as the widest of its cells; in the header
    line, in the line of dashes and in the line of every row that has a
    cell for each header, column [k] begins at the same offset, the
    widths of the columns before it and one space after each; there the
    header, the dashes of the column's width and the cell stand. *)
Theorem table_aligned (row : list string) (k : nat) (h cell : string) :
  In row rows -> List.length row = List.length headers ->
  nth_error headers k = Some h -> nth_error row k = Some cell ->
  let start := columnStart (colWidths headers rows) k in
  let w := widthAt headers rows k in
  (length h <= w)%nat /\ (length cell <= w)%nat /\
  (exists pre post, headerLine headers rows = pre ++ padEnd w h ++ post /\
                    length pre = start) /\
  (exists pre post, ruleLine headers rows = pre ++ repeatChar "-" w ++ post /\
                    length pre = start) /\
  (exists pre post, rowLine headers rows row = pre ++ cell ++ post /\
                    length pre = start).
Proof.
  intros Hin Hlen Hh Hcell. cbv zeta.
  assert (Hk : (k < List.length headers)%nat) by (apply nth_error_Some; congruence).
  destruct (widthAt_header k h Hh) as (Wh & Wc).
  pose proof (Wc row Hin) as Wcell. rewrite Hcell in Wcell.
  assert (Ecell : forall c, sorElse (Some c) "" = c) by (intros [|a c]; reflexivity).
  rewrite Ecell in Wcell.
  split; [exact Wh|]. split; [exact Wcell|]. split; [|split].
  - unfold headerLine.
    apply padded_offset; [|intros i c Hi Hn|lia].
    + rewrite (mapFrom_nth _ _ 0 k h Hh). reflexivity.
    + assert (Hi' : (i < List.length headers)%nat) by lia.
      destruct (nth_error headers i) as [hi|] eqn:Ehi;
        [|apply nth_error_None in Ehi; lia].
      rewrite (mapFrom_nth _ _ 0 i hi Ehi) in Hn. inversion Hn; subst.
      apply padEnd_length. apply (widthAt_header i hi Ehi).
  - unfold ruleLine.
    assert (Hwk : nth_error (colWidths headers rows) k = Some (widthAt headers rows k)).
    { unfold widthAt. apply nth_error_nth'. rewrite colWidths_length. exact Hk. }
    apply padded_offset; [|intros i c Hi Hn|lia].
    + rewrite nth_error_map, Hwk. reflexivity.
    + rewrite nth_error_map in Hn.
      destruct (nth_error (colWidths headers rows) i) as [wi|] eqn:Ewi; [|discriminate].
      inversion Hn; subst. rewrite repeatChar_length.
      unfold widthAt. symmetry. apply (nth_error_nth _ _ _ Ewi).
  - unfold rowLine. cbv zeta.
    destruct (Z.ltb_spec (Z.of_nat k) (Z.of_nat (List.length row) - 1)) as [Hlast|Hlast].
    + assert (E : nth_error
                    (mapFrom 0
                       (fun cell0 i =>
                          if Z.of_nat i <? Z.of_nat (List.length row) - 1
                          then padEnd (widthAt headers rows i) (sorElse (Some cell0) "")
                          else sorElse (Some cell0) "") row) k
                  = Some (padEnd (widthAt headers rows k) cell)).
      { rewrite (mapFrom_nth _ _ 0 k cell Hcell). cbn [Nat.add].
        destruct (Z.ltb_spec (Z.of_nat k) (Z.of_nat (List.length row) - 1)); [|lia].
        rewrite Ecell. reflexivity. }
      destruct (padded_offset _ k _ E) as (pre & post & E1 & L1); [|lia|].
      * intros i c Hi Hn.
        destruct (nth_error row i) as [ci|] eqn:Eci;
          [|apply nth_error_None in Eci; lia].
        rewrite (mapFrom_nth _ _ 0 i ci Eci) in Hn. cbn [Nat.add] in Hn.
        destruct (Z.ltb_spec (Z.of_nat i) (Z.of_nat (List.length row) - 1)); [|lia].
        rewrite Ecell in Hn. inversion Hn; subst. apply padEnd_length.
        destruct (nth_error headers i) as [hi|] eqn:Ehi;
          [|apply nth_error_None in Ehi; lia].
        destruct (widthAt_header i hi Ehi) as (_ & Wi).
        pose proof (Wi row Hin) as Wci. rewrite Eci, Ecell in Wci. exact Wci.
      * exists pre, (repeatChar " " (widthAt headers rows k - length cell) ++ post).
        split; [|exact L1]. rewrite E1. unfold padEnd.
        rewrite !append_assoc. reflexivity.
    + assert (E : nth_error
                    (mapFrom 0
                       (fun cell0 i =>
                          if Z.of_nat i <? Z.of_nat (List.length row) - 1
                          then padEnd (widthAt headers rows i) (sorElse (Some cell0) "")
                          else sorElse (Some cell0) "") row) k
                  = Some cell).
      { rewrite (mapFrom_nth _ _ 0 k cell Hcell). cbn [Nat.add].
        destruct (Z.ltb_spec (Z.of_nat k) (Z.of_nat (List.length row) - 1)); [lia|].
        rewrite Ecell. reflexivity. }
      apply (padded_offset _ k _ E); [|lia].
      intros i c Hi Hn.
      destruct (nth_error row i) as [ci|] eqn:Eci;
        [|apply nth_error_None in Eci; lia].
      rewrite (mapFrom_nth _ _ 0 i ci Eci) in Hn. cbn [Nat.add] in Hn.
      destruct (Z.ltb_spec (Z.of_nat i) (Z.of_nat (List.length row) - 1)); [|lia].
      rewrite Ecell in Hn. inversion Hn; subst. apply padEnd_length.
      destruct (nth_error headers i) as [hi|] eqn:Ehi;
        [|apply nth_error_None in Ehi; lia].
      destruct (widthAt_header i hi Ehi) as (_ & Wi).
      pose proof (Wi row Hin) as Wci. rewrite Eci, Ecell in Wci. exact Wci.
Qed.

End TableFacts.

Lemma table_aligned_witness :
  exists pre post,
    rowLine ["ID"; "When"; "Event"]
      [["abc12345"; "2026-11-01 12:34"; "Lunch"]; ["x"; "2026-11-02"; "Dentist"]]
      ["x"; "2026-11-02"; "Dentist"]
    = pre ++ "Dentist" ++ post /\
    length pre = 26%nat.
Proof.
  destruct (table_aligned ["ID"; "When"; "Event"]
              [["abc12345"; "2026-11-01 12:34"; "Lunch"]; ["x"; "2026-11-02"; "Dentist"]]
              ["x"; "2026-11-02"; "Dentist"] 2 "Event" "Dentist"
              (or_intror (or_introl eq_refl)) eq_refl eq_refl eq_refl)
    as (_ & _ & _ & _ & H).
  exact H.
Defined.
